(** * marengo::jpeg::Image — resampling and error-diffusion dithering

    A shallow embedding of [src/jpg_handler/jpeg.cpp] (the in-memory part of
    the class: [getPixel], [getLuminance], [getAverage], [shrink], [expand],
    [resize], [test], [fsd], [fsdColor], and the bytes [savePpm] writes), the
    properties of it that the specification states, and further properties
    read off the code.  The constructor and [save] are calls into the JPEG
    codec and are not modelled.

    Conventions.
    - A [std::vector<uint8_t>] is a [list Z] whose elements lie in [0, 256);
      the bitmap is a [list (list Z)].
    - [size_t] is 64 bits wide; unsigned arithmetic is written with its
      wrap-around ([size_t], [uint8_t] below are the conversions).
    - Indexing a vector outside its bounds and dividing by zero are undefined
      behaviour in C++: the embedding makes them explicit ([None] in the loops,
      [Undef] / [Undefined] at method level).
    - [float] is IEEE-754 binary32 and [double] binary64, round to nearest,
      ties to even, each operation rounded to its own type (module [F32]).
    - Of the members of the class, [m_errorMgr] (the handle of the codec's
      error manager) plays no part in these functions and is left out. *)

From Stdlib Require Import QArith Qround Qpower Lqa.
From stdpp Require Import base numbers option list list_numbers strings pretty.

Local Open Scope Z_scope.

(** ** Machine integers *)

Definition uint8_t (z : Z) : Z := z mod 256.
Definition size_t (z : Z) : Z := z mod 2 ^ 64.
Definition int16_t (z : Z) : Z := (z + 2 ^ 15) mod 2 ^ 16 - 2 ^ 15.

(** Integer division of C++ truncates toward zero. *)
Definition cdiv (a b : Z) : Z := Z.quot a b.

Definition is_byte (z : Z) : Prop := 0 ≤ z < 256.

(** [for (i = lo; i < hi; ++i)] visits exactly these indices. *)
Definition range (lo hi : Z) : list Z := seqZ lo (hi - lo).

(** [for (i = 0; i < hi; i += 3)]. *)
Definition range3 (hi : Z) : list Z := (λ k, 3 * k) <$> seqZ 0 ((hi + 2) / 3).

(** ** Vectors of vectors *)

Abbreviation bitmap := (list (list Z)).

Definition len {A} (l : list A) : Z := Z.of_nat (length l).

(** [b[r][c]] as an rvalue.  Indices are [size_t] values, never negative;
    outside the vector the access is undefined. *)
Definition rd (b : bitmap) (r c : Z) : option Z :=
  row ← b !! Z.to_nat r; row !! Z.to_nat c.

(** [b[r][c] = v]. *)
Definition wr (b : bitmap) (r c v : Z) : option bitmap :=
  row ← b !! Z.to_nat r;
  if decide (c < len row) then Some (<[Z.to_nat r := <[Z.to_nat c := v]> row]> b)
  else None.

(** [b[r][c] += d] on [uint8_t] samples: the sum is formed in [int] and
    converted back. *)
Definition add_to (b : bitmap) (r c d : Z) : option bitmap :=
  v ← rd b r c; wr b r c (uint8_t (v + d)).

(** A loop whose body may run into undefined behaviour. *)
Fixpoint for_each {S : Type} (idx : list Z) (body : Z → S → option S) (s : S)
    : option S :=
  match idx with
  | [] => Some s
  | i :: rest => s' ← body i s; for_each rest body s'
  end.

(** [for row in rows: for col in cols: body row col], the shape of both
    dithering loops. *)
Definition scan (body : Z → Z → bitmap → option bitmap) (cols rows : list Z)
    : bitmap → option bitmap :=
  for_each rows (λ row, for_each cols (body row)).

(** The bitmap as such a loop finds it on reaching row [r], after the rows
    [rs] and, in row [r], the columns [cs]. *)
Definition scan_before (body : Z → Z → bitmap → option bitmap) (cols rs cs : list Z)
    (r : Z) (b : bitmap) : option bitmap :=
  b' ← scan body cols rs b; for_each cs (body r) b'.

(** ** The class *)

Record Image := mkImage {
  m_bitmapData : bitmap;
  m_width : Z;
  m_height : Z;
  m_pixelSize : Z;
  m_colourSpace : Z
}.

Inductive exn := out_of_range (what : string).

(** Result of a [const] member function. *)
Inductive outcome (A : Type) :=
  | Ret (a : A)
  | Throw (e : exn)
  | Undef.
Arguments Ret {A} a.
Arguments Throw {A} e.
Arguments Undef {A}.

Definition obind {A B} (m : outcome A) (k : A → outcome B) : outcome B :=
  match m with
  | Ret a => k a
  | Throw e => Throw e
  | Undef => Undef
  end.

Definition of_option {A} (o : option A) : outcome A :=
  match o with Some a => Ret a | None => Undef end.

Fixpoint ofold {S : Type} (idx : list Z) (body : Z → S → outcome S) (s : S)
    : outcome S :=
  match idx with
  | [] => Ret s
  | i :: rest => obind (body i s) (ofold rest body)
  end.

(** Result of a mutating member function: the object afterwards, or the
    exception together with the object as the throw left it. *)
Inductive run :=
  | Returns (img : Image)
  | Throws (e : exn) (img : Image)
  | Undefined.

(** The class invariant of the data model: positive dimensions, [height] rows
    of [width * channels] bytes each, 1 or 3 channels, and a bitmap that fits
    in the address space. *)
Record wf (img : Image) : Prop := {
  wf_ps : m_pixelSize img = 1 ∨ m_pixelSize img = 3;
  wf_w : 1 ≤ m_width img;
  wf_h : 1 ≤ m_height img;
  wf_rows : len (m_bitmapData img) = m_height img;
  wf_cols : Forall (λ row, len row = m_width img * m_pixelSize img) (m_bitmapData img);
  wf_bytes : Forall (Forall is_byte) (m_bitmapData img);
  wf_size : m_height img * (m_width img * m_pixelSize img) < 2 ^ 64
}.

(** ** getPixel *)

Definition getPixel (img : Image) (x y : Z) : outcome (list Z) :=
  if decide (len (m_bitmapData img) ≤ y) then
    Throw (out_of_range "Y value too large")
  else
    obind (of_option (m_bitmapData img !! 0%nat)) (λ row0,
    if decide (m_pixelSize img = 0) then Undef
    else if decide (len row0 / m_pixelSize img ≤ x) then
      Throw (out_of_range "X value too large")
    else
      of_option (mapM (λ n, rd (m_bitmapData img) y (size_t (size_t (x * m_pixelSize img) + n)))
                      (range 0 (m_pixelSize img)))).

(** ** getAverage *)

(** [if ( p + boxSize >= dim ) p = dim - boxSize;] *)
Definition anchor (dim p boxSize : Z) : Z :=
  if decide (dim ≤ size_t (p + boxSize)) then size_t (dim - boxSize) else p.

Definition getAverage (img : Image) (x y boxSize : Z) : outcome (list Z) :=
  if decide (m_width img < boxSize) then
    Throw (out_of_range "Box size is greater than image width")
  else if decide (m_height img < boxSize) then
    Throw (out_of_range "Box size is greater than image height")
  else
    let x := anchor (m_width img) x boxSize in
    let y := anchor (m_height img) y boxSize in
    obind
      (ofold (range y (size_t (y + boxSize))) (λ row,
         ofold (range x (size_t (x + boxSize))) (λ col '(r, g, b),
           obind (getPixel img col row) (λ vec,
           obind (of_option (vec !! 0%nat)) (λ v0,
           let r := size_t (r + v0) in
           if decide (len vec = 3) then
             obind (of_option (vec !! 1%nat)) (λ v1,
             obind (of_option (vec !! 2%nat)) (λ v2,
             Ret (r, size_t (g + v1), size_t (b + v2))))
           else Ret (r, g, b)))))
         (0, 0, 0))
      (λ '(r, g, b),
         let n := size_t (boxSize * boxSize) in
         if decide (n = 0) then Undef
         else
           let retVec := [uint8_t (r / n)] in
           if decide (m_pixelSize img = 3) then
             Ret (retVec ++ [uint8_t (g / n)] ++ [uint8_t (b / n)])
           else Ret retVec).

(** ** Floating point

    The values that occur are non-negative, finite and far from the exponent
    limits: a float is the rational it denotes, and every operation is the
    exact one followed by rounding to [prec] significant bits (nearest, ties
    to even). *)

Module F32.

(** [x / 2^e] as a fraction of integers. *)
Definition scaled (n d e : Z) : Z * Z :=
  (n * 2 ^ Z.max 0 (- e), d * 2 ^ Z.max 0 e).

Definition half_even (n d : Z) : Z :=
  let q := n / d in
  let r := n mod d in
  if 2 * r <? d then q
  else if d <? 2 * r then q + 1
  else if Z.even q then q else q + 1.

Definition rnd (prec : Z) (x : Q) : Q :=
  let n := Qnum x in
  let d := Z.pos (Qden x) in
  if n <=? 0 then 0%Q
  else
    let e0 := Z.log2 n - Z.log2 d - prec in
    let '(n0, d0) := scaled n d e0 in
    let e := if n0 <? 2 ^ prec * d0 then e0 else e0 + 1 in
    let '(n1, d1) := scaled n d e in
    Qred (inject_Z (half_even n1 d1) * Qpower 2 e).

Definition float := Q.

(** [static_cast<float>(z)] and the implicit conversion of a [size_t]
    operand. *)
Definition of_size (z : Z) : float := rnd 24 (inject_Z z).
Definition div (a b : float) : float := rnd 24 (a / b).
Definition mul (a b : float) : float := rnd 24 (a * b).
(** Conversion to [size_t] truncates. *)
Definition to_size (a : float) : Z := Qfloor a.
Definition gt (a b : float) : bool := negb (Qle_bool a b).

(** [sqrt] of an [int] argument: the argument is converted to [double]
    (exactly, below 2^53) and the square root is correctly rounded to
    binary64.  With [s = ⌊√n · 2^64⌋] the root lies in [[s, s+1) / 2^64];
    when it is not [s] itself, [s + 1/2] rounds the same way, since no
    rounding boundary of binary64 lies strictly inside that interval. *)
Definition sqrt_int (n : Z) : Q :=
  let s := Z.sqrt (n * 4 ^ 64) in
  if s * s =? n * 4 ^ 64 then rnd 53 (Qmake s (2 ^ 64))
  else rnd 53 (Qmake (2 * s + 1) (2 ^ 65)).

(** Assignment of a [double] to a [float]. *)
Definition of_double (x : Q) : float := rnd 24 x.

End F32.

(** ** shrink *)

(** [static_cast<size_t>( scaleFactor * k )] for a [size_t] operand [k]. *)
Definition scale_index (scaleFactor : F32.float) (k : Z) : Z :=
  F32.to_size (F32.mul scaleFactor (F32.of_size k)).

Definition shrink_scaleFactor (img : Image) (newWidth : Z) : F32.float :=
  F32.div (F32.of_size newWidth) (F32.of_size (m_width img)).

(** The local [newHeight], for which the new bitmap reserves its rows. *)
Definition shrink_newHeight (img : Image) (newWidth : Z) : Z :=
  scale_index (shrink_scaleFactor img newWidth) (m_height img).

Record shrink_state := mkShrink {
  runningTotals : list Z;
  runningCounts : list Z;
  oldRow : Z;
  vecNewBitmap : bitmap
}.

(** The inner loop over the samples of one source row. *)
Definition shrink_accumulate (scaleFactor : F32.float) (data : bitmap) (row col : Z)
    (st : shrink_state) : option shrink_state :=
  let idx := scale_index scaleFactor col in
  v ← rd data row col;
  t ← runningTotals st !! Z.to_nat idx;
  c ← runningCounts st !! Z.to_nat idx;
  Some (mkShrink (<[Z.to_nat idx := size_t (t + v)]> (runningTotals st))
                 (<[Z.to_nat idx := size_t (c + 1)]> (runningCounts st))
                 (oldRow st) (vecNewBitmap st)).

(** One sample of the flushed line; the accumulators are reset behind it. *)
Definition shrink_emit (i : Z) (acc : list Z * list Z * list Z)
    : option (list Z * list Z * list Z) :=
  let '(newLine, totals, counts) := acc in
  t ← totals !! Z.to_nat i;
  c ← counts !! Z.to_nat i;
  if decide (c = 0) then None
  else Some (newLine ++ [uint8_t (t / c)],
             <[Z.to_nat i := 0]> totals, <[Z.to_nat i := 0]> counts).

Definition shrink_row (scaleFactor : F32.float) (data : bitmap) (w ps newWidth : Z)
    (row : Z) (st : shrink_state) : option shrink_state :=
  st ← for_each (range 0 (size_t (w * ps))) (shrink_accumulate scaleFactor data row) st;
  if decide (oldRow st < scale_index scaleFactor row) then
    '(newLine, totals, counts) ←
      for_each (range 0 (size_t (newWidth * ps))) shrink_emit
               ([], runningTotals st, runningCounts st);
    Some (mkShrink totals counts (scale_index scaleFactor row)
                   (vecNewBitmap st ++ [newLine]))
  else Some st.

Definition shrink (img : Image) (newWidth : Z) : run :=
  if decide (m_width img ≤ newWidth) then Returns img
  else if decide (newWidth = 0) then
    Throws (out_of_range "New width cannot be zero") img
  else
    let scaleFactor := shrink_scaleFactor img newWidth in
    let n := Z.to_nat (size_t (newWidth * m_pixelSize img)) in
    match for_each (range 0 (m_height img))
            (shrink_row scaleFactor (m_bitmapData img) (m_width img)
                        (m_pixelSize img) newWidth)
            (mkShrink (replicate n 0) (replicate n 0) 0 []) with
    | None => Undefined
    | Some st =>
        match vecNewBitmap st !! 0%nat with
        | None => Undefined
        | Some row0 =>
            if decide (m_pixelSize img = 0) then Undefined
            else Returns (mkImage (vecNewBitmap st)
                                  (len row0 / m_pixelSize img)
                                  (len (vecNewBitmap st))
                                  (m_pixelSize img) (m_colourSpace img))
        end
    end.

(** ** fsd: monochrome Floyd–Steinberg *)

(** The first pass, "to grayscale". *)
Definition toGray (img : Image) : option bitmap :=
  mapM (λ row,
    mapM (λ col,
      a ← rd (m_bitmapData img) row col;
      b ← rd (m_bitmapData img) row (size_t (col + 1));
      c ← rd (m_bitmapData img) row (size_t (col + 2));
      Some (uint8_t (cdiv (a + b + c) 3)))
      (range3 (size_t (m_width img * m_pixelSize img))))
    (range 0 (m_height img)).

Definition fsd_newPixel (oldPixel : Z) : Z :=
  if decide (oldPixel ≤ 128) then 255 else 0.

(** [error] is declared [uint8_t]. *)
Definition fsd_error (oldPixel newPixel : Z) : Z := uint8_t (oldPixel - newPixel).

(** The body of the dithering loop at [(row, col)]. *)
Definition fsd_pixel (w h row col : Z) (b : bitmap) : option bitmap :=
  if decide (col = 0 ∨ col = size_t (w - 1) ∨ row = size_t (h - 1)) then
    wr b row col 255
  else
    oldPixel ← rd b row col;
    let newPixel := fsd_newPixel oldPixel in
    let error := fsd_error oldPixel newPixel in
    b ← add_to b row (size_t (col + 1)) (cdiv (error * 7) 16);
    b ← add_to b (size_t (row + 1)) (size_t (col + 1)) (cdiv (error * 1) 16);
    b ← add_to b (size_t (row + 1)) col (cdiv (error * 5) 16);
    b ← add_to b (size_t (row + 1)) (size_t (col - 1)) (cdiv (error * 3) 16);
    wr b row col newPixel.

Definition fsd_dither (w h : Z) (b : bitmap) : option bitmap :=
  scan (fsd_pixel w h) (range 0 w) (range 0 h) b.

(** The last pass, "to 3 chanels". *)
Definition toRGB (w h : Z) (b : bitmap) : option bitmap :=
  mapM (λ row,
    px ← mapM (λ col, v ← rd b row col; Some [v; v; v]) (range 0 w);
    Some (concat px))
    (range 0 h).

(** The object as the four closing assignments leave it. *)
Definition rebuild (img : Image) (data : bitmap) : run :=
  match data !! 0%nat with
  | None => Undefined
  | Some row0 => Returns (mkImage data (len row0 / 3) (len data) 3 (m_colourSpace img))
  end.

Definition fsd (img : Image) : run :=
  match g ← toGray img;
        d ← fsd_dither (m_width img) (m_height img) g;
        toRGB (m_width img) (m_height img) d with
  | None => Undefined
  | Some data => rebuild img data
  end.

(** ** fsdColor: Floyd–Steinberg onto the seven-colour palette *)

Definition palet : bitmap :=
  [ [0x38; 0x48; 0x8d];
    [0x54; 0x7a; 0x49];
    [0x9f; 0x4b; 0x4e];
    [0x24; 0x29; 0x33];
    [0xc9; 0xd1; 0x68];
    [0xb5; 0x5d; 0x4c];
    [0xd3; 0xdd; 0xe4] ].

(** [auxDistance] of the pixel [(r, g, b)] to the palette entry [idxPalet]. *)
Definition auxDistance (r g b idxPalet : Z) : option F32.float :=
  p0 ← rd palet idxPalet 0;
  p1 ← rd palet idxPalet 1;
  p2 ← rd palet idxPalet 2;
  let deltaR := int16_t (r - p0) in
  let deltaG := int16_t (g - p1) in
  let deltaB := int16_t (b - p2) in
  let rHat := int16_t (cdiv (r + p0) 2) in
  Some (F32.of_double (F32.sqrt_int
    (if decide (rHat < 128) then
       2 * deltaR * deltaR + 4 * deltaG * deltaG + 3 * deltaB * deltaB
     else
       3 * deltaR * deltaR + 4 * deltaG * deltaG + 2 * deltaB * deltaB))).

(** One turn of the palette search; the state is [(shortDistance, idColor)]. *)
Definition nearest_step (r g b idxPalet : Z) (st : F32.float * Z)
    : option (F32.float * Z) :=
  aux ← auxDistance r g b idxPalet;
  if decide (idxPalet = 0) then Some (aux, idxPalet)
  else if F32.gt (fst st) aux then Some (aux, idxPalet)
  else Some st.

(** [idColor] after the search.  Both variables are assigned in the first
    turn, so the state the search starts from is immaterial. *)
Definition nearestColor (r g b : Z) : option Z :=
  snd <$> for_each (range 0 7) (nearest_step r g b) (0%Q, 0).

(** [errorR = oldPixelR - newPixelR], all three [int16_t], from the bytes the
    pixels are read from. *)
Definition color_error (oldPixel newPixel : Z) : Z :=
  int16_t (int16_t oldPixel - int16_t newPixel).

(** The three [+=] of one neighbour in row [r], with weight [k]/16, at the
    byte columns [c0], [c1], [c2]. *)
Definition diffuse (b : bitmap) (r : Z) (errorR errorG errorB k : Z)
    (c0 c1 c2 : Z) : option bitmap :=
  b ← add_to b r c0 (cdiv (errorR * k) 16);
  b ← add_to b r c1 (cdiv (errorG * k) 16);
  add_to b r c2 (cdiv (errorB * k) 16).

(** The body of the loop at row [row] and byte column [col]. *)
Definition fsdColor_pixel (w h ps row col : Z) (b : bitmap) : option bitmap :=
  if decide (col = 0 ∨ size_t (size_t (w * ps) - ps) ≤ col ∨ row = size_t (h - 1)) then
    p0 ← rd palet 0 0;
    p1 ← rd palet 0 1;
    p2 ← rd palet 0 2;
    b ← wr b row col p0;
    b ← wr b row (size_t (col + 1)) p1;
    wr b row (size_t (col + 2)) p2
  else
    r ← rd b row col;
    g ← rd b row (size_t (col + 1));
    bl ← rd b row (size_t (col + 2));
    idColor ← nearestColor r g bl;
    oldPixelR ← rd b row col;
    oldPixelG ← rd b row (size_t (col + 1));
    oldPixelB ← rd b row (size_t (col + 2));
    newPixelR ← rd palet idColor 0;
    newPixelG ← rd palet idColor 1;
    newPixelB ← rd palet idColor 2;
    let errorR := color_error oldPixelR newPixelR in
    let errorG := color_error oldPixelG newPixelG in
    let errorB := color_error oldPixelB newPixelB in
    b ← diffuse b row errorR errorG errorB 7
          (size_t (size_t (col + 0) + 3)) (size_t (size_t (col + 1) + 3))
          (size_t (size_t (col + 2) + 3));
    b ← diffuse b (size_t (row + 1)) errorR errorG errorB 1
          (size_t (size_t (col + 0) + 3)) (size_t (size_t (col + 1) + 3))
          (size_t (size_t (col + 2) + 3));
    b ← diffuse b (size_t (row + 1)) errorR errorG errorB 5
          (size_t (col + 0)) (size_t (col + 1)) (size_t (col + 2));
    b ← diffuse b (size_t (row + 1)) errorR errorG errorB 3
          (size_t (size_t (col - 0) - 3)) (size_t (size_t (col + 1) - 3))
          (size_t (size_t (col + 2) - 3));
    b ← wr b row col (uint8_t (int16_t newPixelR));
    b ← wr b row (size_t (col + 1)) (uint8_t (int16_t newPixelG));
    wr b row (size_t (col + 2)) (uint8_t (int16_t newPixelB)).

Definition fsdColor_dither (w h ps : Z) (b : bitmap) : option bitmap :=
  scan (fsdColor_pixel w h ps) (range3 (size_t (w * ps))) (range 0 h) b.

Definition fsdColor (img : Image) : run :=
  match fsdColor_dither (m_width img) (m_height img) (m_pixelSize img)
                        (m_bitmapData img) with
  | None => Undefined
  | Some data => rebuild img data
  end.

(** An image of [w] by [h] pixels, all equal to [px]. *)
Definition uniform (w h : Z) (px : list Z) : Image :=
  mkImage (replicate (Z.to_nat h) (concat (replicate (Z.to_nat w) px))) w h (len px) 0.

(** ** getLuminance *)

Definition getLuminance (img : Image) (x y : Z) : outcome Z :=
  obind (getPixel img x y) (λ vec,
  if decide (len vec = 1) then of_option (vec !! 0%nat)
  else if decide (len vec = 3) then
    obind (of_option (vec !! 0%nat)) (λ v0,
    obind (of_option (vec !! 1%nat)) (λ v1,
    obind (of_option (vec !! 2%nat)) (λ v2,
    Ret (uint8_t (cdiv (v0 * 2 + v1 * 3 + v2) 6)))))
  else Ret 0).

(** ** test: the right half of every row painted over *)

(** One turn of the inner loop; the state is [(newLine, cta)]. *)
Definition test_sample (data : bitmap) (w ps row col : Z) (st : list Z * Z)
    : option (list Z * Z) :=
  let '(newLine, cta) := st in
  if decide (col < size_t (w * ps) / 2) then
    v ← rd data row col; Some (newLine ++ [v], cta)
  else if decide (ps = 1) then Some (newLine ++ [0xFF], cta)
  else
    let newLine := if decide (cta = 0) then newLine ++ [0xFF] else newLine in
    let newLine := if decide (cta = 1) then newLine ++ [0x00] else newLine in
    let newLine := if decide (cta = 2) then newLine ++ [0x00] else newLine in
    let cta := cta + 1 in
    let cta := if decide (cta = 3) then 0 else cta in
    Some (newLine, cta).

Definition test_line (data : bitmap) (w ps row : Z) : option (list Z) :=
  fst <$> for_each (range 0 (size_t (w * ps))) (test_sample data w ps row) ([], 0).

(** The object as the closing assignments of [test] and [expand] (the same
    as those of [shrink]) leave it: the channel count stays. *)
Definition replace_bitmap (img : Image) (data : bitmap) : run :=
  match data !! 0%nat with
  | None => Undefined
  | Some row0 =>
      if decide (m_pixelSize img = 0) then Undefined
      else Returns (mkImage data (len row0 / m_pixelSize img) (len data)
                            (m_pixelSize img) (m_colourSpace img))
  end.

Definition test (img : Image) : run :=
  match mapM (test_line (m_bitmapData img) (m_width img) (m_pixelSize img))
             (range 0 (m_height img)) with
  | None => Undefined
  | Some data => replace_bitmap img data
  end.

(** ** expand and resize *)

(** [static_cast<size_t>( k / scaleFactor )] for a [size_t] operand [k]. *)
Definition unscale_index (scaleFactor : F32.float) (k : Z) : Z :=
  F32.to_size (F32.div (F32.of_size k) scaleFactor).

(** [vecNewLine[ col * m_pixelSize + n ] = m_bitmapData[ oldRow ][ oldCol * m_pixelSize + n ]] *)
Definition expand_sample (data : bitmap) (ps oldRow oldCol col n : Z) (line : list Z)
    : option (list Z) :=
  v ← rd data oldRow (size_t (size_t (oldCol * ps) + n));
  let i := size_t (size_t (col * ps) + n) in
  if decide (i < len line) then Some (<[Z.to_nat i := v]> line) else None.

Definition expand_line (scaleFactor : F32.float) (data : bitmap) (ps newWidth row : Z)
    : option (list Z) :=
  let oldRow := unscale_index scaleFactor row in
  for_each (range 0 newWidth)
    (λ col, for_each (range 0 ps)
              (expand_sample data ps oldRow (unscale_index scaleFactor col) col))
    (replicate (Z.to_nat (size_t (newWidth * ps))) 0).

(** Dividing by zero is undefined for [float] operands too; with a width of
    at least 1 the scale factor is positive. *)
Definition expand (img : Image) (newWidth : Z) : run :=
  if decide (newWidth ≤ m_width img) then Returns img
  else if decide (m_width img = 0) then Undefined
  else
    let scaleFactor := shrink_scaleFactor img newWidth in
    let newHeight := scale_index scaleFactor (m_height img) in
    match mapM (expand_line scaleFactor (m_bitmapData img) (m_pixelSize img) newWidth)
               (range 0 newHeight) with
    | None => Undefined
    | Some data => replace_bitmap img data
    end.

Definition resize (img : Image) (newWidth : Z) : run :=
  if decide (newWidth < m_width img) then shrink img newWidth
  else if decide (m_width img < newWidth) then expand img newWidth
  else Returns img.

(** ** savePpm

    The member function is [const]; what it does is write a file.  The model
    is the sequence of bytes handed to the stream, given whether the stream
    could be opened. *)

Inductive io_exn := runtime_error (what : string).

Inductive saved :=
  | Saved (content : list Z)
  | SaveThrows (e : io_exn).

(** The bytes of a string. *)
Definition chars (s : string) : list Z :=
  (λ a, Z.of_N (Ascii.N_of_ascii a)) <$> String.list_ascii_of_string s.

Definition newline : string := String (Ascii.ascii_of_nat 10) EmptyString.

(** [ofs << "P6 " << m_width << " " << m_height << " 255\n"]: the two
    [size_t] members are printed in decimal. *)
Definition ppm_header (img : Image) : string :=
  "P6 " +:+ pretty (m_width img) +:+ " " +:+ pretty (m_height img) +:+ " 255" +:+ newline.

Definition savePpm (opened : bool) (fileName : string) (img : Image) : saved :=
  if opened then Saved (chars (ppm_header img) ++ concat (m_bitmapData img))
  else SaveThrows (runtime_error ("Could not open " +:+ fileName +:+ " for saving")).

(** ** Vocabulary of the properties *)

(** [h] rows of [w] samples. *)
Definition dims (h w : Z) (b : bitmap) : Prop :=
  len b = h ∧ Forall (λ row, len row = w) b.

Definition bytes (b : bitmap) : Prop := Forall (Forall is_byte) b.

(** [b'] agrees with [b] on every sample before [(row, col)]. *)
Definition same_before (row col : Z) (b b' : bitmap) : Prop :=
  ∀ r c, 0 ≤ r → 0 ≤ c → r < row ∨ (r = row ∧ c < col) → rd b' r c = rd b r c.

(** The pixels [fsd] forces to white. *)
Definition fsd_border (w h row col : Z) : Prop :=
  col = 0 ∨ col = w - 1 ∨ row = h - 1.

(** The working bitmap as the loops of [fsd] find it at [(row, col)]. *)
Definition fsd_before (w h row col : Z) (g : bitmap) : option bitmap :=
  scan_before (fsd_pixel w h) (range 0 w) (range 0 row) (range 0 col) row g.

(** The pixels [fsdColor] forces to the first palette entry, by byte column. *)
Definition fsdColor_border (w h row col : Z) : Prop :=
  col = 0 ∨ 3 * w - 3 ≤ col ∨ row = h - 1.

(** Every sample of the image is [v]. *)
Definition all_samples (v : Z) (img : Image) : Prop :=
  Forall (Forall (λ s, s = v)) (m_bitmapData img).

(** Every pixel of the image is [px]. *)
Definition all_pixels (px : list Z) (img : Image) : Prop :=
  ∀ x y, 0 ≤ x < m_width img → 0 ≤ y < m_height img → getPixel img x y = Ret px.

(** The sum of a list of integers. *)
Definition zsum (l : list Z) : Z := foldr Z.add 0 l.

(** Sample [n] of the pixel at [(x, y)]; 0 where the bitmap has none. *)
Definition sample (img : Image) (x y n : Z) : Z :=
  default 0 (rd (m_bitmapData img) y (x * m_pixelSize img + n)).

(** The total of channel [n] over the box of side [boxSize] whose corner is
    [(x, y)], and the truncated means of that box, channel by channel. *)
Definition box_total (img : Image) (x y boxSize n : Z) : Z :=
  zsum ((λ row, zsum ((λ col, sample img col row n) <$> range x (x + boxSize)))
          <$> range y (y + boxSize)).

Definition box_mean (img : Image) (x y boxSize : Z) : list Z :=
  (λ n, box_total img x y boxSize n / (boxSize * boxSize)) <$> range 0 (m_pixelSize img).

(** What the pixel at [(x, y)] adds to the running total number [n] of
    [getAverage]: its sample [n] when it has one. *)
Definition chan (img : Image) (x y n : Z) : Z :=
  if decide (n < m_pixelSize img) then sample img x y n else 0.

(** The body of the inner loop of [getAverage], by name. *)
Definition getAverage_step (img : Image) (row col : Z) (acc : Z * Z * Z)
    : outcome (Z * Z * Z) :=
  let '(r, g, b) := acc in
  obind (getPixel img col row) (λ vec,
  obind (of_option (vec !! 0%nat)) (λ v0,
  let r := size_t (r + v0) in
  if decide (len vec = 3) then
    obind (of_option (vec !! 1%nat)) (λ v1,
    obind (of_option (vec !! 2%nat)) (λ v2,
    Ret (r, size_t (g + v1), size_t (b + v2))))
  else Ret (r, g, b))).

(** The byte [test] leaves at column [col] of row [row]: the old one in the
    left half of the row; in the right half 0xFF for one channel, and
    otherwise 0xFF, 0x00, 0x00 in turn, counted from the middle of the row. *)
Definition test_byte (img : Image) (row col : Z) : Z :=
  let half := m_width img * m_pixelSize img / 2 in
  if decide (col < half) then default 0 (rd (m_bitmapData img) row col)
  else if decide (m_pixelSize img = 1) then 0xFF
  else if decide ((col - half) mod 3 = 0) then 0xFF else 0x00.

(** What the loops of [shrink] keep: [N] running totals and counts, and
    flushed rows of [N] bytes each. *)
Definition shrink_inv (N : Z) (st : shrink_state) : Prop :=
  len (runningTotals st) = N ∧ len (runningCounts st) = N ∧
  Forall (λ row, len row = N ∧ Forall is_byte row) (vecNewBitmap st).

(** The column loop of [expand] over the columns [cols] of one new line. *)
Definition expand_cols (data : bitmap) (ps oldRow : Z) (oldCol : Z → Z)
    (cols : list Z) : list Z → option (list Z) :=
  for_each cols (λ col, for_each (range 0 ps)
                          (expand_sample data ps oldRow (oldCol col) col)).

(** The pixel at byte column [3 * k] of row [r] is the palette entry [id],
    the first one on the border. *)
Definition palette_pixel (w h : Z) (b : bitmap) (r k : Z) : Prop :=
  ∃ id p0 p1 p2, 0 ≤ id < 7 ∧
    (fsdColor_border w h r (3 * k) → id = 0) ∧
    rd palet id 0 = Some p0 ∧ rd palet id 1 = Some p1 ∧ rd palet id 2 = Some p2 ∧
    rd b r (3 * k) = Some p0 ∧ rd b r (3 * k + 1) = Some p1 ∧
    rd b r (3 * k + 2) = Some p2.

(** The grey bitmap when the loops of [fsd] reach [(row, col)] on a black
    image: white up to there, black from there on. *)
Definition white_before (w h row col : Z) (b : bitmap) : Prop :=
  dims h w b ∧
  ∀ r c, 0 ≤ r < h → 0 ≤ c < w →
    rd b r c = Some (if decide (r < row ∨ (r = row ∧ c < col)) then 255 else 0).

(** * Properties *)

(** ** Machine arithmetic *)

Lemma size_t_small z : 0 ≤ z < 2 ^ 64 → size_t z = z.
Proof. intros. unfold size_t. by rewrite Z.mod_small. Qed.

Lemma uint8_t_small z : is_byte z → uint8_t z = z.
Proof. intros. unfold uint8_t. by rewrite Z.mod_small. Qed.

Lemma uint8_t_byte z : is_byte (uint8_t z).
Proof. unfold is_byte, uint8_t. apply Z.mod_pos_bound. lia. Qed.

Lemma int16_t_byte z : is_byte z → uint8_t (int16_t z) = z.
Proof.
  unfold is_byte, int16_t, uint8_t. intros.
  rewrite (Z.mod_small (z + 2 ^ 15)) by lia.
  replace (z + 2 ^ 15 - 2 ^ 15) with z by lia. by apply Z.mod_small.
Qed.

Lemma size_t_range z : 0 ≤ size_t z < 2 ^ 64.
Proof. unfold size_t. apply Z.mod_pos_bound. lia. Qed.

(** ** Rounding, on values whose binary32 image is known *)

Example f32_third :
  F32.div (F32.of_size 1) (F32.of_size 3) = (11184811 # 33554432)%Q.
Proof. vm_compute. reflexivity. Qed.

Example f32_third_times_3 :
  scale_index (F32.div (F32.of_size 1) (F32.of_size 3)) 3 = 1.
Proof. vm_compute. reflexivity. Qed.

Example f32_ties_to_even :
  F32.of_size 16777217 = 16777216%Q ∧ F32.of_size 16777219 = 16777220%Q.
Proof. split; vm_compute; reflexivity. Qed.

Example f32_sqrt_2 :
  F32.sqrt_int 2 = (6369051672525773 # 4503599627370496)%Q ∧
  F32.of_double (F32.sqrt_int 2) = (11863283 # 8388608)%Q.
Proof. split; vm_compute; reflexivity. Qed.

Example f32_sqrt_9 : F32.of_double (F32.sqrt_int 9) = 3%Q.
Proof. vm_compute. reflexivity. Qed.

(** ** Loops *)

Lemma elem_of_range lo hi i : i ∈ range lo hi ↔ lo ≤ i < hi.
Proof. unfold range. rewrite elem_of_seqZ. lia. Qed.

Lemma range_nil lo hi : hi ≤ lo → range lo hi = [].
Proof. intros. unfold range, seqZ. by replace (Z.to_nat (hi - lo)) with 0%nat by lia. Qed.

Lemma range_cons lo hi : lo < hi → range lo hi = lo :: range (lo + 1) hi.
Proof.
  intros. unfold range. rewrite seqZ_cons by lia.
  f_equal. f_equal; lia.
Qed.

Lemma range_split lo i hi :
  lo ≤ i < hi → range lo hi = range lo i ++ i :: range (i + 1) hi.
Proof.
  intros. unfold range.
  replace (hi - lo) with ((i - lo) + (hi - i)) by lia.
  rewrite seqZ_app by lia. f_equal.
  replace (lo + (i - lo)) with i by lia.
  rewrite seqZ_cons by lia. f_equal. f_equal; lia.
Qed.

Lemma elem_of_range3 hi c : c ∈ range3 hi ↔ ∃ k, c = 3 * k ∧ 0 ≤ k ∧ 3 * k < hi.
Proof.
  unfold range3. rewrite list_elem_of_fmap. setoid_rewrite elem_of_seqZ.
  split; intros (k & -> & Hk); exists k; (split; [done|]);
    Z.div_mod_to_equations; lia.
Qed.

Lemma range3_split hi k :
  0 ≤ k → 3 * k < hi →
  range3 hi = ((λ k, 3 * k) <$> range 0 k) ++ 3 * k :: ((λ k, 3 * k) <$> range (k + 1) ((hi + 2) / 3)).
Proof.
  intros. unfold range3.
  replace (seqZ 0 ((hi + 2) / 3)) with (range 0 ((hi + 2) / 3))
    by (unfold range; f_equal; lia).
  rewrite (range_split 0 k) by (Z.div_mod_to_equations; lia).
  by rewrite fmap_app, fmap_cons.
Qed.

Section for_each.
Context {S : Type}.
Implicit Types (body : Z → S → option S) (idx : list Z).

Lemma for_each_app idx1 idx2 body s :
  for_each (idx1 ++ idx2) body s = s' ← for_each idx1 body s; for_each idx2 body s'.
Proof.
  revert s. induction idx1 as [|i idx1 IH]; intros s; simpl; [done|].
  destruct (body i s); simpl; auto.
Qed.

(** A loop whose body keeps an invariant [I] runs to the end, and relates
    the states at both ends by any preorder its body respects. *)
Lemma for_each_inv (I : S → Prop) (R : S → S → Prop) idx body :
  (∀ s, R s s) →
  (∀ s1 s2 s3, R s1 s2 → R s2 s3 → R s1 s3) →
  (∀ i s, i ∈ idx → I s → ∃ s', body i s = Some s' ∧ I s' ∧ R s s') →
  ∀ s, I s → ∃ s', for_each idx body s = Some s' ∧ I s' ∧ R s s'.
Proof.
  intros Hrefl Htrans. induction idx as [|i idx IH]; intros Hbody s Hs; simpl.
  - eauto.
  - destruct (Hbody i s) as (s1 & -> & Hs1 & HR1); [left | done |]. simpl.
    destruct (IH (λ j s Hj, Hbody j s (list_elem_of_further _ _ _ Hj)) s1 Hs1)
      as (s2 & -> & Hs2 & HR2).
    eauto.
Qed.
End for_each.

(** ** Reads and writes of the bitmap *)

Lemma dims_row h w b r row : dims h w b → b !! r = Some row → len row = w.
Proof. intros [_ Hw] Hr. by apply (Forall_lookup_1 _ _ _ _ Hw Hr). Qed.

Lemma dims_lookup h w b r :
  dims h w b → 0 ≤ r < h → ∃ row, b !! Z.to_nat r = Some row ∧ len row = w.
Proof.
  intros Hd Hr. destruct (lookup_lt_is_Some_2 b (Z.to_nat r)) as [row Hrow].
  { destruct Hd as [Hh _]. unfold len in Hh. lia. }
  exists row. split; [done|]. by eapply dims_row.
Qed.

Lemma rd_ok h w b r c :
  dims h w b → 0 ≤ r < h → 0 ≤ c < w → ∃ v, rd b r c = Some v.
Proof.
  intros Hd Hr Hc. destruct (dims_lookup h w b r Hd Hr) as (row & Hrow & Hlen).
  destruct (lookup_lt_is_Some_2 row (Z.to_nat c)) as [v Hv].
  { unfold len in Hlen. lia. }
  exists v. unfold rd. by rewrite Hrow.
Qed.

Lemma rd_byte b r c v : bytes b → rd b r c = Some v → is_byte v.
Proof.
  unfold rd, bytes. intros Hb Hrd.
  destruct (b !! Z.to_nat r) as [row|] eqn:Hrow; simpl in Hrd; [|done].
  eapply Forall_lookup_1; [|exact Hrd]. by eapply Forall_lookup_1.
Qed.

(** A write inside the bitmap succeeds, keeps the shape, is read back, and
    leaves every other sample alone. *)
Lemma wr_ok h w b r c v :
  dims h w b → 0 ≤ r < h → 0 ≤ c < w →
  ∃ b', wr b r c v = Some b' ∧ dims h w b' ∧ rd b' r c = Some v ∧
    (∀ r' c', 0 ≤ r' → 0 ≤ c' → ¬ (r' = r ∧ c' = c) → rd b' r' c' = rd b r' c') ∧
    (bytes b → is_byte v → bytes b').
Proof.
  intros Hd Hr Hc. destruct (dims_lookup h w b r Hd Hr) as (row & Hrow & Hlen).
  assert (Z.to_nat r < length b)%nat by (by eapply lookup_lt_Some).
  assert (Z.to_nat c < length row)%nat by (unfold len in Hlen; lia).
  unfold wr. rewrite Hrow. simpl. rewrite decide_True by lia.
  eexists. split; [done|]. split; [|split; [|split]].
  - destruct Hd as [Hh Hw]. split.
    + unfold len in *. by rewrite length_insert.
    + apply Forall_insert; [done|]. cbv beta. unfold len in *.
      by rewrite length_insert.
  - unfold rd. rewrite list_lookup_insert_eq by done. simpl.
    by rewrite list_lookup_insert_eq.
  - intros r' c' Hr' Hc' Hne. unfold rd.
    destruct (decide (r' = r)) as [->|Hrr].
    + rewrite list_lookup_insert_eq by done. rewrite Hrow. simpl.
      apply list_lookup_insert_ne. lia.
    + rewrite list_lookup_insert_ne by lia. done.
  - intros Hb Hv. apply Forall_insert; [done|].
    apply Forall_insert; [|done]. by eapply Forall_lookup_1.
Qed.

Lemma add_to_ok h w b r c d :
  dims h w b → 0 ≤ r < h → 0 ≤ c < w →
  ∃ b' v, rd b r c = Some v ∧ add_to b r c d = Some b' ∧ dims h w b' ∧
    rd b' r c = Some (uint8_t (v + d)) ∧
    (∀ r' c', 0 ≤ r' → 0 ≤ c' → ¬ (r' = r ∧ c' = c) → rd b' r' c' = rd b r' c') ∧
    (bytes b → bytes b').
Proof.
  intros Hd Hr Hc. destruct (rd_ok h w b r c Hd Hr Hc) as [v Hv].
  destruct (wr_ok h w b r c (uint8_t (v + d)) Hd Hr Hc) as (b' & Hwr & Hd' & Hrd & Hfr & Hb).
  exists b', v. unfold add_to. rewrite Hv. simpl.
  split_and!; try done. intros. apply Hb; [done|]. apply uint8_t_byte.
Qed.

(** Storing the value a sample already has changes nothing. *)
Lemma wr_same b r c v : 0 ≤ c → rd b r c = Some v → wr b r c v = Some b.
Proof.
  unfold rd, wr. intros Hc Hrd.
  destruct (b !! Z.to_nat r) as [row|] eqn:Hrow; simpl in *; [|done].
  pose proof (lookup_lt_Some _ _ _ Hrd).
  rewrite decide_True by (unfold len; lia).
  f_equal. rewrite (list_insert_id row) by done. by apply list_insert_id.
Qed.

Lemma add_to_zero b r c v :
  bytes b → 0 ≤ c → rd b r c = Some v → add_to b r c 0 = Some b.
Proof.
  intros Hb Hc Hrd. unfold add_to. rewrite Hrd. simpl.
  rewrite Z.add_0_r, uint8_t_small by (by eapply rd_byte).
  by apply wr_same.
Qed.

(** ** Raster scans

    Both ditherers visit the bitmap row by row, left to right, and their body
    at [(row, col)] only touches samples at or after [(row, col)] in that
    order.  What a visit stores at its own position is therefore final. *)

Lemma same_before_refl row col b : same_before row col b b.
Proof. by intros r c _ _ _. Qed.

Lemma same_before_trans row col b1 b2 b3 :
  same_before row col b1 b2 → same_before row col b2 b3 → same_before row col b1 b3.
Proof. intros H12 H23 r c Hr Hc Hlt. rewrite H23, H12; done. Qed.

Lemma same_before_weaken row col row' col' b b' :
  row' < row ∨ (row' = row ∧ col' ≤ col) →
  same_before row col b b' → same_before row' col' b b'.
Proof. intros Hle H r c Hr Hc Hlt. apply H; lia. Qed.

Section scan.
Variable body : Z → Z → bitmap → option bitmap.
Variable I : bitmap → Prop.
Variables rows cols : list Z.

Hypothesis cols_nonneg : ∀ c, c ∈ cols → 0 ≤ c.
Hypothesis body_ok : ∀ r c b, r ∈ rows → c ∈ cols → I b →
  ∃ b', body r c b = Some b' ∧ I b' ∧ same_before r c b b'.

Lemma scan_cols r cs m b :
  r ∈ rows → cs ⊆ cols → I b →
  ∃ b', for_each cs (body r) b = Some b' ∧ I b' ∧
    ((∀ c, c ∈ cs → m ≤ c) → same_before r m b b').
Proof.
  intros Hr Hcs.
  apply (for_each_inv I (λ s s', (∀ c, c ∈ cs → m ≤ c) → same_before r m s s')).
  - intros s _. apply same_before_refl.
  - intros s1 s2 s3 H12 H23 Hm. eapply same_before_trans; eauto.
  - intros c s Hc Hs. destruct (body_ok r c s) as (s' & ? & ? & Hsame); auto.
    exists s'. split_and!; try done. intros Hm.
    eapply same_before_weaken; [|done]. right. split; [done|]. by apply Hm.
Qed.

Lemma scan_rows rs m b :
  rs ⊆ rows → I b →
  ∃ b', scan body cols rs b = Some b' ∧ I b' ∧
    ((∀ r, r ∈ rs → m ≤ r) → same_before m 0 b b').
Proof.
  intros Hrs.
  apply (for_each_inv I (λ s s', (∀ r, r ∈ rs → m ≤ r) → same_before m 0 s s')).
  - intros s _. apply same_before_refl.
  - intros s1 s2 s3 H12 H23 Hm. eapply same_before_trans; eauto.
  - intros r s Hr Hs.
    destruct (scan_cols r cols 0 s) as (s' & ? & ? & Hsame); auto.
    exists s'. split_and!; try done. intros Hm.
    eapply same_before_weaken; [|apply Hsame; auto].
    specialize (Hm r Hr). lia.
Qed.

(** The visit of [(r, c)]: the loops reach it, its body runs, and the
    samples of row [r] that lie before every later column keep the value
    the body left there until the scan ends. *)
Lemma scan_visit rs1 r rs2 cs1 c cs2 b :
  rows = rs1 ++ r :: rs2 → cols = cs1 ++ c :: cs2 →
  0 ≤ r → (∀ r', r' ∈ rs2 → r < r') → I b →
  ∃ b0 b1 d,
    scan_before body cols rs1 cs1 r b = Some b0 ∧ I b0 ∧
    body r c b0 = Some b1 ∧ I b1 ∧ same_before r c b0 b1 ∧
    scan body cols rows b = Some d ∧ I d ∧
    ∀ x, 0 ≤ x → (∀ c', c' ∈ cs2 → x < c') → rd d r x = rd b1 r x.
Proof.
  intros Hrows Hcols Hr Hrs2 Hb.
  assert (Hr_in : r ∈ rows).
  { rewrite Hrows, elem_of_app, elem_of_cons. auto. }
  assert (Hc_in : c ∈ cols).
  { rewrite Hcols, elem_of_app, elem_of_cons. auto. }
  assert (Hrs1 : rs1 ⊆ rows).
  { intros x Hx. rewrite Hrows, elem_of_app. auto. }
  assert (Hrs2' : rs2 ⊆ rows).
  { intros x Hx. rewrite Hrows, elem_of_app, elem_of_cons. auto. }
  assert (Hcs1 : cs1 ⊆ cols).
  { intros x Hx. rewrite Hcols, elem_of_app. auto. }
  assert (Hcs2 : cs2 ⊆ cols).
  { intros x Hx. rewrite Hcols, elem_of_app, elem_of_cons. auto. }
  destruct (scan_rows rs1 0 b Hrs1 Hb) as (a & Ha & HIa & _).
  destruct (scan_cols r cs1 0 a Hr_in Hcs1 HIa) as (b0 & Hb0 & HIb0 & _).
  destruct (body_ok r c b0 Hr_in Hc_in HIb0) as (b1 & Hb1 & HIb1 & Hsame).
  destruct (scan_cols r cs2 0 b1 Hr_in Hcs2 HIb1) as (b2 & Hb2 & HIb2 & _).
  destruct (scan_rows rs2 (r + 1) b2 Hrs2' HIb2) as (d & Hd & HId & Hfr2).
  exists b0, b1, d. split_and!; try done.
  - unfold scan_before. rewrite Ha. done.
  - unfold scan. rewrite Hrows, for_each_app. fold (scan body cols rs1). rewrite Ha.
    simpl. rewrite Hcols at 1. rewrite for_each_app, Hb0. simpl.
    rewrite Hb1. simpl. rewrite Hb2. done.
  - intros x Hx Hlt.
    destruct (scan_cols r cs2 (x + 1) b1 Hr_in Hcs2 HIb1) as (b2' & Hb2' & _ & Hfr1).
    assert (b2' = b2) as -> by congruence.
    rewrite Hfr2; [| intros r' Hr'; specialize (Hrs2 r' Hr'); lia | done | done | lia].
    apply Hfr1; [|done|done|lia].
    intros c' Hc'. specialize (Hlt c' Hc'). lia.
Qed.
End scan.

(** ** The monochrome ditherer, pixel by pixel *)

Section fsd_pixel.
Variables w h : Z.
Hypothesis Hw : 1 ≤ w < 2 ^ 64.
Hypothesis Hh : 1 ≤ h < 2 ^ 64.

Lemma fsd_pixel_border r c b :
  dims h w b → 0 ≤ r < h → 0 ≤ c < w → fsd_border w h r c →
  ∃ b', fsd_pixel w h r c b = Some b' ∧ dims h w b' ∧ rd b' r c = Some 255 ∧
    ∀ r' c', 0 ≤ r' → 0 ≤ c' → ¬ (r' = r ∧ c' = c) → rd b' r' c' = rd b r' c'.
Proof.
  intros Hd Hr Hc Hborder. unfold fsd_pixel.
  rewrite !size_t_small by lia. rewrite decide_True by exact Hborder.
  destruct (wr_ok h w b r c 255 Hd Hr Hc) as (b' & ? & ? & ? & ? & _). eauto.
Qed.

Lemma fsd_pixel_interior r c b :
  dims h w b → 0 ≤ r < h → 0 ≤ c < w → ¬ fsd_border w h r c →
  ∃ b' oldPixel, rd b r c = Some oldPixel ∧
    fsd_pixel w h r c b = Some b' ∧ dims h w b' ∧
    rd b' r c = Some (fsd_newPixel oldPixel) ∧ same_before r c b b'.
Proof.
  intros Hd Hr Hc Hint. unfold fsd_border in Hint. unfold fsd_pixel.
  rewrite !size_t_small by lia. rewrite decide_False by exact Hint.
  destruct (rd_ok h w b r c Hd Hr Hc) as [old Hold]. rewrite Hold. simpl.
  set (e := fsd_error old (fsd_newPixel old)).
  destruct (add_to_ok h w b r (c + 1) (cdiv (e * 7) 16))
    as (b1 & ? & _ & -> & Hd1 & _ & Hf1 & _); [done|lia|lia|]. simpl.
  destruct (add_to_ok h w b1 (r + 1) (c + 1) (cdiv (e * 1) 16))
    as (b2 & ? & _ & -> & Hd2 & _ & Hf2 & _); [done|lia|lia|]. simpl.
  destruct (add_to_ok h w b2 (r + 1) c (cdiv (e * 5) 16))
    as (b3 & ? & _ & -> & Hd3 & _ & Hf3 & _); [done|lia|lia|]. simpl.
  destruct (add_to_ok h w b3 (r + 1) (c - 1) (cdiv (e * 3) 16))
    as (b4 & ? & _ & -> & Hd4 & _ & Hf4 & _); [done|lia|lia|]. simpl.
  destruct (wr_ok h w b4 r c (fsd_newPixel old) Hd4 Hr Hc)
    as (b5 & -> & Hd5 & Hrd5 & Hf5 & _).
  exists b5, old. split_and!; try done.
  intros r' c' Hr' Hc' Hlt.
  rewrite Hf5, Hf4, Hf3, Hf2, Hf1 by lia. done.
Qed.

Lemma fsd_pixel_ok r c b :
  r ∈ range 0 h → c ∈ range 0 w → dims h w b →
  ∃ b', fsd_pixel w h r c b = Some b' ∧ dims h w b' ∧ same_before r c b b'.
Proof.
  rewrite !elem_of_range. intros Hr Hc Hd.
  destruct (decide (fsd_border w h r c)) as [Hb|Hb].
  - destruct (fsd_pixel_border r c b) as (b' & ? & ? & _ & Hfr); try done.
    exists b'. split_and!; try done.
    intros r' c' ? ? ?. apply Hfr; lia.
  - destruct (fsd_pixel_interior r c b) as (b' & ? & _ & ? & ? & _ & ?); eauto.
Qed.

(** Every pixel is visited, and what its visit stores is what [fsd_dither]
    returns there. *)
Lemma fsd_dither_visit g r c :
  dims h w g → 0 ≤ r < h → 0 ≤ c < w →
  ∃ b0 b1 d,
    fsd_before w h r c g = Some b0 ∧ dims h w b0 ∧
    fsd_pixel w h r c b0 = Some b1 ∧
    fsd_dither w h g = Some d ∧ dims h w d ∧
    rd d r c = rd b1 r c.
Proof.
  intros Hd Hr Hc.
  destruct (scan_visit (fsd_pixel w h) (dims h w) (range 0 h) (range 0 w)
              (λ c Hc, proj1 (proj1 (elem_of_range 0 w c) Hc))
              fsd_pixel_ok
              (range 0 r) r (range (r + 1) h) (range 0 c) c (range (c + 1) w) g)
    as (b0 & b1 & d & ? & ? & ? & _ & _ & ? & ? & Hfin); try done.
  - by apply range_split.
  - by apply range_split.
  - lia.
  - intros r'. rewrite elem_of_range. lia.
  - exists b0, b1, d. split_and!; try done.
    apply Hfin; [lia|]. intros c'. rewrite elem_of_range. lia.
Qed.
End fsd_pixel.

(** ** Vectors built element by element *)

Lemma mapM_lookup {A B} (f : A → option B) l k i x :
  mapM f l = Some k → l !! i = Some x → k !! i = f x.
Proof.
  intros Hk Hx. apply mapM_Some_1 in Hk.
  destruct (Forall2_lookup_l _ _ _ _ _ Hk Hx) as (y & -> & ->). done.
Qed.

Lemma mapM_total {A B} (f : A → option B) l :
  (∀ x, x ∈ l → is_Some (f x)) → ∃ k, mapM f l = Some k ∧ length k = length l.
Proof.
  intros Hf. destruct (mapM_is_Some_2 f l) as [k Hk].
  { apply Forall_forall. exact Hf. }
  exists k. split; [done|]. symmetry. by eapply length_mapM.
Qed.

Lemma range_length lo hi : lo ≤ hi → len (range lo hi) = hi - lo.
Proof. intros. unfold len, range. rewrite length_seqZ. lia. Qed.

Lemma range_lookup hi i : 0 ≤ i < hi → range 0 hi !! Z.to_nat i = Some i.
Proof.
  intros. unfold range. rewrite lookup_seqZ_lt by lia. f_equal. lia.
Qed.

Lemma range3_length w : 0 ≤ w → len (range3 (3 * w)) = w.
Proof.
  intros. unfold len, range3. rewrite length_fmap, length_seqZ.
  Z.div_mod_to_equations. lia.
Qed.

Lemma range3_lookup w k : 0 ≤ k < w → range3 (3 * w) !! Z.to_nat k = Some (3 * k).
Proof.
  intros. unfold range3. rewrite list_lookup_fmap, lookup_seqZ_lt.
  - simpl. f_equal. lia.
  - Z.div_mod_to_equations. lia.
Qed.

(** Rows made of [w] triples. *)
Lemma concat_triples (px : list (list Z)) i j :
  Forall (λ t, length t = 3%nat) px → (j < 3)%nat →
  concat px !! (3 * i + j)%nat = (px !! i) ≫= (.!! j).
Proof.
  intros Hpx Hj. revert i. induction Hpx as [|t px Ht _ IH]; intros i; [done|].
  simpl. destruct i as [|i].
  - rewrite lookup_app_l by lia. done.
  - rewrite lookup_app_r by lia. simpl. rewrite <- IH. f_equal. lia.
Qed.

Lemma length_concat_triples (px : list (list Z)) :
  Forall (λ t, length t = 3%nat) px → length (concat px) = (3 * length px)%nat.
Proof. induction 1 as [|t px Ht _ IH]; simpl; [done|]. rewrite length_app. lia. Qed.

(** ** getPixel inside the image *)

Lemma wf_dims img :
  wf img → dims (m_height img) (m_width img * m_pixelSize img) (m_bitmapData img).
Proof. intros Hwf. split; [apply Hwf | apply Hwf]. Qed.

Lemma wf_row_bound img : wf img → 1 ≤ m_width img * m_pixelSize img < 2 ^ 64.
Proof.
  intros Hwf. pose proof (wf_ps _ Hwf). pose proof (wf_w _ Hwf).
  pose proof (wf_h _ Hwf). pose proof (wf_size _ Hwf). nia.
Qed.

Lemma getPixel_ok img w h x y :
  dims h (w * m_pixelSize img) (m_bitmapData img) →
  1 ≤ m_pixelSize img → w * m_pixelSize img < 2 ^ 64 →
  0 ≤ x < w → 0 ≤ y < h →
  ∃ vec, getPixel img x y = Ret vec ∧ len vec = m_pixelSize img ∧
    ∀ n, 0 ≤ n < m_pixelSize img →
      vec !! Z.to_nat n = rd (m_bitmapData img) y (x * m_pixelSize img + n).
Proof.
  intros Hd Hps Hrow Hx Hy.
  set (ps := m_pixelSize img) in *. set (data := m_bitmapData img) in *.
  assert (Hidx : ∀ n, 0 ≤ n < ps → 0 ≤ x * ps + n < w * ps) by (intros; nia).
  assert (Hsz : ∀ n, 0 ≤ n < ps → size_t (size_t (x * ps) + n) = x * ps + n).
  { intros n Hn. specialize (Hidx n Hn).
    rewrite (size_t_small (x * ps)) by nia. apply size_t_small. lia. }
  unfold getPixel. fold data ps.
  rewrite decide_False by (destruct Hd as [-> _]; lia).
  destruct (dims_lookup h (w * ps) data 0 Hd) as (row0 & Hrow0 & Hlen0); [lia|].
  change (Z.to_nat 0) with 0%nat in Hrow0. rewrite Hrow0. simpl.
  rewrite decide_False by lia.
  rewrite Hlen0, Z.div_mul by lia. rewrite decide_False by lia.
  destruct (mapM_total (λ n, rd data y (size_t (size_t (x * ps) + n))) (range 0 ps))
    as (vec & Hvec & Hlen).
  { intros n Hn%elem_of_range. rewrite Hsz by done.
    destruct (rd_ok h (w * ps) data y (x * ps + n)) as [v ->]; auto. }
  rewrite Hvec. simpl. exists vec. split_and!; [done| |].
  - unfold len. rewrite Hlen. fold (len (range 0 ps)).
    rewrite range_length; lia.
  - intros n Hn. rewrite (mapM_lookup _ _ _ _ n Hvec (range_lookup ps n Hn)).
    by rewrite Hsz.
Qed.

(** ** getAverage *)

Lemma ofold_inv {S} (I : S → Prop) idx (body : Z → S → outcome S) :
  (∀ i s, i ∈ idx → I s → ∃ s', body i s = Ret s' ∧ I s') →
  ∀ s, I s → ∃ s', ofold idx body s = Ret s' ∧ I s'.
Proof.
  induction idx as [|i idx IH]; intros Hbody s Hs; simpl; [eauto|].
  destruct (Hbody i s) as (s1 & -> & Hs1); [left | done |]. simpl.
  apply IH; [|done]. intros j s' Hj. apply Hbody. by right.
Qed.

(** The box of the loops lies inside the image, whether or not the sum
    [p + boxSize] wraps around. *)
Lemma anchor_range dim p boxSize i :
  0 ≤ p < 2 ^ 64 → 0 ≤ boxSize ≤ dim → dim < 2 ^ 64 →
  i ∈ range (anchor dim p boxSize) (size_t (anchor dim p boxSize + boxSize)) →
  0 ≤ i < dim.
Proof.
  intros Hp Hbox Hdim. rewrite elem_of_range. unfold anchor.
  pose proof (size_t_range (p + boxSize)).
  destruct (decide (dim ≤ size_t (p + boxSize))).
  - rewrite (size_t_small (dim - boxSize)) by lia.
    replace (dim - boxSize + boxSize) with dim by lia.
    rewrite size_t_small by lia. lia.
  - lia.
Qed.

Lemma anchor_fits dim p boxSize :
  0 ≤ p → 0 ≤ boxSize ≤ dim → p + boxSize < 2 ^ 64 →
  0 ≤ anchor dim p boxSize ≤ p ∧ anchor dim p boxSize + boxSize ≤ dim ∧
  (p + boxSize ≤ dim → anchor dim p boxSize = p).
Proof.
  intros Hp Hbox Hsum. unfold anchor. rewrite (size_t_small (p + boxSize)) by lia.
  destruct (decide (dim ≤ p + boxSize)).
  - rewrite size_t_small by lia. lia.
  - lia.
Qed.

Lemma getAverage_throws img x y boxSize :
  m_width img < boxSize ∨ m_height img < boxSize →
  ∃ what, getAverage img x y boxSize = Throw (out_of_range what).
Proof.
  intros Hbig. unfold getAverage.
  destruct (decide (m_width img < boxSize)); [eauto|].
  rewrite decide_True by lia. eauto.
Qed.

Lemma getAverage_returns img x y boxSize :
  wf img → 0 ≤ x < 2 ^ 64 → 0 ≤ y < 2 ^ 64 →
  1 ≤ boxSize → boxSize ≤ m_width img → boxSize ≤ m_height img →
  ∃ vec, getAverage img x y boxSize = Ret vec ∧ len vec = m_pixelSize img.
Proof.
  intros Hwf Hx Hy Hbox Hbw Hbh.
  pose proof (wf_dims _ Hwf) as Hd. pose proof (wf_row_bound _ Hwf) as Hrow.
  pose proof (wf_ps _ Hwf) as Hps. pose proof (wf_size _ Hwf) as Hsize.
  pose proof (wf_w _ Hwf). pose proof (wf_h _ Hwf).
  assert (m_width img < 2 ^ 64 ∧ m_height img < 2 ^ 64) as [Hw64 Hh64] by nia.
  unfold getAverage. rewrite !decide_False by lia. cbv zeta.
  set (ax := anchor (m_width img) x boxSize).
  set (ay := anchor (m_height img) y boxSize).
  match goal with
  | |- context [obind (ofold ?idx ?body ?s) _] =>
      destruct (ofold_inv (λ _, True) idx body) with s as ([[r g] b] & -> & _)
  end; [|done|].
  - intros row acc Hrow_in _. apply ofold_inv; [|done].
    intros col [[r g] b] Hcol_in _.
    apply anchor_range in Hrow_in; [|lia..].
    apply anchor_range in Hcol_in; [|lia..].
    destruct (getPixel_ok img (m_width img) (m_height img) col row)
      as (vec & -> & Hlen & _); [done|lia|lia|done|done|]. simpl.
    destruct (lookup_lt_is_Some_2 vec 0) as [v0 ->]; [unfold len in Hlen; lia|].
    simpl. destruct (decide (len vec = 3)) as [H3|]; [|eauto].
    destruct (lookup_lt_is_Some_2 vec 1) as [v1 ->]; [unfold len in H3; lia|].
    destruct (lookup_lt_is_Some_2 vec 2) as [v2 ->]; [unfold len in H3; lia|].
    simpl. eauto.
  - simpl. rewrite size_t_small by nia. rewrite decide_False by nia.
    destruct (decide (m_pixelSize img = 3)) as [->|]; eexists; split; try done.
    simpl. unfold len. simpl. lia.
Qed.

(** ** The passes around the monochrome ditherer *)

Lemma toGray_ok img :
  wf img → m_pixelSize img = 3 →
  ∃ g, toGray img = Some g ∧ dims (m_height img) (m_width img) g ∧
    ∀ r c, 0 ≤ r < m_height img → 0 ≤ c < m_width img →
      ∃ x y z, rd (m_bitmapData img) r (3 * c) = Some x ∧
               rd (m_bitmapData img) r (3 * c + 1) = Some y ∧
               rd (m_bitmapData img) r (3 * c + 2) = Some z ∧
               rd g r c = Some (uint8_t (cdiv (x + y + z) 3)).
Proof.
  intros Hwf Hps. pose proof (wf_dims _ Hwf) as Hd.
  pose proof (wf_row_bound _ Hwf) as Hrow. pose proof (wf_w _ Hwf) as Hw.
  pose proof (wf_h _ Hwf) as Hh. rewrite Hps in Hd, Hrow.
  set (w := m_width img) in *. set (h := m_height img) in *.
  set (data := m_bitmapData img) in *.
  unfold toGray. fold data w h. rewrite Hps.
  rewrite (size_t_small (w * 3)) by lia. replace (w * 3) with (3 * w) in * by lia.
  set (sample row col :=
         a ← rd data row col;
         b ← rd data row (size_t (col + 1));
         c ← rd data row (size_t (col + 2));
         Some (uint8_t (cdiv (a + b + c) 3))).
  assert (Hsample : ∀ r c, 0 ≤ r < h → 0 ≤ c < w →
    ∃ x y z, rd data r (3 * c) = Some x ∧ rd data r (3 * c + 1) = Some y ∧
             rd data r (3 * c + 2) = Some z ∧
             sample r (3 * c) = Some (uint8_t (cdiv (x + y + z) 3))).
  { intros r c Hr Hc. unfold sample. rewrite !size_t_small by lia.
    destruct (rd_ok h (3 * w) data r (3 * c)) as [x Hx]; [done|lia|lia|].
    destruct (rd_ok h (3 * w) data r (3 * c + 1)) as [y Hy]; [done|lia|lia|].
    destruct (rd_ok h (3 * w) data r (3 * c + 2)) as [z Hz]; [done|lia|lia|].
    exists x, y, z. rewrite Hx, Hy, Hz. done. }
  assert (Hline : ∀ r, 0 ≤ r < h →
    ∃ line, mapM (sample r) (range3 (3 * w)) = Some line ∧ len line = w ∧
      ∀ c, 0 ≤ c < w → line !! Z.to_nat c = sample r (3 * c)).
  { intros r Hr. destruct (mapM_total (sample r) (range3 (3 * w))) as (line & Hl & Hlen).
    - intros col (c & -> & ? & ?)%elem_of_range3.
      destruct (Hsample r c) as (x & y & z & _ & _ & _ & ->); [done|lia|done].
    - exists line. split_and!; [done| |].
      + unfold len. rewrite Hlen. fold (len (range3 (3 * w))).
        apply range3_length. lia.
      + intros c Hc. apply (mapM_lookup _ _ _ _ _ Hl). by apply range3_lookup. }
  destruct (mapM_total (λ row, mapM (sample row) (range3 (3 * w))) (range 0 h))
    as (g & Hg & Hlen).
  { intros r Hr%elem_of_range. destruct (Hline r) as (line & -> & _); done. }
  exists g. split; [done|].
  assert (Hrow_g : ∀ r, 0 ≤ r < h → g !! Z.to_nat r = mapM (sample r) (range3 (3 * w))).
  { intros r Hr. apply (mapM_lookup _ _ _ _ _ Hg). by apply range_lookup. }
  split; [split|].
  - unfold len. rewrite Hlen. fold (len (range 0 h)). rewrite range_length; lia.
  - apply Forall_lookup_2. intros i line Hi.
    assert (Hi' : (i < length g)%nat) by (by eapply lookup_lt_Some).
    rewrite Hlen in Hi'. fold (len (range 0 h)) in Hi'.
    assert (len (range 0 h) = h) as Hlr by (rewrite range_length; lia).
    unfold len in Hlr.
    destruct (Hline (Z.of_nat i)) as (line' & Hl' & Hlen' & _); [lia|].
    rewrite <- Hrow_g, Nat2Z.id, Hi in Hl' by lia. congruence.
  - intros r c Hr Hc. destruct (Hsample r c Hr Hc) as (x & y & z & Hx & Hy & Hz & Hs).
    exists x, y, z. split_and!; try done.
    destruct (Hline r Hr) as (line & Hl & _ & Hlk).
    unfold rd. rewrite Hrow_g, Hl by done. simpl. by rewrite Hlk.
Qed.

Lemma toRGB_ok w h d :
  1 ≤ w → 1 ≤ h → dims h w d →
  ∃ out, toRGB w h d = Some out ∧ dims h (3 * w) out ∧
    ∀ r c j, 0 ≤ r < h → 0 ≤ c < w → 0 ≤ j < 3 → rd out r (3 * c + j) = rd d r c.
Proof.
  intros Hw Hh Hd. unfold toRGB.
  set (triple row col := v ← rd d row col; Some [v; v; v]).
  set (line row := px ← mapM (triple row) (range 0 w); Some (concat px)).
  assert (Hline : ∀ r, 0 ≤ r < h →
    ∃ l, line r = Some l ∧ len l = 3 * w ∧
      ∀ c j, 0 ≤ c < w → 0 ≤ j < 3 → l !! Z.to_nat (3 * c + j) = rd d r c).
  { intros r Hr. destruct (mapM_total (triple r) (range 0 w)) as (px & Hpx & Hlen).
    { intros c Hc%elem_of_range. unfold triple.
      destruct (rd_ok h w d r c) as [v ->]; done. }
    fold (len (range 0 w)) in Hlen.
    assert (Hlw : len px = w).
    { unfold len at 1. rewrite Hlen. fold (len (range 0 w)). rewrite range_length; lia. }
    assert (Hcell : ∀ c, 0 ≤ c < w → ∃ v, rd d r c = Some v ∧ px !! Z.to_nat c = Some [v; v; v]).
    { intros c Hc. destruct (rd_ok h w d r c) as [v Hv]; [done..|].
      exists v. split; [done|].
      rewrite (mapM_lookup _ _ _ _ _ Hpx (range_lookup w c Hc)).
      unfold triple. by rewrite Hv. }
    assert (H3 : Forall (λ t, length t = 3%nat) px).
    { apply Forall_lookup_2. intros i t Hi.
      pose proof (lookup_lt_Some _ _ _ Hi). unfold len in Hlw.
      destruct (Hcell (Z.of_nat i)) as (v & _ & Hv); [lia|].
      rewrite Nat2Z.id in Hv. by replace t with [v; v; v] by congruence. }
    exists (concat px). unfold line. rewrite Hpx. simpl. split_and!; [done| |].
    - unfold len in *. rewrite length_concat_triples by done. lia.
    - intros c j Hc Hj. destruct (Hcell c Hc) as (v & -> & Hv).
      replace (Z.to_nat (3 * c + j)) with (3 * Z.to_nat c + Z.to_nat j)%nat by lia.
      rewrite concat_triples, Hv by (done || lia). simpl.
      assert (j = 0 ∨ j = 1 ∨ j = 2) as [-> | [-> | ->]] by lia; done. }
  destruct (mapM_total line (range 0 h)) as (out & Hout & Hlen).
  { intros r Hr%elem_of_range. destruct (Hline r) as (l & -> & _); done. }
  exists out. split; [done|].
  assert (Hrow : ∀ r, 0 ≤ r < h → out !! Z.to_nat r = line r).
  { intros r Hr. apply (mapM_lookup _ _ _ _ _ Hout). by apply range_lookup. }
  assert (Hlh : len out = h).
  { unfold len. rewrite Hlen. fold (len (range 0 h)). rewrite range_length; lia. }
  split; [split|]; [done| |].
  - apply Forall_lookup_2. intros i l Hi.
    pose proof (lookup_lt_Some _ _ _ Hi). unfold len in Hlh.
    destruct (Hline (Z.of_nat i)) as (l' & Hl' & Hlen' & _); [lia|].
    rewrite <- Hrow, Nat2Z.id, Hi in Hl' by lia. congruence.
  - intros r c j Hr Hc Hj. destruct (Hline r Hr) as (l & Hl & _ & Hlk).
    unfold rd at 1. rewrite Hrow, Hl by done. simpl. by apply Hlk.
Qed.

(** [fsd] on a well-formed RGB image: the three passes run, the object keeps
    its dimensions, and every pixel of the result is the dithered sample
    three times. *)
Lemma fsd_run img :
  wf img → m_pixelSize img = 3 →
  ∃ g d out,
    toGray img = Some g ∧ dims (m_height img) (m_width img) g ∧
    fsd_dither (m_width img) (m_height img) g = Some d ∧
    fsd img = Returns out ∧
    m_width out = m_width img ∧ m_height out = m_height img ∧ m_pixelSize out = 3 ∧
    ∀ x y, 0 ≤ x < m_width img → 0 ≤ y < m_height img →
      ∃ v, rd d y x = Some v ∧ getPixel out x y = Ret [v; v; v].
Proof.
  intros Hwf Hps. pose proof (wf_row_bound _ Hwf) as Hrow. rewrite Hps in Hrow.
  pose proof (wf_w _ Hwf) as Hw. pose proof (wf_h _ Hwf) as Hh.
  pose proof (wf_size _ Hwf) as Hsize. rewrite Hps in Hsize.
  set (w := m_width img) in *. set (h := m_height img) in *.
  assert (Hw64 : 1 ≤ w < 2 ^ 64) by lia. assert (Hh64 : 1 ≤ h < 2 ^ 64) by nia.
  destruct (toGray_ok img Hwf Hps) as (g & Hg & Hdg & _). fold w h in Hdg.
  destruct (fsd_dither_visit w h Hw64 Hh64 g 0 0 Hdg) as (_ & _ & d & _ & _ & _ & Hd & Hdd & _);
    [lia..|].
  destruct (toRGB_ok w h d) as (data & Hdata & Hdims & Hpx); [lia..|done|].
  destruct (dims_lookup h (3 * w) data 0 Hdims) as (row0 & Hrow0 & Hlen0); [lia|].
  change (Z.to_nat 0) with 0%nat in Hrow0.
  exists g, d, (mkImage data w h 3 (m_colourSpace img)).
  split_and!; try done.
  - unfold fsd. fold w h. rewrite Hg. simpl. rewrite Hd. simpl. rewrite Hdata.
    unfold rebuild. rewrite Hrow0, Hlen0. destruct Hdims as [-> _].
    do 3 f_equal. rewrite Z.mul_comm. apply Z.div_mul. done.
  - intros x y Hx Hy. destruct (rd_ok h w d y x) as [v Hv]; [done..|].
    exists v. split; [done|].
    destruct (getPixel_ok (mkImage data w h 3 (m_colourSpace img)) w h x y)
      as (vec & -> & Hlen & Hvec); simpl; [by rewrite Z.mul_comm|lia..|].
    simpl in Hlen, Hvec. f_equal.
    pose proof (Hvec 0 ltac:(lia)) as H0. pose proof (Hvec 1 ltac:(lia)) as H1.
    pose proof (Hvec 2 ltac:(lia)) as H2.
    rewrite Z.mul_comm, Hpx, Hv in H0, H1, H2 by lia.
    destruct vec as [|a [|b [|c [|]]]]; unfold len in Hlen; simpl in Hlen; try lia.
    simpl in H0, H1, H2. congruence.
Qed.

(** ** The palette ditherer, pixel by pixel *)

Lemma palet_dims : dims 7 3 palet.
Proof. split; [done|]. repeat constructor. Qed.

Lemma palet_bytes : bytes palet.
Proof. unfold bytes, palet, is_byte. repeat constructor; lia. Qed.

Lemma nearest_step_ok r g b i st :
  0 ≤ i < 7 → ∃ st', nearest_step r g b i st = Some st' ∧ (st' = st ∨ snd st' = i).
Proof.
  intros Hi. unfold nearest_step, auxDistance.
  destruct (rd_ok 7 3 palet i 0 palet_dims) as [p0 ->]; [lia..|].
  destruct (rd_ok 7 3 palet i 1 palet_dims) as [p1 ->]; [lia..|].
  destruct (rd_ok 7 3 palet i 2 palet_dims) as [p2 ->]; [lia..|].
  cbn [mbind option_bind].
  destruct (decide (i = 0)); [eauto|].
  match goal with |- context [F32.gt ?a ?b] => destruct (F32.gt a b) end; eauto.
Qed.

(** Whatever the pixel, the search ends on an index of the palette. *)
Lemma nearestColor_range r g b : ∃ k, nearestColor r g b = Some k ∧ 0 ≤ k < 7.
Proof.
  unfold nearestColor.
  match goal with
  | |- context [for_each ?idx ?body ?s] =>
      destruct (for_each_inv (λ st, 0 ≤ snd st < 7) (λ _ _, True) idx body) with s
        as ([short k] & -> & Hk & _)
  end; [done|done| |simpl; lia|].
  - intros i st Hi%elem_of_range Hst.
    destruct (nearest_step_ok r g b i st) as (st' & -> & Hcase); [lia|].
    exists st'. split_and!; try done; destruct Hcase as [-> | ->]; lia.
  - exists k. simpl in *. done.
Qed.

Section fsdColor_pixel.
Variables w h : Z.
Hypothesis Hw : 1 ≤ w ∧ 3 * w < 2 ^ 64.
Hypothesis Hh : 1 ≤ h < 2 ^ 64.

Lemma diffuse_ok b r eR eG eB k c0 c1 c2 :
  dims h (3 * w) b → 0 ≤ r < h →
  0 ≤ c0 < 3 * w → 0 ≤ c1 < 3 * w → 0 ≤ c2 < 3 * w →
  ∃ b', diffuse b r eR eG eB k c0 c1 c2 = Some b' ∧ dims h (3 * w) b' ∧
    (∀ r' c', 0 ≤ r' → 0 ≤ c' → ¬ (r' = r ∧ (c' = c0 ∨ c' = c1 ∨ c' = c2)) →
       rd b' r' c' = rd b r' c').
Proof.
  intros Hd Hr H0 H1 H2. unfold diffuse.
  destruct (add_to_ok h (3 * w) b r c0 (cdiv (eR * k) 16))
    as (b1 & ? & _ & -> & Hd1 & _ & Hf1 & _); [done..|]. simpl.
  destruct (add_to_ok h (3 * w) b1 r c1 (cdiv (eG * k) 16))
    as (b2 & ? & _ & -> & Hd2 & _ & Hf2 & _); [done..|]. simpl.
  destruct (add_to_ok h (3 * w) b2 r c2 (cdiv (eB * k) 16))
    as (b3 & ? & _ & -> & Hd3 & _ & Hf3 & _); [done..|].
  exists b3. split_and!; try done.
  intros r' c' ? ? ?. rewrite Hf3, Hf2, Hf1 by lia. done.
Qed.

(** Storing a pixel: three writes at the byte columns [c], [c+1], [c+2]. *)
Lemma store_ok b r c v0 v1 v2 :
  dims h (3 * w) b → 0 ≤ r < h → 0 ≤ c → c + 2 < 3 * w →
  ∃ b', (b1 ← wr b r c v0; b2 ← wr b1 r (c + 1) v1; wr b2 r (c + 2) v2) = Some b' ∧
    dims h (3 * w) b' ∧
    rd b' r c = Some v0 ∧ rd b' r (c + 1) = Some v1 ∧ rd b' r (c + 2) = Some v2 ∧
    (∀ r' c', 0 ≤ r' → 0 ≤ c' → ¬ (r' = r ∧ c ≤ c' ≤ c + 2) →
       rd b' r' c' = rd b r' c').
Proof.
  intros Hd Hr Hc0 Hc2.
  destruct (wr_ok h (3 * w) b r c v0) as (b1 & -> & Hd1 & Hr1 & Hf1 & _); [done|lia..|].
  simpl.
  destruct (wr_ok h (3 * w) b1 r (c + 1) v1) as (b2 & -> & Hd2 & Hr2 & Hf2 & _);
    [done|lia..|]. simpl.
  destruct (wr_ok h (3 * w) b2 r (c + 2) v2) as (b3 & -> & Hd3 & Hr3 & Hf3 & _);
    [done|lia..|].
  exists b3. split_and!; try done.
  - rewrite Hf3, Hf2 by lia. done.
  - rewrite Hf3 by lia. done.
  - intros r' c' ? ? ?. rewrite Hf3, Hf2, Hf1 by lia. done.
Qed.

Lemma fsdColor_border_iff r c :
  0 ≤ r < h → 0 ≤ c < 3 * w →
  (c = 0 ∨ size_t (size_t (w * 3) - 3) ≤ c ∨ r = size_t (h - 1)) ↔ fsdColor_border w h r c.
Proof.
  intros Hr Hc. unfold fsdColor_border.
  rewrite (size_t_small (w * 3)), (size_t_small (w * 3 - 3)), (size_t_small (h - 1)) by lia.
  lia.
Qed.

Lemma fsdColor_pixel_border r c b :
  dims h (3 * w) b → 0 ≤ r < h → 0 ≤ c → c + 2 < 3 * w → fsdColor_border w h r c →
  ∃ b', fsdColor_pixel w h 3 r c b = Some b' ∧ dims h (3 * w) b' ∧
    rd b' r c = Some 0x38 ∧ rd b' r (c + 1) = Some 0x48 ∧ rd b' r (c + 2) = Some 0x8d ∧
    ∀ r' c', 0 ≤ r' → 0 ≤ c' → ¬ (r' = r ∧ c ≤ c' ≤ c + 2) → rd b' r' c' = rd b r' c'.
Proof.
  intros Hd Hr Hc0 Hc2 Hborder. unfold fsdColor_pixel.
  rewrite decide_True by (apply fsdColor_border_iff; [done|lia|done]).
  change (rd palet 0 0) with (Some 0x38). change (rd palet 0 1) with (Some 0x48).
  change (rd palet 0 2) with (Some 0x8d). cbn [mbind option_bind].
  rewrite !size_t_small by lia.
  by apply store_ok.
Qed.

Lemma fsdColor_pixel_interior r k b :
  dims h (3 * w) b → 0 ≤ r < h → 0 ≤ k < w → ¬ fsdColor_border w h r (3 * k) →
  ∃ b' pr pg pb id p0 p1 p2,
    rd b r (3 * k) = Some pr ∧ rd b r (3 * k + 1) = Some pg ∧
    rd b r (3 * k + 2) = Some pb ∧
    nearestColor pr pg pb = Some id ∧ 0 ≤ id < 7 ∧
    rd palet id 0 = Some p0 ∧ rd palet id 1 = Some p1 ∧ rd palet id 2 = Some p2 ∧
    fsdColor_pixel w h 3 r (3 * k) b = Some b' ∧ dims h (3 * w) b' ∧
    rd b' r (3 * k) = Some p0 ∧ rd b' r (3 * k + 1) = Some p1 ∧
    rd b' r (3 * k + 2) = Some p2 ∧
    same_before r (3 * k) b b'.
Proof.
  intros Hd Hr Hk Hint. unfold fsdColor_pixel.
  rewrite decide_False by (rewrite fsdColor_border_iff; [done|done|lia]).
  unfold fsdColor_border in Hint. set (c := 3 * k) in *.
  rewrite !Z.add_0_r, !Z.sub_0_r.
  rewrite !size_t_small by (rewrite ?size_t_small by lia; lia).
  destruct (rd_ok h (3 * w) b r c Hd) as [pr Hpr]; [lia..|].
  destruct (rd_ok h (3 * w) b r (c + 1) Hd) as [pg Hpg]; [lia..|].
  destruct (rd_ok h (3 * w) b r (c + 2) Hd) as [pb Hpb]; [lia..|].
  rewrite Hpr, Hpg, Hpb. cbn [mbind option_bind].
  destruct (nearestColor_range pr pg pb) as (id & Hid & Hid7). rewrite Hid.
  cbn [mbind option_bind].
  destruct (rd_ok 7 3 palet id 0 palet_dims) as [p0 Hp0]; [lia..|].
  destruct (rd_ok 7 3 palet id 1 palet_dims) as [p1 Hp1]; [lia..|].
  destruct (rd_ok 7 3 palet id 2 palet_dims) as [p2 Hp2]; [lia..|].
  rewrite Hp0, Hp1, Hp2. cbn [mbind option_bind].
  rewrite !int16_t_byte by (eapply rd_byte; [apply palet_bytes|eassumption]).
  set (eR := color_error pr p0). set (eG := color_error pg p1).
  set (eB := color_error pb p2).
  destruct (diffuse_ok b r eR eG eB 7 (c + 3) (c + 1 + 3) (c + 2 + 3))
    as (b1 & -> & Hd1 & Hf1); [done|lia..|]. cbn [mbind option_bind].
  destruct (diffuse_ok b1 (r + 1) eR eG eB 1 (c + 3) (c + 1 + 3) (c + 2 + 3))
    as (b2 & -> & Hd2 & Hf2); [done|lia..|]. cbn [mbind option_bind].
  destruct (diffuse_ok b2 (r + 1) eR eG eB 5 c (c + 1) (c + 2))
    as (b3 & -> & Hd3 & Hf3); [done|lia..|]. cbn [mbind option_bind].
  destruct (diffuse_ok b3 (r + 1) eR eG eB 3 (c - 3) (c + 1 - 3) (c + 2 - 3))
    as (b4 & -> & Hd4 & Hf4); [done|lia..|]. cbn [mbind option_bind].
  destruct (store_ok b4 r c p0 p1 p2) as (b5 & -> & Hd5 & ? & ? & ? & Hf5);
    [done|lia..|].
  exists b5, pr, pg, pb, id, p0, p1, p2. split_and!; try done; try lia.
  intros r' c' ? ? ?. rewrite Hf5, Hf4, Hf3, Hf2, Hf1 by lia. done.
Qed.

Lemma fsdColor_pixel_ok r c b :
  r ∈ range 0 h → c ∈ range3 (3 * w) → dims h (3 * w) b →
  ∃ b', fsdColor_pixel w h 3 r c b = Some b' ∧ dims h (3 * w) b' ∧ same_before r c b b'.
Proof.
  rewrite elem_of_range, elem_of_range3. intros Hr (k & -> & Hk0 & Hk) Hd.
  destruct (decide (fsdColor_border w h r (3 * k))) as [Hb|Hb].
  - destruct (fsdColor_pixel_border r (3 * k) b) as (b' & ? & ? & _ & _ & _ & Hfr);
      [done|lia..|done|].
    exists b'. split_and!; try done. intros r' c' ? ? ?. apply Hfr; lia.
  - destruct (fsdColor_pixel_interior r k b)
      as (b' & ? & ? & ? & ? & ? & ? & ? & _ & _ & _ & _ & _ & _ & _ & _ & ? & ? & _ & _ & _ & ?);
      [done|lia..|done|].
    eauto.
Qed.

(** Whether border or interior, a visit leaves a palette entry behind. *)
Lemma fsdColor_pixel_palette r k b b' :
  dims h (3 * w) b → 0 ≤ r < h → 0 ≤ k < w →
  fsdColor_pixel w h 3 r (3 * k) b = Some b' →
  ∃ id p0 p1 p2, 0 ≤ id < 7 ∧
    (fsdColor_border w h r (3 * k) → id = 0) ∧
    rd palet id 0 = Some p0 ∧ rd palet id 1 = Some p1 ∧ rd palet id 2 = Some p2 ∧
    rd b' r (3 * k) = Some p0 ∧ rd b' r (3 * k + 1) = Some p1 ∧
    rd b' r (3 * k + 2) = Some p2.
Proof.
  intros Hd Hr Hk Hstep.
  destruct (decide (fsdColor_border w h r (3 * k))) as [Hb|Hb].
  - destruct (fsdColor_pixel_border r (3 * k) b) as (b1 & Hb1 & _ & ? & ? & ? & _);
      [done|lia..|done|].
    assert (b1 = b') as -> by congruence.
    exists 0, 0x38, 0x48, 0x8d. split_and!; try done.
  - destruct (fsdColor_pixel_interior r k b)
      as (b1 & ? & ? & ? & id & p0 & p1 & p2 & _ & _ & _ & _ & ? & ? & ? & ? & Hb1 & _ & ? & ? & ? & _);
      [done|lia..|done|].
    assert (b1 = b') as -> by congruence.
    exists id, p0, p1, p2. split_and!; try done; lia.
Qed.

(** Every pixel is visited, and the three bytes its visit stores are the
    ones [fsdColor_dither] returns there. *)
Lemma fsdColor_dither_visit b r k :
  dims h (3 * w) b → 0 ≤ r < h → 0 ≤ k < w →
  ∃ b0 b1 d,
    dims h (3 * w) b0 ∧ fsdColor_pixel w h 3 r (3 * k) b0 = Some b1 ∧
    fsdColor_dither w h 3 b = Some d ∧ dims h (3 * w) d ∧
    ∀ j, 0 ≤ j < 3 → rd d r (3 * k + j) = rd b1 r (3 * k + j).
Proof.
  intros Hd Hr Hk.
  destruct (scan_visit (fsdColor_pixel w h 3) (dims h (3 * w)) (range 0 h) (range3 (3 * w))
              (λ c Hc, ltac:(apply elem_of_range3 in Hc as (? & -> & ? & _); lia))
              fsdColor_pixel_ok
              (range 0 r) r (range (r + 1) h)
              ((λ k, 3 * k) <$> range 0 k) (3 * k)
              ((λ k, 3 * k) <$> range (k + 1) ((3 * w + 2) / 3)) b)
    as (b0 & b1 & d & _ & ? & ? & _ & _ & Hscan & ? & Hfin); try done.
  - by apply range_split.
  - apply range3_split; lia.
  - lia.
  - intros r'. rewrite elem_of_range. lia.
  - exists b0, b1, d. split_and!; try done.
    + unfold fsdColor_dither. rewrite size_t_small by lia.
      replace (w * 3) with (3 * w) by lia. exact Hscan.
    + intros j Hj. apply Hfin; [lia|].
      intros c' (k' & -> & Hk')%list_elem_of_fmap. apply elem_of_range in Hk'. lia.
Qed.
End fsdColor_pixel.

(** ** The palette ditherer as a whole *)

Lemma getPixel_rgb data w h cs x y v0 v1 v2 :
  dims h (3 * w) data → 3 * w < 2 ^ 64 → 0 ≤ x < w → 0 ≤ y < h →
  rd data y (3 * x) = Some v0 → rd data y (3 * x + 1) = Some v1 →
  rd data y (3 * x + 2) = Some v2 →
  getPixel (mkImage data w h 3 cs) x y = Ret [v0; v1; v2].
Proof.
  intros Hd Hw Hx Hy H0 H1 H2.
  destruct (getPixel_ok (mkImage data w h 3 cs) w h x y)
    as (vec & -> & Hlen & Hvec); simpl; [by rewrite Z.mul_comm|lia..|].
  simpl in Hlen, Hvec. f_equal.
  pose proof (Hvec 0 ltac:(lia)) as E0. pose proof (Hvec 1 ltac:(lia)) as E1.
  pose proof (Hvec 2 ltac:(lia)) as E2.
  rewrite Z.mul_comm in E0, E1, E2. rewrite Z.add_0_r, H0 in E0.
  rewrite H1 in E1. rewrite H2 in E2.
  destruct vec as [|a [|b [|c [|]]]]; unfold len in Hlen; simpl in Hlen; try lia.
  simpl in E0, E1, E2. congruence.
Qed.

Lemma palet_row id p0 p1 p2 :
  0 ≤ id → rd palet id 0 = Some p0 → rd palet id 1 = Some p1 → rd palet id 2 = Some p2 →
  palet !! Z.to_nat id = Some [p0; p1; p2].
Proof.
  unfold rd. intros Hid H0 H1 H2.
  destruct (palet !! Z.to_nat id) as [row|] eqn:Hrow; [|done]. simpl in *.
  pose proof (dims_row _ _ _ _ _ palet_dims Hrow) as Hlen.
  destruct row as [|a [|b [|c [|]]]]; unfold len in Hlen; simpl in Hlen; try lia.
  simpl in *. congruence.
Qed.

Lemma fsdColor_run img :
  wf img → m_pixelSize img = 3 →
  ∃ d, fsdColor_dither (m_width img) (m_height img) 3 (m_bitmapData img) = Some d ∧
    dims (m_height img) (3 * m_width img) d ∧
    fsdColor img = Returns (mkImage d (m_width img) (m_height img) 3 (m_colourSpace img)).
Proof.
  intros Hwf Hps. pose proof (wf_row_bound _ Hwf) as Hrow. rewrite Hps in Hrow.
  pose proof (wf_w _ Hwf) as Hw. pose proof (wf_h _ Hwf) as Hh.
  pose proof (wf_size _ Hwf) as Hsize. rewrite Hps in Hsize.
  pose proof (wf_dims _ Hwf) as Hd. rewrite Hps, Z.mul_comm in Hd.
  destruct (fsdColor_dither_visit (m_width img) (m_height img)
              ltac:(lia) ltac:(nia) (m_bitmapData img) 0 0 Hd)
    as (_ & _ & d & _ & _ & Hrun & Hdd & _); [lia..|].
  exists d. split_and!; try done.
  unfold fsdColor. rewrite Hps, Hrun. unfold rebuild.
  destruct (dims_lookup _ _ d 0 Hdd) as (row0 & Hrow0 & Hlen0); [lia|].
  change (Z.to_nat 0) with 0%nat in Hrow0. rewrite Hrow0, Hlen0.
  destruct Hdd as [-> _]. do 3 f_equal. rewrite Z.mul_comm. apply Z.div_mul. done.
Qed.

(** What [fsd] returns at a pixel is what the visit of that pixel stored. *)
Lemma fsd_pixel_final img x y :
  wf img → m_pixelSize img = 3 →
  0 ≤ x < m_width img → 0 ≤ y < m_height img →
  ∃ g b0 b1 v out,
    toGray img = Some g ∧ dims (m_height img) (m_width img) g ∧
    fsd_before (m_width img) (m_height img) y x g = Some b0 ∧
    dims (m_height img) (m_width img) b0 ∧
    fsd_pixel (m_width img) (m_height img) y x b0 = Some b1 ∧
    rd b1 y x = Some v ∧
    fsd img = Returns out ∧ getPixel out x y = Ret [v; v; v] ∧
    m_width out = m_width img ∧ m_height out = m_height img.
Proof.
  intros Hwf Hps Hx Hy.
  pose proof (wf_row_bound _ Hwf) as Hrow. rewrite Hps in Hrow.
  pose proof (wf_w _ Hwf) as Hw. pose proof (wf_h _ Hwf) as Hh.
  pose proof (wf_size _ Hwf) as Hsize. rewrite Hps in Hsize.
  set (w := m_width img) in *. set (h := m_height img) in *.
  assert (Hw64 : 1 ≤ w < 2 ^ 64) by lia. assert (Hh64 : 1 ≤ h < 2 ^ 64) by nia.
  destruct (fsd_run img Hwf Hps) as (g & d & out & Hg & Hdg & Hd & Hout & ? & ? & _ & Hpx).
  fold w h in Hdg, Hd, Hpx.
  destruct (fsd_dither_visit w h Hw64 Hh64 g y x Hdg Hy Hx)
    as (b0 & b1 & d' & Hbefore & Hd0 & Hstep & Hd' & _ & Hfin).
  assert (d' = d) as -> by congruence.
  destruct (Hpx x y Hx Hy) as (v & Hv & Hget).
  exists g, b0, b1, v, out. split_and!; try done. by rewrite <- Hfin.
Qed.

(** Well-formedness of a concrete image is settled by evaluation. *)
Ltac wf_by_computation :=
  split;
  [ first [left; reflexivity | right; reflexivity]
  | by vm_compute
  | by vm_compute
  | reflexivity
  | repeat constructor
  | unfold is_byte; repeat constructor; lia
  | by vm_compute ].

(** [fsd] and [fsdColor] take three bytes per pixel whatever [m_pixelSize]
    says.  On a one-channel image the grey bitmap of [fsd] is a third as wide
    as the loops that follow assume, and they leave its rows; [fsdColor]
    reads the bytes as if they were RGB.  The properties of both are about
    3-channel images. *)
Example fsd_one_channel :
  wf (uniform 3 1 [7]) ∧ fsd (uniform 3 1 [7]) = Undefined ∧
  fsdColor (uniform 3 1 [7]) = Returns (mkImage [[0x38; 0x48; 0x8d]] 1 1 3 0).
Proof. split; [wf_by_computation | split; vm_compute; reflexivity]. Qed.

(** * The claims *)

(** C10. After [fsdColor] on a well-formed 3-channel image, the object has
    3 channels and its old width and height, and every pixel of it is one of
    the seven palette triples. *)
Theorem fsdColor_palette_only img :
  wf img → m_pixelSize img = 3 →
  ∃ out, fsdColor img = Returns out ∧
    m_pixelSize out = 3 ∧ m_width out = m_width img ∧ m_height out = m_height img ∧
    ∀ x y, 0 ≤ x < m_width img → 0 ≤ y < m_height img →
      ∃ p, p ∈ palet ∧ getPixel out x y = Ret p.
Proof.
  intros Hwf Hps. pose proof (wf_row_bound _ Hwf) as Hrow. rewrite Hps in Hrow.
  pose proof (wf_w _ Hwf) as Hw. pose proof (wf_h _ Hwf) as Hh.
  pose proof (wf_size _ Hwf) as Hsize. rewrite Hps in Hsize.
  pose proof (wf_dims _ Hwf) as Hd. rewrite Hps, Z.mul_comm in Hd.
  destruct (fsdColor_run img Hwf Hps) as (d & Hrun & Hdd & Hout).
  eexists. split; [exact Hout|]. split_and!; try done.
  intros x y Hx Hy.
  destruct (fsdColor_dither_visit (m_width img) (m_height img)
              ltac:(lia) ltac:(nia) (m_bitmapData img) y x Hd Hy Hx)
    as (b0 & b1 & d' & Hd0 & Hstep & Hrun' & _ & Hfin).
  assert (d' = d) as -> by congruence.
  destruct (fsdColor_pixel_palette (m_width img) (m_height img)
              ltac:(lia) ltac:(nia) y x b0 b1 Hd0 Hy Hx Hstep)
    as (id & p0 & p1 & p2 & Hid & _ & Hp0 & Hp1 & Hp2 & H0 & H1 & H2).
  exists [p0; p1; p2]. split.
  - apply list_elem_of_lookup. exists (Z.to_nat id). apply palet_row; [lia|done..].
  - apply getPixel_rgb; try done; try lia.
    + rewrite <- (Z.add_0_r (3 * x)), Hfin, Z.add_0_r by lia. done.
    + rewrite Hfin by lia. done.
    + rewrite Hfin by lia. done.
Qed.

Lemma fsdColor_palette_only_witness :
  ∃ out, fsdColor (uniform 3 2 [10; 200; 30]) = Returns out ∧
    m_pixelSize out = 3 ∧ m_width out = 3 ∧ m_height out = 2 ∧
    ∀ x y, 0 ≤ x < 3 → 0 ≤ y < 2 → ∃ p, p ∈ palet ∧ getPixel out x y = Ret p.
Proof.
  apply (fsdColor_palette_only (uniform 3 2 [10; 200; 30])); [|reflexivity].
  wf_by_computation.
Defined.




(** C4. In [fsd], an interior pixel whose value on being visited is
    [oldPixel] comes out white when [oldPixel ≤ 128] and black when
    [oldPixel ≥ 129]. *)
Theorem fsd_interior_threshold img x y :
  wf img → m_pixelSize img = 3 →
  0 < x < m_width img - 1 → 0 ≤ y < m_height img - 1 →
  ∃ g b0 oldPixel out,
    toGray img = Some g ∧
    fsd_before (m_width img) (m_height img) y x g = Some b0 ∧
    rd b0 y x = Some oldPixel ∧
    fsd img = Returns out ∧
    (oldPixel ≤ 128 → getPixel out x y = Ret [0xFF; 0xFF; 0xFF]) ∧
    (129 ≤ oldPixel → getPixel out x y = Ret [0x00; 0x00; 0x00]).
Proof.
  intros Hwf Hps Hx Hy.
  pose proof (wf_row_bound _ Hwf) as Hrow. rewrite Hps in Hrow.
  pose proof (wf_h _ Hwf) as Hh.
  pose proof (wf_size _ Hwf) as Hsize. rewrite Hps in Hsize.
  destruct (fsd_pixel_final img x y Hwf Hps)
    as (g & b0 & b1 & v & out & Hg & _ & Hbefore & Hd0 & Hstep & Hv & Hout & Hget & _);
    [lia..|].
  destruct (fsd_pixel_interior (m_width img) (m_height img) ltac:(lia) ltac:(nia) y x b0 Hd0)
    as (b1' & old & Hold & Hstep' & _ & Hnew & _); [lia..|unfold fsd_border; lia|].
  assert (b1' = b1) as -> by congruence.
  rewrite Hnew in Hv. injection Hv as <-.
  exists g, b0, old, out. split_and!; try done.
  - intros Hle. rewrite Hget. unfold fsd_newPixel. by rewrite decide_True.
  - intros Hge. rewrite Hget. unfold fsd_newPixel. by rewrite decide_False by lia.
Qed.

Lemma fsd_interior_threshold_witness :
  ∃ g b0 oldPixel out,
    toGray (uniform 4 3 [90; 100; 110]) = Some g ∧
    fsd_before 4 3 0 2 g = Some b0 ∧
    rd b0 0 2 = Some oldPixel ∧
    fsd (uniform 4 3 [90; 100; 110]) = Returns out ∧
    (oldPixel ≤ 128 → getPixel out 2 0 = Ret [0xFF; 0xFF; 0xFF]) ∧
    (129 ≤ oldPixel → getPixel out 2 0 = Ret [0x00; 0x00; 0x00]).
Proof.
  apply (fsd_interior_threshold (uniform 4 3 [90; 100; 110]) 2 0).
  - wf_by_computation.
  - reflexivity.
  - simpl. lia.
  - simpl. lia.
Defined.

Lemma rd_all v b r c x :
  Forall (Forall (λ s, s = v)) b → rd b r c = Some x → x = v.
Proof.
  unfold rd. intros Hb Hrd.
  destruct (b !! Z.to_nat r) as [row|] eqn:Hrow; simpl in Hrd; [|done].
  eapply (Forall_lookup_1 (λ s, s = v)); [|exact Hrd].
  by eapply (Forall_lookup_1 (Forall (λ s, s = v))).
Qed.

(** The bitmap the loops of [fsd] find at [(0, 1)]: only [(0, 0)] has been
    visited, and it is a border pixel. *)
Lemma fsd_before_0_1 w h g b0 :
  1 ≤ w < 2 ^ 64 → 1 ≤ h < 2 ^ 64 → 2 ≤ w → dims h w g →
  fsd_before w h 0 1 g = Some b0 → rd b0 0 1 = rd g 0 1.
Proof.
  intros Hw Hh Hw2 Hd. unfold fsd_before, scan_before, scan.
  rewrite (range_nil 0 0), (range_cons 0 1), (range_nil (0 + 1) 1) by lia.
  cbn [for_each mbind option_bind].
  destruct (fsd_pixel_border w h Hw Hh 0 0 g Hd) as (b' & -> & _ & _ & Hfr);
    [lia..|by left|].
  cbn [mbind option_bind]. intros [= <-]. apply Hfr; lia.
Qed.

(** C1, as the code has it.  On a well-formed RGB image all of whose samples
    are 0xFF, [fsd] returns white on the border, but the interior pixel
    [(1, 0)], visited with the value 255, is quantized to 0x00 with the
    residual error 255; the result is all white exactly when the image has no
    interior pixel. *)
Theorem fsd_all_0xFF img :
  wf img → m_pixelSize img = 3 → all_samples 0xFF img →
  ∃ out, fsd img = Returns out ∧
    (∀ x y, 0 ≤ x < m_width img → 0 ≤ y < m_height img →
       fsd_border (m_width img) (m_height img) y x →
       getPixel out x y = Ret [0xFF; 0xFF; 0xFF]) ∧
    (3 ≤ m_width img → 2 ≤ m_height img →
       ∃ g b0, toGray img = Some g ∧
         fsd_before (m_width img) (m_height img) 0 1 g = Some b0 ∧
         rd b0 0 1 = Some 0xFF ∧
         getPixel out 1 0 = Ret [0x00; 0x00; 0x00]) ∧
    fsd_error 0xFF (fsd_newPixel 0xFF) = 0xFF ∧
    (all_pixels [0xFF; 0xFF; 0xFF] out ↔ m_width img ≤ 2 ∨ m_height img = 1).
Proof.
  intros Hwf Hps Hall.
  pose proof (wf_row_bound _ Hwf) as Hrow. rewrite Hps in Hrow.
  pose proof (wf_w _ Hwf) as Hw. pose proof (wf_h _ Hwf) as Hh.
  pose proof (wf_size _ Hwf) as Hsize. rewrite Hps in Hsize.
  set (w := m_width img) in *. set (h := m_height img) in *.
  assert (Hw64 : 1 ≤ w < 2 ^ 64) by lia. assert (Hh64 : 1 ≤ h < 2 ^ 64) by nia.
  destruct (fsd_pixel_final img 0 0 Hwf Hps) as (_ & _ & _ & _ & out & _ & _ & _ & _ & _ & _ & Hout & _ & Hwo & Hho);
    [fold w; lia|fold h; lia|].
  assert (Hborder : ∀ x y, 0 ≤ x < w → 0 ≤ y < h → fsd_border w h y x →
            getPixel out x y = Ret [0xFF; 0xFF; 0xFF]).
  { intros x y Hx Hy Hb.
    destruct (fsd_pixel_final img x y Hwf Hps Hx Hy)
      as (g & b0 & b1 & v & out' & _ & _ & _ & Hd0 & Hstep & Hv & Hout' & Hget & _).
    assert (out' = out) as -> by congruence. fold w h in Hd0, Hstep.
    destruct (fsd_pixel_border w h Hw64 Hh64 y x b0 Hd0 Hy Hx Hb)
      as (b1' & Hstep' & _ & Hwhite & _).
    assert (b1' = b1) as -> by congruence.
    rewrite Hwhite in Hv. injection Hv as <-. done. }
  assert (Hblack : 3 ≤ w → 2 ≤ h →
            ∃ g b0, toGray img = Some g ∧ fsd_before w h 0 1 g = Some b0 ∧
              rd b0 0 1 = Some 0xFF ∧ getPixel out 1 0 = Ret [0x00; 0x00; 0x00]).
  { intros Hw3 Hh2.
    destruct (fsd_pixel_final img 1 0 Hwf Hps)
      as (g & b0 & b1 & v & out' & Hg & Hdg & Hbefore & Hd0 & Hstep & Hv & Hout' & Hget & _);
      [fold w; lia|fold h; lia|].
    assert (out' = out) as -> by congruence. fold w h in Hdg, Hbefore, Hd0, Hstep.
    assert (Hgray : rd g 0 1 = Some 0xFF).
    { destruct (toGray_ok img Hwf Hps) as (g' & Hg' & _ & Hval).
      assert (g' = g) as -> by congruence.
      destruct (Hval 0 1) as (a & b & c & Ha & Hb & Hc & ->); [fold h; lia|fold w; lia|].
      apply (rd_all _ _ _ _ _ Hall) in Ha, Hb, Hc. subst. done. }
    assert (Hold : rd b0 0 1 = Some 0xFF).
    { rewrite <- Hgray. apply (fsd_before_0_1 w h); try done. lia. }
    destruct (fsd_pixel_interior w h Hw64 Hh64 0 1 b0 Hd0)
      as (b1' & old & Hold' & Hstep' & _ & Hnew & _); [lia..|unfold fsd_border; lia|].
    assert (b1' = b1) as -> by congruence.
    assert (old = 0xFF) as -> by congruence.
    rewrite Hnew in Hv. injection Hv as <-.
    exists g, b0. split_and!; done. }
  exists out. split; [done|]. split; [done|]. split; [done|].
  split; [reflexivity|]. split.
  - intros Hwhite. destruct (decide (w ≤ 2 ∨ h = 1)) as [|Hbig]; [done|exfalso].
    destruct Hblack as (_ & _ & _ & _ & _ & Hget); [lia..|].
    rewrite Hwhite in Hget; [done|rewrite Hwo|rewrite Hho]; fold w h; lia.
  - intros Hsmall x y Hx Hy. rewrite Hwo in Hx. rewrite Hho in Hy. fold w in Hx. fold h in Hy.
    apply Hborder; try done. unfold fsd_border. lia.
Qed.

Lemma fsd_all_0xFF_witness :
  ∃ out, fsd (uniform 3 2 [0xFF; 0xFF; 0xFF]) = Returns out ∧
    (∀ x y, 0 ≤ x < 3 → 0 ≤ y < 2 → fsd_border 3 2 y x →
       getPixel out x y = Ret [0xFF; 0xFF; 0xFF]) ∧
    (3 ≤ 3 → 2 ≤ 2 →
       ∃ g b0, toGray (uniform 3 2 [0xFF; 0xFF; 0xFF]) = Some g ∧
         fsd_before 3 2 0 1 g = Some b0 ∧ rd b0 0 1 = Some 0xFF ∧
         getPixel out 1 0 = Ret [0x00; 0x00; 0x00]) ∧
    fsd_error 0xFF (fsd_newPixel 0xFF) = 0xFF ∧
    (all_pixels [0xFF; 0xFF; 0xFF] out ↔ 3 ≤ 2 ∨ 2 = 1).
Proof.
  apply (fsd_all_0xFF (uniform 3 2 [0xFF; 0xFF; 0xFF])).
  - wf_by_computation.
  - reflexivity.
  - unfold all_samples. simpl. repeat constructor.
Defined.

(** C1 as stated fails: a 3 by 2 image of 0xFF samples does not come out all
    white. *)
Lemma fsd_all_white_counterexample :
  wf (uniform 3 2 [0xFF; 0xFF; 0xFF]) ∧
  all_samples 0xFF (uniform 3 2 [0xFF; 0xFF; 0xFF]) ∧
  ∃ out, fsd (uniform 3 2 [0xFF; 0xFF; 0xFF]) = Returns out ∧
    getPixel out 1 0 = Ret [0x00; 0x00; 0x00] ∧
    ¬ all_pixels [0xFF; 0xFF; 0xFF] out.
Proof.
  split; [wf_by_computation|]. split; [unfold all_samples; simpl; repeat constructor|].
  eexists. split; [vm_compute; reflexivity|]. split; [vm_compute; reflexivity|].
  intros Hwhite. specialize (Hwhite 1 0). simpl in Hwhite.
  assert (Hget : getPixel (mkImage [[255; 255; 255; 0; 0; 0; 255; 255; 255];
                                    [255; 255; 255; 255; 255; 255; 255; 255; 255]] 3 2 3 0) 1 0
                 = Ret [0; 0; 0]) by (vm_compute; reflexivity).
  rewrite Hwhite in Hget by lia. discriminate.
Qed.

(** The search on a pixel that is a palette entry, entry by entry. *)
Lemma nearest_exact id p0 p1 p2 :
  0 ≤ id < 7 → palet !! Z.to_nat id = Some [p0; p1; p2] →
  nearestColor p0 p1 p2 = Some id ∧
  auxDistance p0 p1 p2 id = Some 0%Q ∧
  color_error p0 p0 = 0 ∧ color_error p1 p1 = 0 ∧ color_error p2 p2 = 0.
Proof.
  intros Hid Hp.
  assert (id = 0 ∨ id = 1 ∨ id = 2 ∨ id = 3 ∨ id = 4 ∨ id = 5 ∨ id = 6)
    as [-> | [-> | [-> | [-> | [-> | [-> | ->]]]]]] by lia;
    injection Hp as <- <- <-; vm_compute; done.
Qed.

Lemma gt_irrefl a : F32.gt a a = false.
Proof.
  unfold F32.gt. apply negb_false_iff, Qle_bool_iff, Qle_refl.
Qed.

Lemma diffuse_zero h w b r k c0 c1 c2 :
  dims h w b → bytes b → 0 ≤ r < h → 0 ≤ c0 < w → 0 ≤ c1 < w → 0 ≤ c2 < w →
  diffuse b r 0 0 0 k c0 c1 c2 = Some b.
Proof.
  intros Hd Hb Hr H0 H1 H2. unfold diffuse. change (cdiv (0 * k) 16) with 0.
  destruct (rd_ok h w b r c0) as [v0 Hv0]; [done..|].
  destruct (rd_ok h w b r c1) as [v1 Hv1]; [done..|].
  destruct (rd_ok h w b r c2) as [v2 Hv2]; [done..|].
  rewrite (add_to_zero b r c0 v0) by (done || lia). simpl.
  rewrite (add_to_zero b r c1 v1) by (done || lia). simpl.
  apply (add_to_zero b r c2 v2); (done || lia).
Qed.

(** C6. In [fsdColor], the visit of an interior pixel whose value is the
    palette entry [id] selects [id] (its distance is 0, and a later entry at
    the same distance as the current best never replaces it), computes the
    error 0 in every channel, and leaves the whole bitmap as it was: nothing
    is diffused. *)
Theorem fsdColor_exact_entry w h r k b id p0 p1 p2 :
  1 ≤ w → 3 * w < 2 ^ 64 → 1 ≤ h < 2 ^ 64 →
  dims h (3 * w) b → bytes b →
  0 ≤ r < h → 0 ≤ k < w → ¬ fsdColor_border w h r (3 * k) →
  0 ≤ id < 7 → palet !! Z.to_nat id = Some [p0; p1; p2] →
  rd b r (3 * k) = Some p0 → rd b r (3 * k + 1) = Some p1 → rd b r (3 * k + 2) = Some p2 →
  nearestColor p0 p1 p2 = Some id ∧
  auxDistance p0 p1 p2 id = Some 0%Q ∧
  (∀ i st, i ≠ 0 → auxDistance p0 p1 p2 i = Some (fst st) →
     nearest_step p0 p1 p2 i st = Some st) ∧
  color_error p0 p0 = 0 ∧ color_error p1 p1 = 0 ∧ color_error p2 p2 = 0 ∧
  fsdColor_pixel w h 3 r (3 * k) b = Some b.
Proof.
  intros Hw Hw3 Hh Hd Hb Hr Hk Hint Hid Hp H0 H1 H2.
  destruct (nearest_exact id p0 p1 p2 Hid Hp) as (Hnear & Hdist & E0 & E1 & E2).
  split_and!; try done.
  - intros i st Hi Haux. unfold nearest_step. rewrite Haux. simpl.
    rewrite decide_False by done. by rewrite gt_irrefl.
  - assert (Hpal : ∀ j pj, [p0; p1; p2] !! Z.to_nat j = Some pj →
        rd palet id j = Some pj ∧ uint8_t (int16_t pj) = pj).
    { intros j pj Hj.
      assert (Hrd : rd palet id j = Some pj) by (unfold rd; by rewrite Hp).
      split; [done|]. apply int16_t_byte.
      eapply rd_byte; [apply palet_bytes | exact Hrd]. }
    destruct (Hpal 0 p0 eq_refl) as [P0 U0].
    destruct (Hpal 1 p1 eq_refl) as [P1 U1].
    destruct (Hpal 2 p2 eq_refl) as [P2 U2].
    unfold fsdColor_pixel.
    rewrite decide_False by (rewrite (fsdColor_border_iff w h) by lia; done).
    unfold fsdColor_border in Hint. set (c := 3 * k) in *.
    rewrite !Z.add_0_r, !Z.sub_0_r.
    rewrite !size_t_small by (rewrite ?size_t_small by lia; lia).
    rewrite H0, H1, H2. cbn [mbind option_bind].
    rewrite Hnear. cbn [mbind option_bind].
    rewrite P0, P1, P2. cbn [mbind option_bind].
    rewrite E0, E1, E2, U0, U1, U2.
    do 4 (rewrite (diffuse_zero h (3 * w)) by (done || lia); cbn [mbind option_bind]).
    rewrite (wr_same b r c p0) by (done || lia). cbn [mbind option_bind].
    rewrite (wr_same b r (c + 1) p1) by (done || lia). cbn [mbind option_bind].
    apply wr_same; (done || lia).
Qed.

Lemma fsdColor_exact_entry_witness :
  nearestColor 0xc9 0xd1 0x68 = Some 4 ∧
  auxDistance 0xc9 0xd1 0x68 4 = Some 0%Q ∧
  (∀ i st, i ≠ 0 → auxDistance 0xc9 0xd1 0x68 i = Some (fst st) →
     nearest_step 0xc9 0xd1 0x68 i st = Some st) ∧
  color_error 0xc9 0xc9 = 0 ∧ color_error 0xd1 0xd1 = 0 ∧ color_error 0x68 0x68 = 0 ∧
  fsdColor_pixel 3 2 3 0 (3 * 1) (replicate 2 (concat (replicate 3 [0xc9; 0xd1; 0x68])))
    = Some (replicate 2 (concat (replicate 3 [0xc9; 0xd1; 0x68]))).
Proof.
  apply (fsdColor_exact_entry 3 2 0 1
           (replicate 2 (concat (replicate 3 [0xc9; 0xd1; 0x68]))) 4 0xc9 0xd1 0x68);
    try reflexivity; try lia.
  - split; [reflexivity | repeat constructor].
  - unfold bytes, is_byte. simpl. repeat constructor; lia.
  - unfold fsdColor_border. lia.
Defined.

(** C7, as the code has it.  For a box of at least one pixel, [getAverage]
    throws [out_of_range] exactly when [boxSize] exceeds the width or the
    height, and returns a pixel otherwise; when [x + boxSize] (resp.
    [y + boxSize]) does not wrap around, the anchor the loops start from is
    moved left (resp. up) just enough for the box to fit. *)
Theorem getAverage_outcome img x y boxSize :
  wf img → 0 ≤ x < 2 ^ 64 → 0 ≤ y < 2 ^ 64 → 1 ≤ boxSize →
  (m_width img < boxSize ∨ m_height img < boxSize →
     ∃ what, getAverage img x y boxSize = Throw (out_of_range what)) ∧
  (boxSize ≤ m_width img → boxSize ≤ m_height img →
     (∃ vec, getAverage img x y boxSize = Ret vec ∧ len vec = m_pixelSize img) ∧
     (x + boxSize < 2 ^ 64 →
        0 ≤ anchor (m_width img) x boxSize ≤ x ∧
        anchor (m_width img) x boxSize + boxSize ≤ m_width img ∧
        (x + boxSize ≤ m_width img → anchor (m_width img) x boxSize = x)) ∧
     (y + boxSize < 2 ^ 64 →
        0 ≤ anchor (m_height img) y boxSize ≤ y ∧
        anchor (m_height img) y boxSize + boxSize ≤ m_height img ∧
        (y + boxSize ≤ m_height img → anchor (m_height img) y boxSize = y))).
Proof.
  intros Hwf Hx Hy Hbox. split.
  - apply getAverage_throws.
  - intros Hbw Hbh. split_and!.
    + by apply getAverage_returns.
    + intros. apply anchor_fits; lia.
    + intros. apply anchor_fits; lia.
Qed.

Lemma getAverage_outcome_witness :
  (4 < 2 ∨ 4 < 2 →
     ∃ what, getAverage (uniform 4 4 [7; 8; 9]) 3 3 2 = Throw (out_of_range what)) ∧
  (2 ≤ 4 → 2 ≤ 4 →
     (∃ vec, getAverage (uniform 4 4 [7; 8; 9]) 3 3 2 = Ret vec ∧ len vec = 3) ∧
     (3 + 2 < 2 ^ 64 →
        0 ≤ anchor 4 3 2 ≤ 3 ∧ anchor 4 3 2 + 2 ≤ 4 ∧ (3 + 2 ≤ 4 → anchor 4 3 2 = 3)) ∧
     (3 + 2 < 2 ^ 64 →
        0 ≤ anchor 4 3 2 ≤ 3 ∧ anchor 4 3 2 + 2 ≤ 4 ∧ (3 + 2 ≤ 4 → anchor 4 3 2 = 3))).
Proof.
  apply (getAverage_outcome (uniform 4 4 [7; 8; 9]) 3 3 2); try lia.
  wf_by_computation.
Defined.

(** C7 as stated fails for the empty box: [boxSize = 0] exceeds neither
    dimension, yet the call neither returns nor throws: the totals are
    divided by [boxSize * boxSize = 0]. *)
Lemma getAverage_empty_box_counterexample :
  wf (uniform 1 1 [7]) ∧
  ¬ (m_width (uniform 1 1 [7]) < 0 ∨ m_height (uniform 1 1 [7]) < 0) ∧
  getAverage (uniform 1 1 [7]) 0 0 0 = Undef ∧
  ¬ ∃ vec, getAverage (uniform 1 1 [7]) 0 0 0 = Ret vec.
Proof.
  split; [wf_by_computation|]. split; [simpl; lia|].
  split; [vm_compute; reflexivity|].
  intros [vec Hvec]. vm_compute in Hvec. discriminate.
Qed.

(** C8. [shrink] returns at once, leaving the object as it is, when the new
    width is not smaller than the width; it throws [out_of_range] when the
    new width is 0 (and the width is not), and the object the exception
    leaves behind is the object it was called on. *)
Theorem shrink_guard img newWidth :
  (m_width img ≤ newWidth → shrink img newWidth = Returns img) ∧
  (newWidth = 0 → 0 < m_width img →
     shrink img newWidth = Throws (out_of_range "New width cannot be zero") img).
Proof.
  unfold shrink. split.
  - intros Hge. by rewrite decide_True.
  - intros -> Hpos. rewrite decide_False by lia. by rewrite decide_True.
Qed.

Lemma shrink_guard_witness :
  shrink (uniform 2 2 [1; 2; 3]) 5 = Returns (uniform 2 2 [1; 2; 3]) ∧
  shrink (uniform 2 2 [1; 2; 3]) 0 =
    Throws (out_of_range "New width cannot be zero") (uniform 2 2 [1; 2; 3]).
Proof.
  split.
  - apply (shrink_guard (uniform 2 2 [1; 2; 3]) 5). simpl. lia.
  - apply (shrink_guard (uniform 2 2 [1; 2; 3]) 0); [reflexivity | simpl; lia].
Defined.

(** C3 on the 4 by 4 one-channel image of the specification, rows
    [0 0 255 255], shrunk to width 2.  The source rows map to the
    destination rows 0, 0, 1, 1 and [newHeight] is 2, but a row is flushed
    only when the destination index grows beyond [oldRow]: the one flush, at
    source row 2, carries rows 0 to 2, and what is accumulated for the last
    destination row is never flushed.  The result has height 1. *)
Theorem shrink_last_row_lost :
  wf (mkImage (replicate 4 [0; 0; 255; 255]) 4 4 1 0) ∧
  scale_index (shrink_scaleFactor (mkImage (replicate 4 [0; 0; 255; 255]) 4 4 1 0) 2)
    <$> range 0 4 = [0; 0; 1; 1] ∧
  shrink_newHeight (mkImage (replicate 4 [0; 0; 255; 255]) 4 4 1 0) 2 = 2 ∧
  shrink (mkImage (replicate 4 [0; 0; 255; 255]) 4 4 1 0) 2 =
    Returns (mkImage [[0; 255]] 2 1 1 0).
Proof.
  split; [wf_by_computation|]. split_and!; vm_compute; reflexivity.
Qed.

(** C9 on a 4 by 4 image of the uniform colour (10, 20, 30), shrunk to
    width 2.  The destination index is computed from the byte column, so a
    destination sample averages bytes of different channels: the pixels come
    out as (15, 20, 25). *)
Theorem shrink_mixes_channels :
  wf (uniform 4 4 [10; 20; 30]) ∧
  all_pixels [10; 20; 30] (uniform 4 4 [10; 20; 30]) ∧
  shrink (uniform 4 4 [10; 20; 30]) 2 =
    Returns (mkImage [[15; 20; 25; 15; 20; 25]] 2 1 3 0) ∧
  getPixel (mkImage [[15; 20; 25; 15; 20; 25]] 2 1 3 0) 0 0 = Ret [15; 20; 25].
Proof.
  split; [wf_by_computation|]. split; [|split; vm_compute; reflexivity].
  intros x y Hx Hy. simpl in Hx, Hy.
  assert (x = 0 ∨ x = 1 ∨ x = 2 ∨ x = 3) as [-> | [-> | [-> | ->]]] by lia;
    assert (y = 0 ∨ y = 1 ∨ y = 2 ∨ y = 3) as [-> | [-> | [-> | ->]]] by lia;
    vm_compute; reflexivity.
Qed.

(** In [fsd], [error] is a [uint8_t]: for a pixel quantized to white the
    difference [oldPixel - 255] is stored modulo 256, as [oldPixel + 1],
    where the [int16_t] of [fsdColor] keeps [oldPixel - 255]. *)
Lemma fsd_error_white oldPixel :
  0 ≤ oldPixel ≤ 128 →
  fsd_newPixel oldPixel = 0xFF ∧
  fsd_error oldPixel (fsd_newPixel oldPixel) = oldPixel + 1 ∧
  color_error oldPixel (fsd_newPixel oldPixel) = oldPixel - 0xFF.
Proof.
  intros Hold. unfold fsd_newPixel. rewrite decide_True by lia.
  unfold fsd_error, color_error, uint8_t, int16_t. split; [done|].
  split.
  - replace (oldPixel - 255) with (oldPixel + 1 + -1 * 256) by lia.
    rewrite Z.mod_add by lia. apply Z.mod_small. lia.
  - rewrite (Z.mod_small (oldPixel + 2 ^ 15)), (Z.mod_small (255 + 2 ^ 15)) by lia.
    replace (oldPixel + 2 ^ 15 - 2 ^ 15 - (255 + 2 ^ 15 - 2 ^ 15) + 2 ^ 15)
      with (oldPixel - 255 + 2 ^ 15) by lia.
    rewrite Z.mod_small by lia. lia.
Qed.

(** C2 on a 4 by 2 image of the grey (100, 100, 100).  The interior pixel
    [(1, 0)] is quantized to white; [fsd] computes its error as 101, not
    -155, and diffuses 44, 6, 31, 18 where the signed error gives -67, -9,
    -48, -29.  Its right neighbour [(2, 0)] thus rises from 100 to 144 and
    comes out black.  In [fsdColor] the same difference is -155. *)
Theorem fsd_error_wraps :
  fsd_newPixel 100 = 0xFF ∧
  fsd_error 100 0xFF = 101 ∧
  color_error 100 0xFF = -155 ∧
  cdiv (101 * 7) 16 = 44 ∧ cdiv (101 * 1) 16 = 6 ∧
  cdiv (101 * 5) 16 = 31 ∧ cdiv (101 * 3) 16 = 18 ∧
  cdiv (-155 * 7) 16 = -67 ∧ cdiv (-155 * 1) 16 = -9 ∧
  cdiv (-155 * 5) 16 = -48 ∧ cdiv (-155 * 3) 16 = -29 ∧
  fsd (uniform 4 2 [100; 100; 100]) =
    Returns (mkImage [[255; 255; 255; 255; 255; 255; 0; 0; 0; 255; 255; 255];
                      [255; 255; 255; 255; 255; 255; 255; 255; 255; 255; 255; 255]]
                     4 2 3 0).
Proof. split_and!; vm_compute; reflexivity. Qed.


(** * Further properties of the class *)

(** ** getPixel and getLuminance *)

Lemma getPixel_row_check img x y :
  m_height img = len (m_bitmapData img) → m_height img ≤ y →
  getPixel img x y = Throw (out_of_range "Y value too large").
Proof. intros Hrows Hbig. unfold getPixel. by rewrite decide_True by lia. Qed.

Lemma getPixel_col_check img x y :
  wf img → 0 ≤ y < m_height img → m_width img ≤ x →
  getPixel img x y = Throw (out_of_range "X value too large").
Proof.
  intros Hwf Hy Hbig. pose proof (wf_dims _ Hwf) as Hd.
  pose proof (wf_ps _ Hwf) as Hps. pose proof (wf_rows _ Hwf) as Hrows.
  unfold getPixel. rewrite decide_False by lia.
  destruct (dims_lookup _ _ _ 0 Hd) as (row0 & Hrow0 & Hlen0); [lia|].
  change (Z.to_nat 0) with 0%nat in Hrow0. rewrite Hrow0. simpl.
  rewrite decide_False by lia. rewrite Hlen0, Z.div_mul by lia.
  by rewrite decide_True.
Qed.

Lemma getPixel_samples img x y :
  wf img → 0 ≤ x < m_width img → 0 ≤ y < m_height img →
  ∃ vec, getPixel img x y = Ret vec ∧ len vec = m_pixelSize img ∧
    Forall is_byte vec ∧
    ∀ n, 0 ≤ n < m_pixelSize img →
      vec !! Z.to_nat n = Some (sample img x y n) ∧ is_byte (sample img x y n).
Proof.
  intros Hwf Hx Hy. pose proof (wf_dims _ Hwf) as Hd.
  pose proof (wf_row_bound _ Hwf) as Hrow. pose proof (wf_ps _ Hwf) as Hps.
  destruct (getPixel_ok img (m_width img) (m_height img) x y)
    as (vec & Hget & Hlen & Hvec); [done|lia..|].
  assert (Hsample : ∀ n, 0 ≤ n < m_pixelSize img →
            vec !! Z.to_nat n = Some (sample img x y n) ∧ is_byte (sample img x y n)).
  { intros n Hn. rewrite Hvec by done. unfold sample.
    destruct (rd_ok _ _ _ y (x * m_pixelSize img + n) Hd) as [v Hv]; [lia|nia|].
    rewrite Hv. split; [done|]. eapply rd_byte; [apply Hwf | exact Hv]. }
  exists vec. split_and!; try done.
  apply Forall_lookup_2. intros i v Hi.
  pose proof (lookup_lt_Some _ _ _ Hi) as Hlt. unfold len in Hlen.
  destruct (Hsample (Z.of_nat i) ltac:(lia)) as [Hs Hb].
  rewrite Nat2Z.id, Hi in Hs. by injection Hs as ->.
Qed.

(** On a well-formed image [getPixel] checks the row first, then the column,
    and inside the image returns the [m_pixelSize] bytes of the pixel. *)
Theorem getPixel_outcome img x y :
  wf img → 0 ≤ x → 0 ≤ y →
  (m_height img ≤ y → getPixel img x y = Throw (out_of_range "Y value too large")) ∧
  (y < m_height img → m_width img ≤ x →
     getPixel img x y = Throw (out_of_range "X value too large")) ∧
  (y < m_height img → x < m_width img →
     ∃ vec, getPixel img x y = Ret vec ∧ len vec = m_pixelSize img ∧
       Forall is_byte vec ∧
       ∀ n, 0 ≤ n < m_pixelSize img →
         vec !! Z.to_nat n = Some (sample img x y n)).
Proof.
  intros Hwf Hx Hy. split_and!.
  - apply getPixel_row_check. symmetry. apply Hwf.
  - intros. by apply getPixel_col_check.
  - intros. destruct (getPixel_samples img x y) as (vec & ? & ? & ? & Hs); [done|lia..|].
    exists vec. split_and!; try done. intros n Hn. by apply Hs.
Qed.

Lemma getPixel_outcome_witness :
  (2 ≤ 1 → getPixel (uniform 4 2 [10; 20; 30]) 3 1 = Throw (out_of_range "Y value too large")) ∧
  (1 < 2 → 4 ≤ 3 →
     getPixel (uniform 4 2 [10; 20; 30]) 3 1 = Throw (out_of_range "X value too large")) ∧
  (1 < 2 → 3 < 4 →
     ∃ vec, getPixel (uniform 4 2 [10; 20; 30]) 3 1 = Ret vec ∧ len vec = 3 ∧
       Forall is_byte vec ∧
       ∀ n, 0 ≤ n < 3 → vec !! Z.to_nat n = Some (sample (uniform 4 2 [10; 20; 30]) 3 1 n)).
Proof.
  apply (getPixel_outcome (uniform 4 2 [10; 20; 30]) 3 1); [wf_by_computation|lia..].
Defined.

(** [getLuminance] throws as [getPixel] does; inside a well-formed image it
    returns the sample of a one-channel pixel and, for an RGB pixel, the
    weighted mean (2R + 3G + B) / 6, which lies between the smallest and the
    largest of the three channels. *)
Theorem getLuminance_outcome img x y :
  wf img → 0 ≤ x → 0 ≤ y →
  (m_height img ≤ y → getLuminance img x y = Throw (out_of_range "Y value too large")) ∧
  (y < m_height img → m_width img ≤ x →
     getLuminance img x y = Throw (out_of_range "X value too large")) ∧
  (y < m_height img → x < m_width img →
     (m_pixelSize img = 1 → getLuminance img x y = Ret (sample img x y 0)) ∧
     (m_pixelSize img = 3 →
        getLuminance img x y =
          Ret ((2 * sample img x y 0 + 3 * sample img x y 1 + sample img x y 2) / 6) ∧
        Z.min (sample img x y 0) (Z.min (sample img x y 1) (sample img x y 2))
          ≤ (2 * sample img x y 0 + 3 * sample img x y 1 + sample img x y 2) / 6
          ≤ Z.max (sample img x y 0) (Z.max (sample img x y 1) (sample img x y 2)))).
Proof.
  intros Hwf Hx Hy. unfold getLuminance. split; [|split].
  - intros. rewrite getPixel_row_check; [done| |done]. symmetry. apply Hwf.
  - intros. by rewrite getPixel_col_check.
  - intros Hy' Hx'.
    destruct (getPixel_samples img x y) as (vec & -> & Hlen & _ & Hs); [done|lia..|].
    simpl. split; intros Hps.
    + rewrite decide_True by lia. destruct (Hs 0) as [E0 _]; [lia|].
      change (Z.to_nat 0) with 0%nat in E0. by rewrite E0.
    + rewrite decide_False, decide_True by lia.
      destruct (Hs 0) as [E0 B0]; [lia|]. destruct (Hs 1) as [E1 B1]; [lia|].
      destruct (Hs 2) as [E2 B2]; [lia|].
      change (Z.to_nat 0) with 0%nat in E0. change (Z.to_nat 1) with 1%nat in E1.
      change (Z.to_nat 2) with 2%nat in E2.
      rewrite E0, E1, E2. simpl. unfold is_byte in *.
      set (r := sample img x y 0) in *. set (g := sample img x y 1) in *.
      set (b := sample img x y 2) in *.
      assert (Hq : cdiv (r * 2 + g * 3 + b) 6 = (2 * r + 3 * g + b) / 6).
      { unfold cdiv. rewrite Z.quot_div_nonneg by lia. f_equal. lia. }
      assert (Hrange : Z.min r (Z.min g b) ≤ (2 * r + 3 * g + b) / 6
                       ≤ Z.max r (Z.max g b)) by (Z.div_mod_to_equations; lia).
      split; [|done]. rewrite Hq. f_equal. apply uint8_t_small. unfold is_byte. lia.
Qed.

Lemma getLuminance_outcome_witness :
  (2 ≤ 1 → getLuminance (uniform 4 2 [10; 20; 30]) 3 1
             = Throw (out_of_range "Y value too large")) ∧
  (1 < 2 → 4 ≤ 3 →
     getLuminance (uniform 4 2 [10; 20; 30]) 3 1 = Throw (out_of_range "X value too large")) ∧
  (1 < 2 → 3 < 4 →
     (3 = 1 → getLuminance (uniform 4 2 [10; 20; 30]) 3 1
                = Ret (sample (uniform 4 2 [10; 20; 30]) 3 1 0)) ∧
     (3 = 3 →
        getLuminance (uniform 4 2 [10; 20; 30]) 3 1 =
          Ret ((2 * sample (uniform 4 2 [10; 20; 30]) 3 1 0
                + 3 * sample (uniform 4 2 [10; 20; 30]) 3 1 1
                + sample (uniform 4 2 [10; 20; 30]) 3 1 2) / 6) ∧
        Z.min (sample (uniform 4 2 [10; 20; 30]) 3 1 0)
              (Z.min (sample (uniform 4 2 [10; 20; 30]) 3 1 1)
                     (sample (uniform 4 2 [10; 20; 30]) 3 1 2))
          ≤ (2 * sample (uniform 4 2 [10; 20; 30]) 3 1 0
             + 3 * sample (uniform 4 2 [10; 20; 30]) 3 1 1
             + sample (uniform 4 2 [10; 20; 30]) 3 1 2) / 6
          ≤ Z.max (sample (uniform 4 2 [10; 20; 30]) 3 1 0)
                  (Z.max (sample (uniform 4 2 [10; 20; 30]) 3 1 1)
                         (sample (uniform 4 2 [10; 20; 30]) 3 1 2)))).
Proof.
  apply (getLuminance_outcome (uniform 4 2 [10; 20; 30]) 3 1); [wf_by_computation|lia..].
Defined.

(** ** getAverage computes the truncated mean of its box *)

Lemma zsum_bound K (l : list Z) :
  0 ≤ K → Forall (λ v, 0 ≤ v ≤ K) l → 0 ≤ zsum l ≤ K * len l.
Proof.
  intros HK. unfold len. induction 1 as [|v l Hv _ IH]; simpl; [lia|].
  rewrite Nat2Z.inj_succ. nia.
Qed.

Lemma zsum_const v (l : list Z) : Forall (λ x, x = v) l → zsum l = v * len l.
Proof.
  unfold len. induction 1 as [|x l -> _ IH]; simpl; [lia|].
  rewrite Nat2Z.inj_succ. lia.
Qed.

(** Three running totals that never overflow. *)
Lemma ofold_totals (f0 f1 f2 : Z → Z) K idx (body : Z → Z * Z * Z → outcome (Z * Z * Z)) :
  0 ≤ K →
  (∀ i r g b, i ∈ idx → 0 ≤ r → 0 ≤ g → 0 ≤ b →
     r + K < 2 ^ 64 → g + K < 2 ^ 64 → b + K < 2 ^ 64 →
     body i (r, g, b) = Ret (r + f0 i, g + f1 i, b + f2 i)) →
  (∀ i, i ∈ idx → 0 ≤ f0 i ≤ K ∧ 0 ≤ f1 i ≤ K ∧ 0 ≤ f2 i ≤ K) →
  ∀ r g b, 0 ≤ r → 0 ≤ g → 0 ≤ b →
    r + K * len idx < 2 ^ 64 → g + K * len idx < 2 ^ 64 → b + K * len idx < 2 ^ 64 →
    ofold idx body (r, g, b) =
      Ret (r + zsum (f0 <$> idx), g + zsum (f1 <$> idx), b + zsum (f2 <$> idx)).
Proof.
  intros HK. induction idx as [|i idx IH]; intros Hbody Hf r g b Hr Hg Hb Hrk Hgk Hbk.
  - simpl. by rewrite !Z.add_0_r.
  - unfold len in *. simpl length in *. rewrite Nat2Z.inj_succ in *.
    destruct (Hf i) as (H0 & H1 & H2); [left|].
    simpl. rewrite Hbody by (try left; nia). simpl.
    rewrite IH; try nia.
    + rewrite <- !Z.add_assoc. reflexivity.
    + intros j r' g' b' Hj. apply Hbody. by right.
    + intros j Hj. apply Hf. by right.
Qed.

Lemma chan_byte img x y n :
  wf img → 0 ≤ x < m_width img → 0 ≤ y < m_height img → 0 ≤ n → is_byte (chan img x y n).
Proof.
  intros Hwf Hx Hy Hn. unfold chan. case_decide; [|unfold is_byte; lia].
  destruct (getPixel_samples img x y Hwf Hx Hy) as (vec & _ & _ & _ & Hs).
  by apply Hs.
Qed.

Lemma getAverage_step_ok img row col r g b :
  wf img → 0 ≤ col < m_width img → 0 ≤ row < m_height img →
  0 ≤ r → 0 ≤ g → 0 ≤ b → r + 255 < 2 ^ 64 → g + 255 < 2 ^ 64 → b + 255 < 2 ^ 64 →
  getAverage_step img row col (r, g, b) =
    Ret (r + chan img col row 0, g + chan img col row 1, b + chan img col row 2).
Proof.
  intros Hwf Hc Hr H0 H1 H2 Hr64 Hg64 Hb64.
  destruct (getPixel_samples img col row Hwf Hc Hr) as (vec & Hget & Hlen & _ & Hs).
  unfold getAverage_step. rewrite Hget. cbn [obind of_option]. unfold chan.
  destruct (wf_ps _ Hwf) as [Hps|Hps]; rewrite Hps in *.
  - destruct (Hs 0) as [E0 B0]; [lia|]. change (Z.to_nat 0) with 0%nat in E0.
    rewrite E0. cbn [obind of_option]. rewrite (decide_False (P := len vec = 3)) by lia.
    rewrite (decide_True (P := 0 < 1)), !decide_False by lia. unfold is_byte in *.
    rewrite size_t_small by lia. by rewrite !Z.add_0_r.
  - destruct (Hs 0) as [E0 B0]; [lia|]. destruct (Hs 1) as [E1 B1]; [lia|].
    destruct (Hs 2) as [E2 B2]; [lia|].
    change (Z.to_nat 0) with 0%nat in E0. change (Z.to_nat 1) with 1%nat in E1.
    change (Z.to_nat 2) with 2%nat in E2.
    rewrite E0. cbn [obind of_option]. rewrite (decide_True (P := len vec = 3)) by lia.
    rewrite E1, E2. cbn [obind of_option].
    rewrite !decide_True by lia. unfold is_byte in *.
    by rewrite !size_t_small by lia.
Qed.

Lemma chan_total_bound img ax b n row :
  wf img → 0 ≤ ax → ax + b ≤ m_width img → 0 ≤ row < m_height img → 0 ≤ n → 0 ≤ b →
  0 ≤ zsum ((λ col, chan img col row n) <$> range ax (ax + b)) ≤ 255 * b.
Proof.
  intros Hwf Hax Hfit Hrow Hn Hb.
  replace b with (len ((λ col, chan img col row n) <$> range ax (ax + b))) at 3.
  - apply zsum_bound; [lia|]. apply Forall_fmap, Forall_forall.
    intros col Hcol%elem_of_range. simpl.
    pose proof (chan_byte img col row n Hwf ltac:(lia) Hrow Hn) as Hbyte.
    unfold is_byte in Hbyte. lia.
  - unfold len. rewrite length_fmap. fold (len (range ax (ax + b))).
    rewrite range_length; lia.
Qed.

Lemma getAverage_box img x y b :
  wf img → 0 ≤ x → 0 ≤ y → 1 ≤ b → b ≤ m_width img → b ≤ m_height img →
  x + b < 2 ^ 64 → y + b < 2 ^ 64 → 255 * (b * b) < 2 ^ 64 →
  getAverage img x y b =
    Ret (box_mean img (anchor (m_width img) x b) (anchor (m_height img) y b) b).
Proof.
  intros Hwf Hx Hy Hb Hbw Hbh Hx64 Hy64 Hsum.
  destruct (anchor_fits (m_width img) x b) as (Hax & Haxb & _); [lia..|].
  destruct (anchor_fits (m_height img) y b) as (Hay & Hayb & _); [lia..|].
  set (ax := anchor (m_width img) x b) in *. set (ay := anchor (m_height img) y b) in *.
  set (f n row := zsum ((λ col, chan img col row n) <$> range ax (ax + b))).
  assert (Hlen : ∀ lo, len (range lo (lo + b)) = b) by (intros; rewrite range_length; lia).
  assert (Hloops :
    ofold (range ay (ay + b)) (λ row, ofold (range ax (ax + b)) (getAverage_step img row))
          (0, 0, 0)
    = Ret (0 + zsum (f 0 <$> range ay (ay + b)), 0 + zsum (f 1 <$> range ay (ay + b)),
           0 + zsum (f 2 <$> range ay (ay + b)))).
  { apply (ofold_totals (f 0) (f 1) (f 2) (255 * b)); try lia; try (rewrite Hlen; nia).
    - intros row r g bb Hrow%elem_of_range Hr Hg Hbb Hr64 Hg64 Hb64.
      apply (ofold_totals (λ col, chan img col row 0) (λ col, chan img col row 1)
               (λ col, chan img col row 2) 255); try lia; try (rewrite Hlen; lia).
      + intros col r' g' b' Hcol%elem_of_range ? ? ? ? ? ?.
        apply getAverage_step_ok; (done || lia).
      + intros col Hcol%elem_of_range.
        pose proof (chan_byte img col row 0 Hwf ltac:(lia) ltac:(lia) ltac:(lia)).
        pose proof (chan_byte img col row 1 Hwf ltac:(lia) ltac:(lia) ltac:(lia)).
        pose proof (chan_byte img col row 2 Hwf ltac:(lia) ltac:(lia) ltac:(lia)).
        unfold is_byte in *. lia.
    - intros row Hrow%elem_of_range. unfold f.
      split_and!; apply chan_total_bound; (done || lia). }
  assert (Htot : ∀ n, 0 ≤ n → 0 ≤ zsum (f n <$> range ay (ay + b)) ≤ 255 * (b * b)).
  { intros n Hn.
    replace (255 * (b * b)) with (255 * b * len (f n <$> range ay (ay + b))).
    - apply zsum_bound; [lia|]. apply Forall_fmap, Forall_forall.
      intros row Hrow%elem_of_range. simpl. unfold f.
      apply chan_total_bound; (done || lia).
    - unfold len. rewrite length_fmap. fold (len (range ay (ay + b))). rewrite Hlen. lia. }
  assert (Hmean : ∀ n, 0 ≤ n < m_pixelSize img →
    uint8_t (zsum (f n <$> range ay (ay + b)) / (b * b)) = box_total img ax ay b n / (b * b)).
  { intros n Hn. rewrite uint8_t_small.
    - unfold box_total, f, chan. destruct (decide (n < m_pixelSize img)); [done|lia].
    - specialize (Htot n ltac:(lia)). unfold is_byte. split.
      + apply Z.div_pos; nia.
      + apply Z.div_lt_upper_bound; nia. }
  unfold getAverage. rewrite !decide_False by lia. cbv zeta. fold ax ay.
  rewrite (size_t_small (ax + b)), (size_t_small (ay + b)) by lia.
  match goal with
  | |- obind (ofold ?R _ ?a) ?K = ?rhs =>
      change (obind (ofold R (λ row, ofold (range ax (ax + b)) (getAverage_step img row)) a)
                    K = rhs)
  end.
  rewrite Hloops. cbn [obind]. rewrite !Z.add_0_l.
  rewrite size_t_small by nia. rewrite decide_False by nia.
  unfold box_mean.
  destruct (wf_ps _ Hwf) as [Hps|Hps]; rewrite Hps in *.
  - rewrite decide_False by lia. change (range 0 1) with [0]. simpl.
    by rewrite Hmean by lia.
  - rewrite decide_True by lia. change (range 0 3) with [0; 1; 2]. simpl.
    by rewrite !Hmean by lia.
Qed.

Lemma getPixel_as_samples img x y :
  wf img → 0 ≤ x < m_width img → 0 ≤ y < m_height img →
  getPixel img x y = Ret (sample img x y <$> range 0 (m_pixelSize img)).
Proof.
  intros Hwf Hx Hy. pose proof (wf_ps _ Hwf) as Hps.
  destruct (getPixel_samples img x y Hwf Hx Hy) as (vec & -> & Hlen & _ & Hs).
  f_equal. apply list_eq. intros i.
  destruct (decide (Z.of_nat i < m_pixelSize img)) as [Hi|Hi].
  - destruct (Hs (Z.of_nat i)) as [E _]; [lia|]. rewrite Nat2Z.id in E. rewrite E.
    rewrite list_lookup_fmap.
    pose proof (range_lookup (m_pixelSize img) (Z.of_nat i) ltac:(lia)) as Hr.
    rewrite Nat2Z.id in Hr. by rewrite Hr.
  - rewrite !lookup_ge_None_2; [done| |].
    + rewrite length_fmap. fold (len (range 0 (m_pixelSize img))).
      pose proof (range_length 0 (m_pixelSize img)). unfold len in *. lia.
    + unfold len in Hlen. lia.
Qed.

Lemma anchor_min dim p b :
  0 ≤ p → 0 ≤ b ≤ dim → p + b < 2 ^ 64 → anchor dim p b = Z.min p (dim - b).
Proof.
  intros Hp Hb H64. unfold anchor. rewrite (size_t_small (p + b)) by lia.
  case_decide; [rewrite size_t_small by lia|]; lia.
Qed.

(** At a position [(x, y)] for which neither [x + boxSize] nor
    [y + boxSize] wraps around in [size_t], [getAverage] returns, channel by
    channel, the truncated mean of the samples of the box of side [boxSize]
    whose corner is [(x, y)] moved back inside the image, as long as the
    totals cannot overflow. *)
Theorem getAverage_mean img x y boxSize :
  wf img → 0 ≤ x → 0 ≤ y → 1 ≤ boxSize →
  boxSize ≤ m_width img → boxSize ≤ m_height img →
  x + boxSize < 2 ^ 64 → y + boxSize < 2 ^ 64 → 255 * (boxSize * boxSize) < 2 ^ 64 →
  getAverage img x y boxSize =
    Ret (box_mean img (Z.min x (m_width img - boxSize))
                      (Z.min y (m_height img - boxSize)) boxSize).
Proof.
  intros. rewrite getAverage_box by done. by rewrite !anchor_min by lia.
Qed.

Lemma getAverage_mean_witness :
  getAverage (uniform 4 4 [7; 8; 9]) 3 1 2 =
    Ret (box_mean (uniform 4 4 [7; 8; 9]) (Z.min 3 (4 - 2)) (Z.min 1 (4 - 2)) 2).
Proof.
  apply (getAverage_mean (uniform 4 4 [7; 8; 9]) 3 1 2); try (simpl; lia).
  wf_by_computation.
Defined.

(** Coordinates at which the box would stick out are not an error for
    [getAverage]: as long as [x + boxSize] and [y + boxSize] do not wrap
    around in [size_t] (and the totals cannot overflow), the call gives what
    it gives at the last position where the box fits. *)
Theorem getAverage_clamps img x y boxSize :
  wf img → 0 ≤ x → 0 ≤ y → 1 ≤ boxSize →
  boxSize ≤ m_width img → boxSize ≤ m_height img →
  x + boxSize < 2 ^ 64 → y + boxSize < 2 ^ 64 → 255 * (boxSize * boxSize) < 2 ^ 64 →
  getAverage img x y boxSize =
    getAverage img (Z.min x (m_width img - boxSize)) (Z.min y (m_height img - boxSize))
               boxSize.
Proof.
  intros. rewrite !getAverage_box by (done || lia). rewrite !anchor_min by lia.
  f_equal. f_equal; lia.
Qed.

Lemma getAverage_clamps_witness :
  getAverage (uniform 4 4 [7; 8; 9]) 1000 3 2 =
    getAverage (uniform 4 4 [7; 8; 9]) (Z.min 1000 (4 - 2)) (Z.min 3 (4 - 2)) 2.
Proof.
  apply (getAverage_clamps (uniform 4 4 [7; 8; 9]) 1000 3 2); try (simpl; lia).
  wf_by_computation.
Defined.

(** With a box of one pixel [getAverage] is [getPixel], inside the image. *)
Theorem getAverage_one_pixel img x y :
  wf img → 0 ≤ x < m_width img → 0 ≤ y < m_height img →
  getAverage img x y 1 = getPixel img x y.
Proof.
  intros Hwf Hx Hy. pose proof (wf_row_bound _ Hwf). pose proof (wf_ps _ Hwf).
  pose proof (wf_size _ Hwf). pose proof (wf_w _ Hwf). pose proof (wf_h _ Hwf).
  rewrite getAverage_box by (done || nia). rewrite !anchor_min by nia.
  rewrite !Z.min_l by lia. rewrite getPixel_as_samples by done.
  f_equal. unfold box_mean. apply list_fmap_ext. intros _ n _.
  unfold box_total.
  rewrite (range_cons x (x + 1)), (range_cons y (y + 1)), !range_nil by lia.
  unfold zsum. simpl. rewrite Z.div_1_r. lia.
Qed.

Lemma getAverage_one_pixel_witness :
  getAverage (uniform 4 4 [7; 8; 9]) 3 1 1 = getPixel (uniform 4 4 [7; 8; 9]) 3 1.
Proof.
  apply (getAverage_one_pixel (uniform 4 4 [7; 8; 9]) 3 1); try (simpl; lia).
  wf_by_computation.
Defined.

(** On an image of one colour, [getAverage] returns that colour, whatever
    the box, at every position for which [x + boxSize] and [y + boxSize] do
    not wrap around in [size_t]. *)
Theorem getAverage_uniform img px x y boxSize :
  wf img → all_pixels px img → 0 ≤ x → 0 ≤ y → 1 ≤ boxSize →
  boxSize ≤ m_width img → boxSize ≤ m_height img →
  x + boxSize < 2 ^ 64 → y + boxSize < 2 ^ 64 → 255 * (boxSize * boxSize) < 2 ^ 64 →
  getAverage img x y boxSize = Ret px.
Proof.
  intros Hwf Hall Hx Hy Hb Hbw Hbh Hx64 Hy64 Hsum.
  pose proof (wf_w _ Hwf). pose proof (wf_h _ Hwf).
  assert (Hsample : ∀ col row, 0 ≤ col < m_width img → 0 ≤ row < m_height img →
            sample img col row <$> range 0 (m_pixelSize img) = px).
  { intros col row Hc Hr. specialize (Hall col row Hc Hr).
    rewrite getPixel_as_samples in Hall by done. by injection Hall. }
  rewrite getAverage_box by done.
  destruct (anchor_fits (m_width img) x boxSize) as (Hax & Haxb & _); [lia..|].
  destruct (anchor_fits (m_height img) y boxSize) as (Hay & Hayb & _); [lia..|].
  set (ax := anchor (m_width img) x boxSize) in *.
  set (ay := anchor (m_height img) y boxSize) in *.
  f_equal. rewrite <- (Hsample 0 0) by lia. unfold box_mean.
  apply list_fmap_ext. intros i n Hn.
  apply list_elem_of_lookup_2, elem_of_range in Hn.
  assert (Hcell : ∀ col row, 0 ≤ col < m_width img → 0 ≤ row < m_height img →
            sample img col row n = sample img 0 0 n).
  { intros col row Hc Hr.
    pose proof (f_equal (.!! Z.to_nat n) (Hsample col row Hc Hr)) as E1.
    pose proof (f_equal (.!! Z.to_nat n) (Hsample 0 0 ltac:(lia) ltac:(lia))) as E0.
    simpl in E0, E1. rewrite list_lookup_fmap, range_lookup in E0, E1 by lia.
    simpl in E0, E1. congruence. }
  unfold box_total.
  rewrite (zsum_const (boxSize * sample img 0 0 n)).
  - unfold len. rewrite length_fmap. fold (len (range ay (ay + boxSize))).
    rewrite range_length by lia.
    replace (boxSize * sample img 0 0 n * (ay + boxSize - ay))
      with (sample img 0 0 n * (boxSize * boxSize)) by lia.
    apply Z.div_mul. nia.
  - apply Forall_fmap, Forall_forall. intros row Hrow%elem_of_range. simpl.
    rewrite (zsum_const (sample img 0 0 n)).
    + unfold len. rewrite length_fmap. fold (len (range ax (ax + boxSize))).
      rewrite range_length by lia. lia.
    + apply Forall_fmap, Forall_forall. intros col Hcol%elem_of_range. simpl.
      apply Hcell; lia.
Qed.

Lemma getAverage_uniform_witness :
  getAverage (uniform 4 4 [7; 8; 9]) 3 1 2 = Ret [7; 8; 9].
Proof.
  apply (getAverage_uniform (uniform 4 4 [7; 8; 9]) [7; 8; 9] 3 1 2); try (simpl; lia).
  - wf_by_computation.
  - intros x y Hx Hy. simpl in Hx, Hy.
    assert (x = 0 ∨ x = 1 ∨ x = 2 ∨ x = 3) as [-> | [-> | [-> | ->]]] by lia;
      assert (y = 0 ∨ y = 1 ∨ y = 2 ∨ y = 3) as [-> | [-> | [-> | ->]]] by lia;
      vm_compute; reflexivity.
Defined.

(** ** test *)

Lemma range_snoc k : 0 ≤ k → range 0 (k + 1) = range 0 k ++ [k].
Proof.
  intros. rewrite (range_split 0 k (k + 1)) by lia.
  by rewrite (range_nil (k + 1)) by lia.
Qed.

(** The inner loop of [test] after [k] turns. *)
Lemma test_line_prefix img row k :
  wf img → 0 ≤ row < m_height img → 0 ≤ k ≤ m_width img * m_pixelSize img →
  for_each (range 0 k)
           (test_sample (m_bitmapData img) (m_width img) (m_pixelSize img) row) ([], 0)
  = Some (test_byte img row <$> range 0 k,
          if decide (m_pixelSize img = 1) then 0
          else if decide (k ≤ m_width img * m_pixelSize img / 2) then 0
          else (k - m_width img * m_pixelSize img / 2) mod 3).
Proof.
  intros Hwf Hrow [Hk0 Hk]. pose proof (wf_dims _ Hwf) as Hd.
  pose proof (wf_row_bound _ Hwf) as Hbound. pose proof (wf_ps _ Hwf) as Hps.
  revert Hk. pattern k. apply natlike_ind; [|clear k Hk0|done].
  - intros _. rewrite range_nil by lia. simpl.
    rewrite (decide_True (P := 0 ≤ _)) by (Z.div_mod_to_equations; lia).
    by destruct (decide (m_pixelSize img = 1)).
  - intros k Hk0 IH Hk. rewrite <- Z.add_1_r in *.
    rewrite range_snoc, for_each_app, IH by lia. cbn [mbind option_bind for_each].
    rewrite fmap_app. simpl (_ <$> [k]).
    set (n := m_width img * m_pixelSize img) in *.
    unfold test_sample, test_byte. fold n. rewrite (size_t_small n) by lia.
    destruct (decide (k < n / 2)) as [Hleft|Hright].
    + destruct (rd_ok _ _ _ row k Hd) as [v Hv]; [lia..|]. rewrite Hv. simpl.
      rewrite !(decide_True (P := _ ≤ n / 2)) by lia. done.
    + destruct (decide (m_pixelSize img = 1)) as [Hone|Hrgb]; [done|].
      rewrite (decide_False (P := k + 1 ≤ n / 2)) by lia.
      replace (k + 1 - n / 2) with (k - n / 2 + 1) by lia.
      destruct (decide (k ≤ n / 2)) as [Hmid|Hpast].
      * assert (k = n / 2) as Hk' by lia. rewrite Hk', Z.sub_diag. simpl. done.
      * assert (Hm : 0 ≤ (k - n / 2) mod 3 < 3) by (apply Z.mod_pos_bound; lia).
        assert (Hstep : (k - n / 2 + 1) mod 3 =
                  if decide ((k - n / 2) mod 3 + 1 = 3) then 0 else (k - n / 2) mod 3 + 1).
        { case_decide; Z.div_mod_to_equations; lia. }
        rewrite Hstep.
        assert ((k - n / 2) mod 3 = 0 ∨ (k - n / 2) mod 3 = 1 ∨ (k - n / 2) mod 3 = 2)
          as [-> | [-> | ->]] by lia; done.
Qed.

Lemma mapM_fmap_total {A B} (f : A → option B) (g : A → B) l :
  (∀ x, x ∈ l → f x = Some (g x)) → mapM f l = Some (g <$> l).
Proof.
  induction l as [|x l IH]; intros Hf; [done|].
  simpl. rewrite Hf by left. simpl. rewrite IH; [done|].
  intros y Hy. apply Hf. by right.
Qed.

Lemma test_byte_byte img row col :
  wf img → is_byte (test_byte img row col).
Proof.
  intros Hwf. unfold test_byte. cbv zeta. repeat case_decide; try (unfold is_byte; lia).
  destruct (rd (m_bitmapData img) row col) as [v|] eqn:Hv; simpl.
  - eapply rd_byte; [apply Hwf | exact Hv].
  - unfold is_byte. lia.
Qed.

(** The bitmap [test] builds, in closed form. *)
Lemma test_run img :
  wf img →
  test img =
    Returns (mkImage ((λ row, test_byte img row <$> range 0 (m_width img * m_pixelSize img))
                        <$> range 0 (m_height img))
                     (m_width img) (m_height img) (m_pixelSize img) (m_colourSpace img)).
Proof.
  intros Hwf. pose proof (wf_row_bound _ Hwf) as Hbound. pose proof (wf_ps _ Hwf) as Hps.
  pose proof (wf_h _ Hwf) as Hh.
  set (n := m_width img * m_pixelSize img) in *.
  unfold test.
  rewrite (mapM_fmap_total _ (λ row, test_byte img row <$> range 0 n)).
  - unfold replace_bitmap.
    rewrite list_lookup_fmap. change 0%nat with (Z.to_nat 0).
    rewrite range_lookup by lia. simpl. rewrite decide_False by lia.
    f_equal. f_equal.
    + unfold len. rewrite length_fmap. fold (len (range 0 n)).
      rewrite range_length by lia. unfold n. rewrite Z.sub_0_r. apply Z.div_mul. lia.
    + unfold len. rewrite length_fmap. fold (len (range 0 (m_height img))).
      rewrite range_length; lia.
  - intros row Hrow%elem_of_range. unfold test_line. fold n.
    rewrite (size_t_small n) by lia.
    rewrite (test_line_prefix img row n) by (done || lia). done.
Qed.

Lemma test_out_rd img row col :
  wf img → 0 ≤ row < m_height img → 0 ≤ col < m_width img * m_pixelSize img →
  rd ((λ row, test_byte img row <$> range 0 (m_width img * m_pixelSize img))
        <$> range 0 (m_height img)) row col
  = Some (test_byte img row col).
Proof.
  intros Hwf Hrow Hcol. unfold rd.
  rewrite list_lookup_fmap, range_lookup by done. simpl.
  by rewrite list_lookup_fmap, range_lookup.
Qed.

Lemma test_out_wf img :
  wf img →
  wf (mkImage ((λ row, test_byte img row <$> range 0 (m_width img * m_pixelSize img))
                 <$> range 0 (m_height img))
              (m_width img) (m_height img) (m_pixelSize img) (m_colourSpace img)).
Proof.
  intros Hwf. pose proof (wf_row_bound _ Hwf) as Hbound. pose proof (wf_h _ Hwf) as Hh.
  split; simpl; try apply Hwf.
  - unfold len. rewrite length_fmap. fold (len (range 0 (m_height img))).
    rewrite range_length; lia.
  - apply Forall_fmap, Forall_forall. intros row _. simpl.
    unfold len. rewrite length_fmap. fold (len (range 0 (m_width img * m_pixelSize img))).
    rewrite range_length; lia.
  - apply Forall_fmap, Forall_forall. intros row _. simpl.
    apply Forall_fmap, Forall_forall. intros col _. simpl. by apply test_byte_byte.
Qed.

(** [test] always returns on a well-formed image, keeps its dimensions and
    its invariant, and leaves in every row the bytes [test_byte] describes:
    the left half as it was, the right half painted. *)
Theorem test_bytes img :
  wf img →
  ∃ out, test img = Returns out ∧ wf out ∧
    m_width out = m_width img ∧ m_height out = m_height img ∧
    m_pixelSize out = m_pixelSize img ∧ m_colourSpace out = m_colourSpace img ∧
    ∀ row col, 0 ≤ row < m_height img → 0 ≤ col < m_width img * m_pixelSize img →
      rd (m_bitmapData out) row col = Some (test_byte img row col).
Proof.
  intros Hwf. eexists. split; [by apply test_run|]. split; [by apply test_out_wf|].
  split_and!; try done. intros row col Hrow Hcol. by apply test_out_rd.
Qed.

Lemma test_bytes_witness :
  ∃ out, test (uniform 3 2 [10; 20; 30]) = Returns out ∧ wf out ∧
    m_width out = 3 ∧ m_height out = 2 ∧ m_pixelSize out = 3 ∧ m_colourSpace out = 0 ∧
    ∀ row col, 0 ≤ row < 2 → 0 ≤ col < 3 * 3 →
      rd (m_bitmapData out) row col = Some (test_byte (uniform 3 2 [10; 20; 30]) row col).
Proof. apply (test_bytes (uniform 3 2 [10; 20; 30])). wf_by_computation. Defined.

Lemma test_out_pixel img x y :
  wf img → m_pixelSize img = 3 → 0 ≤ x < m_width img → 0 ≤ y < m_height img →
  getPixel (mkImage ((λ row, test_byte img row <$> range 0 (m_width img * m_pixelSize img))
                       <$> range 0 (m_height img))
                    (m_width img) (m_height img) (m_pixelSize img) (m_colourSpace img)) x y
  = Ret [test_byte img y (3 * x); test_byte img y (3 * x + 1); test_byte img y (3 * x + 2)].
Proof.
  intros Hwf Hps Hx Hy. pose proof (test_out_wf img Hwf) as Hwf'.
  pose proof (wf_row_bound _ Hwf) as Hbound.
  destruct (getPixel_samples _ x y Hwf') as (vec & -> & Hlen & _ & Hs); [done..|].
  cbn [m_pixelSize] in Hlen, Hs.
  assert (Hn : ∀ n, 0 ≤ n < 3 → vec !! Z.to_nat n = Some (test_byte img y (3 * x + n))).
  { intros n Hn. destruct (Hs n) as [-> _]; [lia|]. f_equal. unfold sample.
    cbn [m_bitmapData m_pixelSize].
    rewrite test_out_rd by (done || lia). simpl. f_equal. lia. }
  rewrite Hps in Hlen.
  pose proof (Hn 0 ltac:(lia)) as E0. pose proof (Hn 1 ltac:(lia)) as E1.
  pose proof (Hn 2 ltac:(lia)) as E2. rewrite Z.add_0_r in E0.
  destruct vec as [|a [|b [|c [|]]]]; unfold len in Hlen; simpl in Hlen; try lia.
  simpl in E0, E1, E2. congruence.
Qed.

(** On an RGB image of even width, [test] keeps the pixels of the left half
    and makes those of the right half red. *)
Theorem test_red_half img x y :
  wf img → m_pixelSize img = 3 → m_width img mod 2 = 0 →
  0 ≤ x < m_width img → 0 ≤ y < m_height img →
  ∃ out, test img = Returns out ∧
    (x < m_width img / 2 → getPixel out x y = getPixel img x y) ∧
    (m_width img / 2 ≤ x → getPixel out x y = Ret [0xFF; 0x00; 0x00]).
Proof.
  intros Hwf Hps Heven Hx Hy. eexists. split; [by apply test_run|].
  rewrite test_out_pixel by done.
  unfold test_byte. cbv zeta. rewrite Hps.
  assert (Hhalf : m_width img * 3 / 2 = 3 * (m_width img / 2))
    by (Z.div_mod_to_equations; lia).
  rewrite Hhalf. split; intros Hside.
  - rewrite !decide_True by lia.
    destruct (getPixel_ok img (m_width img) (m_height img) x y)
      as (vec & -> & Hlen & Hvec); [by apply wf_dims|rewrite Hps; lia|
                                     apply (wf_row_bound _ Hwf)|done..|].
    rewrite Hps in Hlen, Hvec. f_equal.
    pose proof (Hvec 0 ltac:(lia)) as E0. pose proof (Hvec 1 ltac:(lia)) as E1.
    pose proof (Hvec 2 ltac:(lia)) as E2.
    replace (x * 3 + 0) with (3 * x) in E0 by lia.
    replace (x * 3 + 1) with (3 * x + 1) in E1 by lia.
    replace (x * 3 + 2) with (3 * x + 2) in E2 by lia.
    rewrite <- E0, <- E1, <- E2.
    destruct vec as [|a [|b [|c [|]]]]; unfold len in Hlen; simpl in Hlen; try lia.
    done.
  - rewrite !(decide_False (P := _ < 3 * _)) by lia.
    rewrite !(decide_False (P := 3 = 1)) by lia.
    rewrite (decide_True (P := (3 * x - _) mod 3 = 0)) by (Z.div_mod_to_equations; lia).
    rewrite (decide_False (P := (3 * x + 1 - _) mod 3 = 0)) by (Z.div_mod_to_equations; lia).
    rewrite (decide_False (P := (3 * x + 2 - _) mod 3 = 0)) by (Z.div_mod_to_equations; lia).
    done.
Qed.

Lemma test_red_half_witness :
  ∃ out, test (uniform 4 2 [10; 20; 30]) = Returns out ∧
    (2 < 4 / 2 → getPixel out 2 1 = getPixel (uniform 4 2 [10; 20; 30]) 2 1) ∧
    (4 / 2 ≤ 2 → getPixel out 2 1 = Ret [0xFF; 0x00; 0x00]).
Proof.
  apply (test_red_half (uniform 4 2 [10; 20; 30]) 2 1); try reflexivity; try (simpl; lia).
  wf_by_computation.
Defined.

(** ** shrink, when it returns *)

Section for_each_partial.
Context {S : Type}.
Implicit Types (body : Z → S → option S) (idx : list Z).

(** What every turn keeps, a loop that ends has kept. *)
Lemma for_each_Some (I : S → Prop) idx body s s' :
  (∀ i t t', i ∈ idx → I t → body i t = Some t' → I t') →
  I s → for_each idx body s = Some s' → I s'.
Proof.
  revert s. induction idx as [|i idx IH]; intros s Hbody Hs Hrun; simpl in Hrun.
  - by injection Hrun as <-.
  - destruct (body i s) as [t|] eqn:Ht; simpl in Hrun; [|done].
    apply (IH t); [|by eapply Hbody; [left| |]|done].
    intros j u u' Hj. apply Hbody. by right.
Qed.

(** A measure that grows by at most one a turn. *)
Lemma for_each_grow (m : S → Z) idx body s s' :
  (∀ i t t', i ∈ idx → body i t = Some t' → m t' ≤ m t + 1) →
  for_each idx body s = Some s' → m s' ≤ m s + len idx.
Proof.
  unfold len. revert s. induction idx as [|i idx IH]; intros s Hbody Hrun; simpl in Hrun.
  - injection Hrun as <-. simpl. lia.
  - destruct (body i s) as [t|] eqn:Ht; simpl in Hrun; [|done].
    simpl length. rewrite Nat2Z.inj_succ.
    assert (m t ≤ m s + 1) by (by eapply Hbody; [left|]).
    assert (m s' ≤ m t + Z.of_nat (length idx)); [|lia].
    apply IH; [|done]. intros j u u' Hj. apply Hbody. by right.
Qed.

(** A measure that grows by exactly one a turn. *)
Lemma for_each_count (m : S → Z) idx body s s' :
  (∀ i t t', i ∈ idx → body i t = Some t' → m t' = m t + 1) →
  for_each idx body s = Some s' → m s' = m s + len idx.
Proof.
  unfold len. revert s. induction idx as [|i idx IH]; intros s Hbody Hrun; simpl in Hrun.
  - injection Hrun as <-. simpl. lia.
  - destruct (body i s) as [t|] eqn:Ht; simpl in Hrun; [|done].
    simpl length. rewrite Nat2Z.inj_succ.
    assert (m t = m s + 1) by (by eapply Hbody; [left|]).
    assert (m s' = m t + Z.of_nat (length idx)); [|lia].
    apply IH; [|done]. intros j u u' Hj. apply Hbody. by right.
Qed.
End for_each_partial.

(** Multiplying by the index 0 gives the index 0, whatever the factor. *)
Lemma scale_index_0 scaleFactor : scale_index scaleFactor 0 = 0.
Proof.
  unfold scale_index, F32.mul, F32.of_size.
  change (F32.rnd 24 (inject_Z 0)) with 0%Q.
  unfold F32.rnd. simpl Qnum. rewrite Z.mul_0_r. done.
Qed.

Lemma shrink_accumulate_keeps N sf data row col st st' :
  shrink_accumulate sf data row col st = Some st' → shrink_inv N st →
  shrink_inv N st' ∧ vecNewBitmap st' = vecNewBitmap st ∧ oldRow st' = oldRow st.
Proof.
  unfold shrink_accumulate, shrink_inv. intros Hstep (Ht & Hc & Hrows).
  destruct (rd data row col); simpl in Hstep; [|done].
  destruct (runningTotals st !! _); simpl in Hstep; [|done].
  destruct (runningCounts st !! _); simpl in Hstep; [|done].
  injection Hstep as <-. simpl. unfold len in *. by rewrite !length_insert.
Qed.

Lemma shrink_emit_keeps i nl t c nl' t' c' :
  shrink_emit i (nl, t, c) = Some (nl', t', c') →
  len nl' = len nl + 1 ∧ (Forall is_byte nl → Forall is_byte nl') ∧
  len t' = len t ∧ len c' = len c.
Proof.
  unfold shrink_emit. intros Hstep.
  destruct (t !! _) as [tv|]; simpl in Hstep; [|done].
  destruct (c !! _) as [cv|]; simpl in Hstep; [|done].
  case_decide; [done|]. injection Hstep as <- <- <-.
  unfold len. rewrite length_app, !length_insert. simpl.
  split; [lia|]. split; [|done].
  intros Hnl. apply Forall_app. split; [done|]. apply Forall_singleton, uint8_t_byte.
Qed.

Lemma shrink_row_keeps N sf data w ps nw row st st' :
  N = size_t (nw * ps) →
  shrink_row sf data w ps nw row st = Some st' → shrink_inv N st →
  shrink_inv N st' ∧
  len (vecNewBitmap st') ≤ len (vecNewBitmap st) + 1 ∧
  (¬ oldRow st < scale_index sf row → vecNewBitmap st' = vecNewBitmap st).
Proof.
  intros HN Hrow Hinv. unfold shrink_row in Hrow.
  destruct (for_each (range 0 (size_t (w * ps))) _ st) as [st1|] eqn:Hacc;
    simpl in Hrow; [|done].
  assert (H1 : shrink_inv N st1 ∧ vecNewBitmap st1 = vecNewBitmap st ∧ oldRow st1 = oldRow st).
  { refine (for_each_Some
             (λ t, shrink_inv N t ∧ vecNewBitmap t = vecNewBitmap st ∧ oldRow t = oldRow st)
             _ _ _ _ _ _ Hacc); [|done].
    intros col t t' _ (Ht & Hv & Ho) Hstep.
    destruct (shrink_accumulate_keeps N _ _ _ _ _ _ Hstep Ht) as (? & -> & ->). done. }
  destruct H1 as ((Ht1 & Hc1 & Hrows1) & Hv1 & Ho1).
  destruct (decide (oldRow st1 < scale_index sf row)) as [Hemit|Hkeep].
  - destruct (for_each (range 0 (size_t (nw * ps))) shrink_emit _) as [[[nl t] c]|] eqn:Hfl;
      simpl in Hrow; [|done].
    injection Hrow as <-. simpl.
    pose proof (size_t_range (nw * ps)) as HNpos.
    assert (Hlen : len nl = len (@nil Z) + len (range 0 (size_t (nw * ps)))).
    { refine (for_each_count (λ a, len a.1.1) _ _ _ _ _ Hfl).
      intros i [[a1 a2] a3] [[b1 b2] b3] _ Hstep.
      by destruct (shrink_emit_keeps _ _ _ _ _ _ _ Hstep) as (? & _). }
    rewrite range_length in Hlen by lia. change (len (@nil Z)) with 0 in Hlen.
    assert (Hkeep : Forall is_byte nl ∧ len t = N ∧ len c = N).
    { refine (for_each_Some (λ a, Forall is_byte a.1.1 ∧ len a.1.2 = N ∧ len a.2 = N)
               _ _ _ _ _ _ Hfl); [|simpl; split_and!; done].
      intros i [[a1 a2] a3] [[b1 b2] b3] _ (Hb & Hta & Hca) Hstep. simpl in *.
      destruct (shrink_emit_keeps _ _ _ _ _ _ _ Hstep) as (_ & Hbytes & -> & ->). auto. }
    destruct Hkeep as (Hbytes & Ht' & Hc').
    split_and!.
    + split_and!; try done. apply Forall_app. split; [done|].
      repeat constructor; [lia|done].
    + rewrite Hv1. unfold len. rewrite length_app. simpl. lia.
    + intros Hno. rewrite Ho1 in Hemit. lia.
  - injection Hrow as <-. split_and!; [done|rewrite Hv1; lia|done].
Qed.

(** The state of [shrink] after source row 0: nothing is flushed yet. *)
Lemma shrink_row_0 N sf data w ps nw st1 :
  N = size_t (nw * ps) →
  shrink_row sf data w ps nw 0
             (mkShrink (replicate (Z.to_nat N) 0) (replicate (Z.to_nat N) 0) 0 []) = Some st1 →
  shrink_inv N st1 ∧ vecNewBitmap st1 = [].
Proof.
  intros HN Hrow. pose proof (size_t_range (nw * ps)).
  destruct (shrink_row_keeps N _ _ _ _ _ _ _ _ HN Hrow) as (Hinv & _ & Hsame).
  - unfold shrink_inv, len. simpl. rewrite !length_replicate. split_and!; (lia || done).
  - split; [done|]. apply Hsame. simpl. rewrite scale_index_0. lia.
Qed.

(** The object a returning [shrink] leaves. *)
Lemma shrink_run img newWidth out :
  wf img → 1 ≤ newWidth → newWidth < m_width img →
  shrink img newWidth = Returns out →
  wf out ∧ m_width out = newWidth ∧ m_pixelSize out = m_pixelSize img ∧
  m_colourSpace out = m_colourSpace img ∧ m_height out < m_height img.
Proof.
  intros Hwf Hnw Hlt Hrun. pose proof (wf_ps _ Hwf) as Hps.
  pose proof (wf_row_bound _ Hwf) as Hbound. pose proof (wf_h _ Hwf) as Hh.
  pose proof (wf_size _ Hwf) as Hsize.
  set (ps := m_pixelSize img) in *. set (N := size_t (newWidth * ps)).
  assert (HN : N = newWidth * ps) by (apply size_t_small; nia).
  unfold shrink in Hrun. rewrite !decide_False in Hrun by lia. cbv zeta in Hrun.
  fold ps N in Hrun.
  rewrite (range_cons 0 (m_height img)) in Hrun by lia.
  cbn [for_each] in Hrun.
  destruct (shrink_row _ _ _ _ _ 0 _) as [st1|] eqn:Hrow0; cbn [mbind option_bind] in Hrun;
    [|done].
  destruct (shrink_row_0 N _ _ _ _ _ _ eq_refl Hrow0) as (Hinv1 & Hnil).
  destruct (for_each (range (0 + 1) (m_height img)) _ st1) as [st|] eqn:Hrest; [|done].
  assert (Hinv : shrink_inv N st).
  { refine (for_each_Some (shrink_inv N) _ _ _ _ _ Hinv1 Hrest).
    intros row t t' _ Ht Hstep.
    by destruct (shrink_row_keeps N _ _ _ _ _ _ _ _ eq_refl Hstep Ht) as (? & _). }
  assert (Hcount : len (vecNewBitmap st) ≤ len (vecNewBitmap st1) + len (range (0 + 1) (m_height img))).
  { refine (for_each_grow (λ t, len (vecNewBitmap t)) _ _ _ _ _ Hrest).
    intros row t t' _ Hstep. unfold shrink_row in Hstep.
    destruct (for_each _ (shrink_accumulate _ _ _) t) as [t1|] eqn:Hacc; simpl in Hstep; [|done].
    assert (Hv : vecNewBitmap t1 = vecNewBitmap t).
    { refine (for_each_Some (λ u, vecNewBitmap u = vecNewBitmap t) _ _ _ _ _ eq_refl Hacc).
      intros col u u' _ Hu Hs. unfold shrink_accumulate in Hs.
      destruct (rd _ _ _); simpl in Hs; [|done].
      destruct (runningTotals u !! _); simpl in Hs; [|done].
      destruct (runningCounts u !! _); simpl in Hs; [|done].
      injection Hs as <-. done. }
    case_decide; [|injection Hstep as <-; rewrite Hv; lia].
    destruct (for_each _ shrink_emit _) as [[[nl tt] cc]|]; simpl in Hstep; [|done].
    injection Hstep as <-. simpl. rewrite Hv. unfold len. rewrite length_app. simpl. lia. }
  rewrite Hnil, range_length in Hcount by lia. change (len (@nil (list Z))) with 0 in Hcount.
  destruct (vecNewBitmap st !! 0%nat) as [row0|] eqn:Hrow0'; [|done].
  rewrite decide_False in Hrun by lia. injection Hrun as <-.
  destruct Hinv as (_ & _ & Hrows).
  pose proof (Forall_lookup_1 _ _ _ _ Hrows Hrow0') as [Hlen0 _].
  pose proof (lookup_lt_Some _ _ _ Hrow0') as Hpos.
  assert (Hw' : len row0 / ps = newWidth) by (rewrite Hlen0, HN; apply Z.div_mul; lia).
  cbn [m_width m_height m_pixelSize m_colourSpace]. rewrite Hw'.
  split_and!; try done; [|unfold len in *; lia].
  split; cbn [m_width m_height m_pixelSize m_colourSpace m_bitmapData]; rewrite ?Hw'.
  - done.
  - lia.
  - unfold len. lia.
  - done.
  - eapply Forall_impl; [exact Hrows|]. intros row [Hl _]. simpl. fold ps. lia.
  - eapply Forall_impl; [exact Hrows|]. by intros row [_ Hb].
  - fold ps. unfold len in *. nia.
Qed.

(** When [shrink] to a smaller, positive width returns, the object is again
    well formed: it has the width asked for, the channel count and colour
    space it had, rows of bytes, and fewer rows than before. *)
Theorem shrink_returns img newWidth out :
  wf img → 1 ≤ newWidth → newWidth < m_width img →
  shrink img newWidth = Returns out →
  wf out ∧ m_width out = newWidth ∧ m_pixelSize out = m_pixelSize img ∧
  m_colourSpace out = m_colourSpace img ∧ m_height out < m_height img.
Proof. apply shrink_run. Qed.

Lemma shrink_returns_witness :
  wf (mkImage [[1; 3; 5]] 3 1 1 0) ∧
  m_width (mkImage [[1; 3; 5]] 3 1 1 0) = 3 ∧
  m_pixelSize (mkImage [[1; 3; 5]] 3 1 1 0) = 1 ∧
  m_colourSpace (mkImage [[1; 3; 5]] 3 1 1 0) = 0 ∧
  m_height (mkImage [[1; 3; 5]] 3 1 1 0) < 4.
Proof.
  apply (shrink_returns (mkImage (replicate 4 [1; 2; 3; 4; 5; 6]) 6 4 1 0) 3).
  - wf_by_computation.
  - lia.
  - simpl. lia.
  - vm_compute. reflexivity.
Defined.

(** On a well-formed image of a single row, [shrink] to a smaller positive
    width never returns: no row is ever flushed, and the closing read of row
    0 of the new bitmap is undefined. *)
Theorem shrink_single_row img newWidth :
  wf img → m_height img = 1 → 1 ≤ newWidth → newWidth < m_width img →
  shrink img newWidth = Undefined.
Proof.
  intros Hwf Hone Hnw Hlt.
  unfold shrink. rewrite !decide_False by lia. cbv zeta. rewrite Hone.
  rewrite (range_cons 0 1), (range_nil (0 + 1) 1) by lia. cbn [for_each].
  destruct (shrink_row _ _ _ _ _ 0 _) as [st1|] eqn:Hrow0; cbn [mbind option_bind]; [|done].
  destruct (shrink_row_0 _ _ _ _ _ _ _ eq_refl Hrow0) as (_ & ->). done.
Qed.

Lemma shrink_single_row_witness :
  shrink (uniform 4 1 [10; 20; 30]) 2 = Undefined.
Proof.
  apply (shrink_single_row (uniform 4 1 [10; 20; 30]) 2); try reflexivity; try (simpl; lia).
  wf_by_computation.
Defined.

(** ** expand *)

(** *** The float operations, within a factor of two *)

Lemma half_even_bounds n d :
  0 ≤ n → 0 < d →
  0 ≤ F32.half_even n d ∧ F32.half_even n d * d ≤ n + d ∧ n ≤ F32.half_even n d * d + d.
Proof.
  intros Hn Hd. unfold F32.half_even. cbv zeta.
  pose proof (Z.div_mod n d ltac:(lia)) as Hdm.
  pose proof (Z.mod_pos_bound n d Hd) as Hm.
  assert (0 ≤ n / d) by (apply Z.div_pos; lia).
  repeat case_match; nia.
Qed.

Lemma pow2_Q e :
  (2 ^ e == inject_Z (2 ^ Z.max 0 e) / inject_Z (2 ^ Z.max 0 (- e)))%Q.
Proof.
  destruct (Z.le_gt_cases 0 e) as [He|He].
  - rewrite Z.max_r, Z.max_l by lia. change (2 ^ 0) with 1.
    rewrite Zpower_Qpower by done. change (inject_Z 2) with 2%Q. field.
  - rewrite Z.max_l, Z.max_r by lia. change (2 ^ 0) with 1.
    rewrite Zpower_Qpower by lia. change (inject_Z 2) with 2%Q.
    replace e with (- - e) at 1 by lia. rewrite Qpower_opp. field.
    apply Qpower_not_0. done.
Qed.

Lemma scaled_le m n (d A B : positive) :
  m * (Z.pos d * Z.pos B) ≤ 2 * (n * Z.pos A) →
  (inject_Z m * (inject_Z (Z.pos B) / inject_Z (Z.pos A)) <= 2 * (n # d))%Q.
Proof.
  intros H. unfold Qle, Qdiv, Qmult, Qinv, inject_Z. simpl. lia.
Qed.

Lemma scaled_ge m n (d A B : positive) :
  n * Z.pos A ≤ 2 * (m * (Z.pos d * Z.pos B)) →
  ((n # d) <= 2 * (inject_Z m * (inject_Z (Z.pos B) / inject_Z (Z.pos A))))%Q.
Proof.
  intros H. unfold Qle, Qdiv, Qmult, Qinv, inject_Z. simpl. lia.
Qed.

Lemma rnd_bounds prec n dp :
  3 ≤ prec → 0 < n →
  (0 <= F32.rnd prec (n # dp) ∧ F32.rnd prec (n # dp) <= 2 * (n # dp) ∧
   (n # dp) <= 2 * F32.rnd prec (n # dp))%Q.
Proof.
  intros Hprec Hn. unfold F32.rnd. simpl Qnum. simpl Qden.
  rewrite (proj2 (Z.leb_gt n 0)) by lia.
  unfold F32.scaled. cbv beta iota zeta.
  set (e0 := Z.log2 n - Z.log2 (Z.pos dp) - prec).
  set (e := if _ <? _ then e0 else e0 + 1).
  assert (He : e ≤ e0 + 1) by (unfold e; case_match; lia).
  clearbody e.
  set (a := Z.max 0 (- e)). set (b := Z.max 0 e).
  assert (Hab : b - a = e ∧ 0 ≤ a ∧ 0 ≤ b) by lia.
  pose proof (Z.log2_spec n Hn) as [Hn1 _].
  pose proof (Z.log2_spec (Z.pos dp) ltac:(lia)) as [_ Hd2].
  pose proof (Z.log2_nonneg n) as HLn. pose proof (Z.log2_nonneg (Z.pos dp)) as HLd.
  assert (Hpa : 0 < 2 ^ a) by (apply Z.pow_pos_nonneg; lia).
  assert (Hpb : 0 < 2 ^ b) by (apply Z.pow_pos_nonneg; lia).
  assert (Hbig : 2 * (Z.pos dp * 2 ^ b) ≤ n * 2 ^ a).
  { assert (H1 : 2 ^ (Z.log2 n + a) ≤ n * 2 ^ a) by (rewrite Z.pow_add_r by lia; nia).
    assert (H2 : 2 * (Z.pos dp * 2 ^ b) ≤ 2 ^ (Z.log2 (Z.pos dp) + 2 + b)).
    { replace (Z.log2 (Z.pos dp) + 2 + b) with (Z.succ (Z.log2 (Z.pos dp)) + b + 1) by lia.
      rewrite !Z.pow_add_r by lia. change (2 ^ 1) with 2. nia. }
    assert (H3 : 2 ^ (Z.log2 (Z.pos dp) + 2 + b) ≤ 2 ^ (Z.log2 n + a))
      by (apply Z.pow_le_mono_r; lia).
    lia. }
  destruct (half_even_bounds (n * 2 ^ a) (Z.pos dp * 2 ^ b)) as (Hm0 & Hm1 & Hm2); [nia..|].
  set (m := F32.half_even (n * 2 ^ a) (Z.pos dp * 2 ^ b)) in *.
  rewrite Qred_correct, pow2_Q. fold a b.
  destruct (2 ^ a) as [|pa|] eqn:Ea; try lia.
  destruct (2 ^ b) as [|pb|] eqn:Eb; try lia.
  split_and!.
  - apply Qmult_le_0_compat.
    + unfold Qle, inject_Z. simpl. lia.
    + unfold Qle, Qdiv, Qmult, Qinv, inject_Z. simpl. lia.
  - apply scaled_le. nia.
  - apply scaled_ge. nia.
Qed.

Lemma rnd_nonneg prec x : 3 ≤ prec → (0 <= F32.rnd prec x)%Q.
Proof.
  intros Hprec. destruct x as [n dp]. destruct (Z.le_gt_cases n 0) as [Hn|Hn].
  - unfold F32.rnd. simpl Qnum. rewrite (proj2 (Z.leb_le n 0)) by done. apply Qle_refl.
  - by apply rnd_bounds.
Qed.

Lemma rnd_upper prec x : 3 ≤ prec → (0 <= x → F32.rnd prec x <= 2 * x)%Q.
Proof.
  intros Hprec Hx. destruct x as [n dp]. destruct (Z.le_gt_cases n 0) as [Hn|Hn].
  - unfold F32.rnd. simpl Qnum. rewrite (proj2 (Z.leb_le n 0)) by done.
    unfold Qle in *. simpl in *. lia.
  - by apply rnd_bounds.
Qed.

Lemma rnd_lower prec x : 3 ≤ prec → (0 <= x → x <= 2 * F32.rnd prec x)%Q.
Proof.
  intros Hprec Hx. destruct x as [n dp]. destruct (Z.le_gt_cases n 0) as [Hn|Hn].
  - unfold F32.rnd. simpl Qnum. rewrite (proj2 (Z.leb_le n 0)) by done.
    unfold Qle in *. simpl in *. lia.
  - by apply rnd_bounds.
Qed.

Lemma unscale_index_nonneg s k : 0 ≤ unscale_index s k.
Proof.
  unfold unscale_index, F32.to_size, F32.div.
  change 0 with (Qfloor 0). apply Qfloor_resp_le. by apply rnd_nonneg.
Qed.


Lemma unscale_index_bound w nw k :
  1 ≤ w → w < nw → 0 ≤ k ≤ nw →
  unscale_index (F32.div (F32.of_size nw) (F32.of_size w)) k ≤ 32 * w.
Proof.
  intros Hw Hnw Hk. unfold unscale_index, F32.to_size, F32.div, F32.of_size.
  rewrite <- (Qfloor_Z (32 * w)). apply Qfloor_resp_le.
  assert (Qk : (0 <= inject_Z k)%Q) by (rewrite <- (Zle_Qle 0); lia).
  assert (Qkn : (inject_Z k <= inject_Z nw)%Q) by (rewrite <- Zle_Qle; lia).
  assert (Qw : (1 <= inject_Z w)%Q) by (rewrite <- (Zle_Qle 1); lia).
  assert (Qn : (1 <= inject_Z nw)%Q) by (rewrite <- (Zle_Qle 1); lia).
  assert (Q32 : (inject_Z (32 * w) == 32 * inject_Z w)%Q) by (by rewrite inject_Z_mult).
  rewrite Q32.
  pose proof (rnd_upper 24 (inject_Z k) ltac:(lia) Qk) as HK.
  pose proof (rnd_nonneg 24 (inject_Z k) ltac:(lia)) as HK0.
  pose proof (rnd_lower 24 (inject_Z nw) ltac:(lia) ltac:(lra)) as HN.
  pose proof (rnd_upper 24 (inject_Z w) ltac:(lia) ltac:(lra)) as HW.
  pose proof (rnd_lower 24 (inject_Z w) ltac:(lia) ltac:(lra)) as HW'.
  set (K := F32.rnd 24 (inject_Z k)) in *. set (N := F32.rnd 24 (inject_Z nw)) in *.
  set (W := F32.rnd 24 (inject_Z w)) in *.
  assert (HWpos : (0 < W)%Q) by lra.
  assert (HN0 : (0 <= N)%Q) by lra.
  assert (Hs0 : (0 <= N / W)%Q).
  { apply Qle_shift_div_l; [done|]. lra. }
  assert (Hs0' : (inject_Z nw <= 4 * inject_Z w * (N / W))%Q).
  { assert (E : (N / W * W == N)%Q) by (field; lra).
    set (s0 := (N / W)%Q) in *. nra. }
  pose proof (rnd_lower 24 (N / W) ltac:(lia) Hs0) as Hs.
  set (s := F32.rnd 24 (N / W)) in *. set (s0 := (N / W)%Q) in *.
  assert (Hs0pos : (0 < s0)%Q).
  { destruct (Qlt_le_dec 0 s0) as [|Hneg]; [done|exfalso]. nra. }
  assert (Hspos : (0 < s)%Q) by lra.
  assert (Hq0 : (0 <= K / s)%Q).
  { apply Qle_shift_div_l; [done|]. lra. }
  pose proof (rnd_upper 24 (K / s) ltac:(lia) Hq0) as Hq.
  assert (Hq0' : (K / s <= 16 * inject_Z w)%Q).
  { apply Qle_shift_div_r; [done|]. nra. }
  lra.
Qed.

(** *** The loops *)

Lemma rd_Some_bounds h w (b : bitmap) r c v :
  dims h w b → 0 ≤ r → 0 ≤ c → rd b r c = Some v → r < h ∧ c < w.
Proof.
  unfold rd. intros Hd Hr Hc Hrd.
  destruct (b !! Z.to_nat r) as [row|] eqn:Hrow; simpl in Hrd; [|done].
  pose proof (dims_row _ _ _ _ _ Hd Hrow) as Hlen.
  apply lookup_lt_Some in Hrow, Hrd. destruct Hd as [Hh _].
  unfold len in *. lia.
Qed.

Lemma for_each_split {S} l1 i l2 (body : Z → S → option S) s s' :
  for_each (l1 ++ i :: l2) body s = Some s' →
  ∃ s1 s2, for_each l1 body s = Some s1 ∧ body i s1 = Some s2 ∧
           for_each l2 body s2 = Some s'.
Proof.
  rewrite for_each_app. intros Hrun.
  destruct (for_each l1 body s) as [s1|]; simpl in Hrun; [|done].
  destruct (body i s1) as [s2|] eqn:Hi; simpl in Hrun; [|done].
  exists s1, s2. done.
Qed.

Lemma expand_sample_spec data ps oldRow oldCol col n line line' :
  expand_sample data ps oldRow oldCol col n line = Some line' →
  ∃ v, rd data oldRow (size_t (size_t (oldCol * ps) + n)) = Some v ∧
       size_t (size_t (col * ps) + n) < len line ∧
       line' = <[Z.to_nat (size_t (size_t (col * ps) + n)) := v]> line.
Proof.
  unfold expand_sample. intros H.
  destruct (rd _ _ _) as [v|]; simpl in H; [|done].
  case_decide; [|done]. injection H as <-. eauto.
Qed.

Lemma expand_index ps nw col n :
  nw * ps < 2 ^ 64 → 0 ≤ col < nw → 0 ≤ n < ps →
  size_t (size_t (col * ps) + n) = col * ps + n ∧ 0 ≤ col * ps + n < nw * ps.
Proof.
  intros Hfit Hc Hn. assert (0 ≤ col * ps + n < nw * ps) by nia.
  rewrite (size_t_small (col * ps)) by nia. rewrite size_t_small by lia. done.
Qed.

(** A property of the line that no write at a column of [cols] disturbs. *)
Lemma expand_cols_keeps data ps oldRow oldCol (I : list Z → Prop) cols line line' :
  (∀ col n v t, col ∈ cols → 0 ≤ n < ps → I t →
     size_t (size_t (col * ps) + n) < len t →
     I (<[Z.to_nat (size_t (size_t (col * ps) + n)) := v]> t)) →
  I line → expand_cols data ps oldRow oldCol cols line = Some line' → I line'.
Proof.
  intros Hstep. apply for_each_Some. intros col t t' Hcol Ht.
  apply for_each_Some; [|done]. intros n u u' Hn%elem_of_range Hu Hs.
  destruct (expand_sample_spec _ _ _ _ _ _ _ _ Hs) as (v & _ & Hlt & ->).
  by apply Hstep.
Qed.

Lemma expand_cols_length data ps oldRow oldCol cols line line' :
  expand_cols data ps oldRow oldCol cols line = Some line' → len line' = len line.
Proof.
  apply (expand_cols_keeps _ _ _ _ (λ t, len t = len line)); [|done].
  intros col n v t _ _ Ht _. unfold len in *. by rewrite length_insert.
Qed.

(** What the whole line holds at the place of sample [n] of column [col]:
    the write of that visit is the last one there. *)
Lemma expand_cols_visit data ps nw oldRow oldCol line line' col n :
  nw * ps < 2 ^ 64 →
  expand_cols data ps oldRow oldCol (range 0 nw) line = Some line' →
  0 ≤ col < nw → 0 ≤ n < ps →
  ∃ v, rd data oldRow (size_t (size_t (oldCol col * ps) + n)) = Some v ∧
       line' !! Z.to_nat (col * ps + n) = Some v.
Proof.
  intros Hfit Hrun Hcol Hn. unfold expand_cols in Hrun.
  rewrite (range_split 0 col nw) in Hrun by lia.
  apply for_each_split in Hrun as (t1 & t2 & _ & Hvisit & Hrest).
  rewrite (range_split 0 n ps) in Hvisit by lia.
  apply for_each_split in Hvisit as (u1 & u2 & _ & Hs & Hinner).
  destruct (expand_sample_spec _ _ _ _ _ _ _ _ Hs) as (v & Hv & Hlt & ->).
  destruct (expand_index ps nw col n Hfit Hcol Hn) as [Ei Hi]. rewrite Ei in *.
  exists v. split; [done|].
  assert (H2 : t2 !! Z.to_nat (col * ps + n) = Some v).
  { refine (for_each_Some (λ t, t !! Z.to_nat (col * ps + n) = Some v) _ _ _ _ _ _ Hinner).
    - intros n' u u' Hn'%elem_of_range Hu Hs'.
      destruct (expand_sample_spec _ _ _ _ _ _ _ _ Hs') as (v' & _ & _ & ->).
      destruct (expand_index ps nw col n' Hfit Hcol ltac:(lia)) as [-> ?].
      rewrite list_lookup_insert_ne by lia. done.
    - apply list_lookup_insert_eq. unfold len in Hlt. lia. }
  refine (expand_cols_keeps data ps oldRow oldCol
            (λ t, t !! Z.to_nat (col * ps + n) = Some v)
            (range (col + 1) nw) t2 line' _ H2 Hrest).
  intros col' n' v' t Hcol'%elem_of_range Hn' Ht _.
  destruct (expand_index ps nw col' n' Hfit ltac:(lia) Hn') as [-> ?].
  rewrite list_lookup_insert_ne by nia. done.
Qed.

Lemma scale_index_nonneg s k : 0 ≤ scale_index s k.
Proof.
  unfold scale_index, F32.to_size, F32.mul.
  change 0 with (Qfloor 0). apply Qfloor_resp_le. by apply rnd_nonneg.
Qed.

(** One line of [expand]: where it is built, every sample is the one of the
    source pixel the scale factor selects, and that pixel lies in the image. *)
Lemma expand_line_spec img nw row line :
  wf img → m_width img < nw →
  nw * m_pixelSize img < 2 ^ 64 → m_width img * m_pixelSize img < 2 ^ 58 →
  expand_line (shrink_scaleFactor img nw) (m_bitmapData img) (m_pixelSize img) nw row
    = Some line →
  let old := unscale_index (shrink_scaleFactor img nw) in
  len line = nw * m_pixelSize img ∧ old row < m_height img ∧
  ∀ col n, 0 ≤ col < nw → 0 ≤ n < m_pixelSize img →
    old col < m_width img ∧
    ∃ v, rd (m_bitmapData img) (old row) (old col * m_pixelSize img + n) = Some v ∧
         line !! Z.to_nat (col * m_pixelSize img + n) = Some v.
Proof.
  intros Hwf Hnw Hfit Hsmall Hline old.
  pose proof (wf_ps _ Hwf) as Hps. pose proof (wf_w _ Hwf) as Hw.
  set (ps := m_pixelSize img) in *. set (w := m_width img) in *.
  assert (Hps1 : 1 ≤ ps) by lia. assert (Hnw0 : 0 ≤ nw) by lia.
  unfold expand_line in Hline. cbv zeta in Hline.
  change (for_each (range 0 nw) _) with
    (expand_cols (m_bitmapData img) ps (old row) old (range 0 nw)) in Hline.
  rewrite (size_t_small (nw * ps)) in Hline by (split; [nia|lia]).
  assert (Hvisit : ∀ col n, 0 ≤ col < nw → 0 ≤ n < ps →
    old col < w ∧ old row < m_height img ∧
    ∃ v, rd (m_bitmapData img) (old row) (old col * ps + n) = Some v ∧
         line !! Z.to_nat (col * ps + n) = Some v).
  { intros col n Hcol Hn.
    destruct (expand_cols_visit _ ps nw (old row) old _ _ col n Hfit Hline Hcol Hn)
      as (v & Hv & Hl).
    pose proof (unscale_index_nonneg (shrink_scaleFactor img nw) col) as Hc0.
    pose proof (unscale_index_nonneg (shrink_scaleFactor img nw) row) as Hr0.
    assert (Hc1 : old col ≤ 32 * w) by (apply unscale_index_bound; lia).
    fold old in Hc0, Hr0.
    assert (0 ≤ old col * ps ∧ old col * ps + n < 2 ^ 64) as [? ?].
    { change (2 ^ 58) with 288230376151711744 in Hsmall.
      change (2 ^ 64) with 18446744073709551616. nia. }
    rewrite (size_t_small (old col * ps)) in Hv by lia.
    rewrite size_t_small in Hv by lia.
    destruct (rd_Some_bounds _ _ _ (old row) (old col * ps + n) v (wf_dims _ Hwf) Hr0 ltac:(lia) Hv) as [Hr Hc].
    fold ps w in Hc. split; [nia|]. split; [done|]. eauto. }
  split; [|split].
  - rewrite (expand_cols_length _ _ _ _ _ _ _ Hline).
    unfold len. rewrite length_replicate. nia.
  - destruct (Hvisit 0 0) as (_ & H & _); [lia..|done].
  - intros col n Hcol Hn. destruct (Hvisit col n Hcol Hn) as (? & _ & ?). done.
Qed.

Lemma expand_run img nw out :
  wf img → m_width img < nw →
  nw * m_pixelSize img < 2 ^ 64 → m_width img * m_pixelSize img < 2 ^ 58 →
  expand img nw = Returns out →
  let old := unscale_index (shrink_scaleFactor img nw) in
  let nh := shrink_newHeight img nw in
  1 ≤ nh ∧
  out = mkImage (m_bitmapData out) nw nh (m_pixelSize img) (m_colourSpace img) ∧
  dims nh (nw * m_pixelSize img) (m_bitmapData out) ∧
  ∀ row col n, 0 ≤ row < nh → 0 ≤ col < nw → 0 ≤ n < m_pixelSize img →
    old row < m_height img ∧ old col < m_width img ∧
    ∃ v, rd (m_bitmapData img) (old row) (old col * m_pixelSize img + n) = Some v ∧
         rd (m_bitmapData out) row (col * m_pixelSize img + n) = Some v.
Proof.
  intros Hwf Hnw Hfit Hsmall Hrun old nh.
  pose proof (wf_ps _ Hwf) as Hps. pose proof (wf_w _ Hwf) as Hw.
  unfold expand in Hrun.
  rewrite decide_False in Hrun by lia. rewrite decide_False in Hrun by lia.
  cbv zeta in Hrun. fold (shrink_newHeight img nw) in Hrun. fold nh in Hrun.
  destruct (mapM _ _) as [data|] eqn:Hdata; [|done].
  assert (Hnh0 : 0 ≤ nh) by apply scale_index_nonneg.
  assert (Hlen : len data = nh).
  { unfold len. rewrite <- (length_mapM _ _ _ Hdata). fold (len (range 0 nh)).
    rewrite range_length; lia. }
  assert (Hrows : ∀ row line, 0 ≤ row → data !! Z.to_nat row = Some line →
            expand_line (shrink_scaleFactor img nw) (m_bitmapData img)
              (m_pixelSize img) nw row = Some line).
  { intros row line Hrow Hl. assert (row < nh).
    { apply lookup_lt_Some in Hl. unfold len in Hlen. lia. }
    rewrite <- Hl. symmetry. eapply mapM_lookup; [exact Hdata|].
    apply range_lookup. lia. }
  unfold replace_bitmap in Hrun.
  destruct (data !! 0%nat) as [row0|] eqn:Hrow0; [|done].
  rewrite decide_False in Hrun by lia. injection Hrun as <-. simpl.
  assert (1 ≤ nh).
  { apply lookup_lt_Some in Hrow0. unfold len in Hlen. lia. }
  destruct (expand_line_spec img nw 0 row0 Hwf Hnw Hfit Hsmall (Hrows 0 row0 ltac:(lia) Hrow0))
    as (Hlen0 & _).
  rewrite Hlen0, Hlen, Z.div_mul by lia.
  split; [done|]. split; [done|]. split.
  - split; [done|]. apply Forall_lookup. intros i line Hi.
    rewrite <- (Nat2Z.id i) in Hi.
    by destruct (expand_line_spec img nw _ line Hwf Hnw Hfit Hsmall
                  (Hrows (Z.of_nat i) line ltac:(lia) Hi)).
  - intros row col n Hrow Hcol Hn.
    destruct (lookup_lt_is_Some_2 data (Z.to_nat row)) as [line Hline].
    { unfold len in Hlen. lia. }
    destruct (expand_line_spec img nw row line Hwf Hnw Hfit Hsmall
                (Hrows row line ltac:(lia) Hline))
      as (_ & Hr & Hs).
    destruct (Hs col n Hcol Hn) as (Hc & v & Hv & Hl).
    split; [done|]. split; [done|]. exists v. split; [done|].
    unfold rd. rewrite Hline. done.
Qed.

(** Every byte of the new bitmap is a byte of the old one. *)
Lemma expand_run_bytes img nw out :
  wf img → m_width img < nw →
  nw * m_pixelSize img < 2 ^ 64 → m_width img * m_pixelSize img < 2 ^ 58 →
  expand img nw = Returns out → bytes (m_bitmapData out).
Proof.
  intros Hwf Hnw Hfit Hsmall Hrun.
  destruct (expand_run img nw out Hwf Hnw Hfit Hsmall Hrun) as (Hnh & _ & Hd & Hs).
  pose proof (wf_ps _ Hwf) as Hps. set (ps := m_pixelSize img) in *.
  apply Forall_lookup. intros i line Hi. apply Forall_lookup. intros j v Hj.
  pose proof (dims_row _ _ _ _ _ Hd Hi) as Hlen.
  apply lookup_lt_Some in Hi as Hi'. apply lookup_lt_Some in Hj as Hj'.
  destruct Hd as [Hh _]. unfold len in Hh, Hlen.
  destruct (Hs (Z.of_nat i) (Z.of_nat j / ps) (Z.of_nat j mod ps))
    as (_ & _ & v' & Hv' & Hr); try (Z.div_mod_to_equations; nia).
  replace (Z.of_nat j / ps * ps + Z.of_nat j mod ps) with (Z.of_nat j) in Hr
    by (Z.div_mod_to_equations; nia).
  unfold rd in Hr. rewrite !Nat2Z.id, Hi in Hr. simpl in Hr.
  assert (v = v') as -> by congruence.
  eapply rd_byte; [apply Hwf | exact Hv'].
Qed.

(** Two pixels of two bitmaps that hold the same samples read the same. *)
Lemma getPixel_ext img1 img2 w1 h1 w2 h2 x1 y1 x2 y2 :
  m_pixelSize img1 = m_pixelSize img2 → 1 ≤ m_pixelSize img1 →
  dims h1 (w1 * m_pixelSize img1) (m_bitmapData img1) →
  dims h2 (w2 * m_pixelSize img2) (m_bitmapData img2) →
  w1 * m_pixelSize img1 < 2 ^ 64 → w2 * m_pixelSize img2 < 2 ^ 64 →
  0 ≤ x1 < w1 → 0 ≤ y1 < h1 → 0 ≤ x2 < w2 → 0 ≤ y2 < h2 →
  (∀ n, 0 ≤ n < m_pixelSize img1 →
     rd (m_bitmapData img1) y1 (x1 * m_pixelSize img1 + n)
     = rd (m_bitmapData img2) y2 (x2 * m_pixelSize img2 + n)) →
  getPixel img1 x1 y1 = getPixel img2 x2 y2.
Proof.
  intros Eps Hps Hd1 Hd2 Hf1 Hf2 Hx1 Hy1 Hx2 Hy2 Hsame.
  destruct (getPixel_ok img1 w1 h1 x1 y1) as (v1 & -> & Hl1 & Hv1); try done.
  destruct (getPixel_ok img2 w2 h2 x2 y2) as (v2 & -> & Hl2 & Hv2); try done; [lia|].
  f_equal. apply list_eq. intros i.
  destruct (decide (Z.of_nat i < m_pixelSize img1)) as [Hi|Hi].
  - rewrite <- (Nat2Z.id i). rewrite Hv1, Hv2 by lia. apply Hsame. lia.
  - unfold len in Hl1, Hl2. rewrite !lookup_ge_None_2; [done|lia|lia].
Qed.

(** [expand] to a larger width: when it returns, the object has the new
    width, the height the scale factor gives, its channel count and colour
    space, rows of bytes of the new length, and every pixel is the pixel of
    the old image that the scale factor selects (nearest neighbour, rounding
    down), which lies inside the old image. *)
Theorem expand_returns img newWidth out :
  wf img → m_width img < newWidth →
  newWidth * m_pixelSize img < 2 ^ 64 → m_width img * m_pixelSize img < 2 ^ 58 →
  expand img newWidth = Returns out →
  let old := unscale_index (shrink_scaleFactor img newWidth) in
  m_width out = newWidth ∧ m_height out = shrink_newHeight img newWidth ∧
  1 ≤ m_height out ∧
  m_pixelSize out = m_pixelSize img ∧ m_colourSpace out = m_colourSpace img ∧
  dims (m_height out) (newWidth * m_pixelSize img) (m_bitmapData out) ∧
  bytes (m_bitmapData out) ∧
  ∀ x y, 0 ≤ x < newWidth → 0 ≤ y < m_height out →
    0 ≤ old x < m_width img ∧ 0 ≤ old y < m_height img ∧
    getPixel out x y = getPixel img (old x) (old y).
Proof.
  intros Hwf Hnw Hfit Hsmall Hrun old.
  destruct (expand_run img newWidth out Hwf Hnw Hfit Hsmall Hrun)
    as (Hnh & Hout & Hd & Hs).
  pose proof (wf_ps _ Hwf) as Hps. pose proof (wf_row_bound _ Hwf) as Hrow.
  set (ps := m_pixelSize img) in *.
  rewrite Hout. simpl. rewrite Hout in Hd, Hs. simpl in Hd, Hs.
  set (data := m_bitmapData out) in *.
  split_and!; try done.
  - by eapply expand_run_bytes.
  - intros x y Hx Hy.
    destruct (Hs y x 0) as (Hy' & Hx' & _); [lia..|].
    split; [split; [apply unscale_index_nonneg | done]|].
    split; [split; [apply unscale_index_nonneg | done]|].
    apply (getPixel_ext _ img newWidth (shrink_newHeight img newWidth)
             (m_width img) (m_height img)); simpl; try done; try lia.
    + by apply wf_dims.
    + split; [apply unscale_index_nonneg | done].
    + split; [apply unscale_index_nonneg | done].
    + intros n Hn. destruct (Hs y x n) as (_ & _ & v & Hv & Hr); [lia..|].
      etrans; [exact Hr | symmetry; exact Hv].
Qed.

Lemma expand_returns_witness :
  let out := mkImage [[1; 1; 2; 2]; [1; 1; 2; 2]; [3; 3; 4; 4]; [3; 3; 4; 4]] 4 4 1 0 in
  let img := mkImage [[1; 2]; [3; 4]] 2 2 1 0 in
  let old := unscale_index (shrink_scaleFactor img 4) in
  m_width out = 4 ∧ m_height out = shrink_newHeight img 4 ∧
  1 ≤ m_height out ∧
  m_pixelSize out = m_pixelSize img ∧ m_colourSpace out = m_colourSpace img ∧
  dims (m_height out) (4 * m_pixelSize img) (m_bitmapData out) ∧
  bytes (m_bitmapData out) ∧
  ∀ x y, 0 ≤ x < 4 → 0 ≤ y < m_height out →
    0 ≤ old x < m_width img ∧ 0 ≤ old y < m_height img ∧
    getPixel out x y = getPixel img (old x) (old y).
Proof.
  apply (expand_returns (mkImage [[1; 2]; [3; 4]] 2 2 1 0) 4).
  - wf_by_computation.
  - simpl. lia.
  - by vm_compute.
  - by vm_compute.
  - vm_compute. reflexivity.
Defined.

(** *** The float operations, to the last place *)

Lemma rel_le (P m n : Z) (d A B : positive) :
  P * (m * (Z.pos d * Z.pos B) - n * Z.pos A) ≤ n * Z.pos A →
  (inject_Z P * (inject_Z m * (inject_Z (Z.pos B) / inject_Z (Z.pos A)) - (n # d)) <= (n # d))%Q.
Proof.
  intros H. unfold Qle, Qdiv, Qmult, Qminus, Qplus, Qopp, Qinv, inject_Z. simpl.
  rewrite !Pos.mul_1_l, !Z.mul_1_r, !Pos2Z.inj_mul.
  apply (Z.mul_le_mono_nonneg_r _ _ (Z.pos d)) in H; [|lia].
  ring_simplify in H. ring_simplify. lia.
Qed.

Lemma rel_ge (P m n : Z) (d A B : positive) :
  P * (n * Z.pos A - m * (Z.pos d * Z.pos B)) ≤ n * Z.pos A →
  (inject_Z P * ((n # d) - inject_Z m * (inject_Z (Z.pos B) / inject_Z (Z.pos A))) <= (n # d))%Q.
Proof.
  intros H. unfold Qle, Qdiv, Qmult, Qminus, Qplus, Qopp, Qinv, inject_Z. simpl.
  rewrite !Pos.mul_1_l, !Z.mul_1_r, !Pos2Z.inj_mul.
  apply (Z.mul_le_mono_nonneg_r _ _ (Z.pos d)) in H; [|lia].
  ring_simplify in H. ring_simplify. lia.
Qed.

(** Rounding to [prec] bits moves a positive value by at most one unit in
    the last place, which is at most [2^-(prec-1)] of the value. *)
Lemma rnd_rel_pos prec n dp :
  1 ≤ prec → 0 < n →
  (inject_Z (2 ^ (prec - 1)) * (F32.rnd prec (n # dp) - (n # dp)) <= (n # dp) ∧
   inject_Z (2 ^ (prec - 1)) * ((n # dp) - F32.rnd prec (n # dp)) <= (n # dp))%Q.
Proof.
  intros Hprec Hn. unfold F32.rnd. simpl Qnum. simpl Qden.
  rewrite (proj2 (Z.leb_gt n 0)) by lia.
  unfold F32.scaled. cbv beta iota zeta.
  set (d := Z.pos dp).
  set (e0 := Z.log2 n - Z.log2 d - prec).
  pose proof (Z.log2_spec n Hn) as [Hn1 _].
  pose proof (Z.log2_spec d ltac:(lia)) as [_ Hd2].
  pose proof (Z.log2_nonneg n) as HLn. pose proof (Z.log2_nonneg d) as HLd.
  assert (Hpp : 0 < 2 ^ (prec - 1)) by (apply Z.pow_pos_nonneg; lia).
  assert (H0 : 2 ^ (prec - 1) * (d * 2 ^ Z.max 0 e0) ≤ n * 2 ^ Z.max 0 (- e0)).
  { set (a := Z.max 0 (- e0)). set (b := Z.max 0 e0).
    assert (0 < 2 ^ a) by (apply Z.pow_pos_nonneg; lia).
    assert (0 < 2 ^ b) by (apply Z.pow_pos_nonneg; lia).
    assert (H1 : 2 ^ (Z.log2 n + a) ≤ n * 2 ^ a) by (rewrite Z.pow_add_r by lia; nia).
    assert (H2 : 2 ^ (prec - 1) * (d * 2 ^ b) ≤ 2 ^ ((prec - 1) + (Z.succ (Z.log2 d) + b))).
    { rewrite (Z.pow_add_r 2 (prec - 1)), (Z.pow_add_r 2 (Z.succ _)) by lia. nia. }
    assert (H3 : 2 ^ ((prec - 1) + (Z.succ (Z.log2 d) + b)) ≤ 2 ^ (Z.log2 n + a))
      by (apply Z.pow_le_mono_r; lia).
    lia. }
  set (e := if _ <? _ then e0 else e0 + 1).
  assert (Hbig : 2 ^ (prec - 1) * (d * 2 ^ Z.max 0 e) ≤ n * 2 ^ Z.max 0 (- e)).
  { unfold e. destruct (Z.ltb_spec (n * 2 ^ Z.max 0 (- e0)) (2 ^ prec * (d * 2 ^ Z.max 0 e0)))
      as [_|Hge]; [exact H0|].
    set (a0 := Z.max 0 (- e0)) in *. set (b0 := Z.max 0 e0) in *.
    set (a := Z.max 0 (- (e0 + 1))). set (b := Z.max 0 (e0 + 1)).
    assert (Hpa0 : 0 < 2 ^ a0) by (apply Z.pow_pos_nonneg; lia).
    assert (Hpb0 : 0 < 2 ^ b0) by (apply Z.pow_pos_nonneg; lia).
    assert (Hpa : 0 < 2 ^ a) by (apply Z.pow_pos_nonneg; lia).
    assert (Hpb : 0 < 2 ^ b) by (apply Z.pow_pos_nonneg; lia).
    assert (Hrel : 2 ^ a * 2 * 2 ^ b0 = 2 ^ a0 * 2 ^ b).
    { rewrite <- (Z.pow_1_r 2) at 2. rewrite <- !Z.pow_add_r by lia. f_equal. lia. }
    assert (Hprec2 : 2 ^ prec = 2 * 2 ^ (prec - 1)).
    { replace prec with (1 + (prec - 1)) at 1 by lia. by rewrite Z.pow_add_r by lia. }
    rewrite Hprec2 in Hge.
    assert (2 ^ (prec - 1) * (d * 2 ^ b) * (2 * 2 ^ b0) ≤ n * 2 ^ a * (2 * 2 ^ b0)) by nia.
    nia. }
  clearbody e.
  set (a := Z.max 0 (- e)) in *. set (b := Z.max 0 e) in *.
  assert (Hpa : 0 < 2 ^ a) by (apply Z.pow_pos_nonneg; lia).
  assert (Hpb : 0 < 2 ^ b) by (apply Z.pow_pos_nonneg; lia).
  destruct (half_even_bounds (n * 2 ^ a) (d * 2 ^ b)) as (Hm0 & Hm1 & Hm2); [nia..|].
  set (m := F32.half_even (n * 2 ^ a) (d * 2 ^ b)) in *.
  rewrite Qred_correct, pow2_Q. fold a b.
  destruct (2 ^ a) as [|pa|] eqn:Ea; try lia.
  destruct (2 ^ b) as [|pb|] eqn:Eb; try lia.
  unfold d in *. split.
  - apply rel_le. nia.
  - apply rel_ge. nia.
Qed.

(** For binary32: within [2^-23] of the value. *)
Lemma rnd24_rel x :
  (0 <= x → 8388608 * F32.rnd 24 x <= 8388609 * x ∧ 8388607 * x <= 8388608 * F32.rnd 24 x)%Q.
Proof.
  intros Hx. destruct x as [n dp]. destruct (Z.le_gt_cases n 0) as [Hn|Hn].
  - unfold F32.rnd. simpl Qnum. rewrite (proj2 (Z.leb_le n 0)) by done.
    unfold Qle in *. simpl in *. lia.
  - destruct (rnd_rel_pos 24 n dp ltac:(lia) Hn) as [H1 H2].
    change (inject_Z (2 ^ (24 - 1))) with 8388608%Q in H1, H2.
    set (r := F32.rnd 24 (n # dp)) in *. lra.
Qed.

(** The scale factor is the ratio of the widths, within [2^-21]. *)
Lemma scale_bounds img newWidth :
  1 ≤ m_width img → 1 ≤ newWidth →
  (0 < shrink_scaleFactor img newWidth ∧
   2097151 * inject_Z newWidth
     <= 2097152 * (shrink_scaleFactor img newWidth * inject_Z (m_width img)) ∧
   2097152 * (shrink_scaleFactor img newWidth * inject_Z (m_width img))
     <= 2097153 * inject_Z newWidth)%Q.
Proof.
  intros Hw Hnw. unfold shrink_scaleFactor, F32.div, F32.of_size.
  set (w := m_width img) in *. set (nw := newWidth) in *.
  assert (Qw : (1 <= inject_Z w)%Q) by (rewrite <- (Zle_Qle 1); lia).
  assert (Qn : (1 <= inject_Z nw)%Q) by (rewrite <- (Zle_Qle 1); lia).
  destruct (rnd24_rel (inject_Z nw) ltac:(lra)) as [HN1 HN2].
  destruct (rnd24_rel (inject_Z w) ltac:(lra)) as [HW1 HW2].
  set (N := F32.rnd 24 (inject_Z nw)) in *. set (W := F32.rnd 24 (inject_Z w)) in *.
  set (a := inject_Z nw) in *. set (b := inject_Z w) in *.
  assert (HWpos : (0 < W)%Q) by lra.
  assert (Hs0 : (0 <= N / W)%Q) by (apply Qle_shift_div_l; [done|lra]).
  assert (E : (N / W * W == N)%Q) by (field; lra).
  destruct (rnd24_rel (N / W) Hs0) as [HS1 HS2].
  set (s0 := (N / W)%Q) in *. set (t := F32.rnd 24 s0) in *.
  assert (Hs0pos : (0 < s0)%Q).
  { destruct (Qlt_le_dec 0 s0) as [|Hneg]; [done|exfalso]. nra. }
  assert (Htpos : (0 < t)%Q) by lra.
  split; [done|].
  assert (HtW1 : (8388608 * (t * W) <= 8388609 * N)%Q) by nra.
  assert (HtW2 : (8388607 * N <= 8388608 * (t * W))%Q) by nra.
  assert (Htb1 : (8388607 * (t * b) <= 8388608 * (t * W))%Q) by nra.
  assert (Htb2 : (8388608 * (t * W) <= 8388609 * (t * b))%Q) by nra.
  set (tb := (t * b)%Q) in *. set (tW := (t * W)%Q) in *.
  split; lra.
Qed.

Lemma Qfloor_lt_Z (q : Q) (z : Z) : (q < inject_Z z)%Q → Qfloor q < z.
Proof.
  intros Hq. pose proof (Qfloor_le q) as Hf.
  rewrite Zlt_Qlt. eapply Qle_lt_trans; eauto.
Qed.

Lemma Qfloor_ge_Z (q : Q) (z : Z) : (inject_Z z <= q)%Q → z ≤ Qfloor q.
Proof.
  intros Hq. rewrite <- (Qfloor_Z z). by apply Qfloor_resp_le.
Qed.

Lemma Qsucc_le (k n : Z) : k < n → (inject_Z k + 1 <= inject_Z n)%Q.
Proof.
  intros Hk. change 1%Q with (inject_Z 1). rewrite <- inject_Z_plus, <- Zle_Qle. lia.
Qed.

(** Every new column comes from a column of the old image. *)
Lemma unscale_index_col img newWidth k :
  1 ≤ m_width img → m_width img < newWidth → newWidth ≤ 2 ^ 20 →
  0 ≤ k < newWidth →
  unscale_index (shrink_scaleFactor img newWidth) k < m_width img.
Proof.
  intros Hw Hnw Hsmall Hk.
  destruct (scale_bounds img newWidth Hw ltac:(lia)) as (Hs & Hlo & Hhi).
  set (s := shrink_scaleFactor img newWidth) in *.
  set (w := m_width img) in *. set (nw := newWidth) in *.
  unfold unscale_index, F32.to_size, F32.div, F32.of_size. apply Qfloor_lt_Z.
  assert (Qk : (0 <= inject_Z k)%Q) by (rewrite <- (Zle_Qle 0); lia).
  assert (Qkn : (inject_Z k + 1 <= inject_Z nw)%Q) by (apply Qsucc_le; lia).
  assert (Qn : (inject_Z nw <= 1048576)%Q).
  { change 1048576%Q with (inject_Z (2 ^ 20)). rewrite <- Zle_Qle. lia. }
  destruct (rnd24_rel (inject_Z k) Qk) as [HK1 HK2].
  set (K := F32.rnd 24 (inject_Z k)) in *.
  assert (HK0 : (0 <= K)%Q) by lra.
  assert (Hq0 : (0 <= K / s)%Q) by (apply Qle_shift_div_l; [done|lra]).
  assert (E : (K / s * s == K)%Q) by (field; lra).
  destruct (rnd24_rel (K / s) Hq0) as [Hq1 _].
  set (q0 := (K / s)%Q) in *. set (q := F32.rnd 24 q0) in *.
  destruct (Qlt_le_dec q (inject_Z w)) as [|Hge]; [done|exfalso].
  assert (Hqs : (8388608 * (q * s) <= 8388609 * K)%Q) by nra.
  assert (Hws : (s * inject_Z w <= q * s)%Q) by nra.
  set (qs := (q * s)%Q) in *. set (sw := (s * inject_Z w)%Q) in *.
  lra.
Qed.

(** The new image has at least one row. *)
Lemma scale_index_height img newWidth :
  1 ≤ m_width img → 1 ≤ m_height img → m_width img < newWidth → newWidth ≤ 2 ^ 20 →
  1 ≤ shrink_newHeight img newWidth.
Proof.
  intros Hw Hh Hnw Hsmall. unfold shrink_newHeight.
  destruct (scale_bounds img newWidth Hw ltac:(lia)) as (Hs & Hlo & Hhi).
  set (s := shrink_scaleFactor img newWidth) in *.
  set (w := m_width img) in *. set (h := m_height img) in *. set (nw := newWidth) in *.
  unfold scale_index, F32.to_size, F32.mul, F32.of_size. apply Qfloor_ge_Z.
  assert (Qw : (1 <= inject_Z w)%Q) by (rewrite <- (Zle_Qle 1); lia).
  assert (Qh : (1 <= inject_Z h)%Q) by (rewrite <- (Zle_Qle 1); lia).
  assert (Qwn : (inject_Z w + 1 <= inject_Z nw)%Q) by (apply Qsucc_le; lia).
  assert (Qn : (inject_Z nw <= 1048576)%Q).
  { change 1048576%Q with (inject_Z (2 ^ 20)). rewrite <- Zle_Qle. lia. }
  destruct (rnd24_rel (inject_Z h) ltac:(lra)) as [_ HH].
  set (H := F32.rnd 24 (inject_Z h)) in *.
  assert (HsH : (0 <= s * H)%Q) by nra.
  destruct (rnd24_rel (s * H) HsH) as [_ HP].
  set (P := F32.rnd 24 (s * H)) in *.
  destruct (Qlt_le_dec P 1) as [Hlt|]; [exfalso|done].
  assert (H1 : (8388607 * s <= 8388608 * (s * H))%Q) by nra.
  assert (H2 : (P * inject_Z w < inject_Z w)%Q) by nra.
  assert (H3 : (8388607 * (s * H * inject_Z w) <= 8388608 * (P * inject_Z w))%Q) by nra.
  assert (H4 : (8388607 * (s * inject_Z w) <= 8388608 * (s * H * inject_Z w))%Q) by nra.
  set (sw := (s * inject_Z w)%Q) in *. set (sHw := (s * H * inject_Z w)%Q) in *.
  set (Pw := (P * inject_Z w)%Q) in *.
  lra.
Qed.

(** The scaled height, and the row of the old image a new row comes from. *)
Lemma unscale_index_row img newWidth k :
  1 ≤ m_width img → 1 ≤ m_height img → m_width img < newWidth →
  m_height img * newWidth ≤ 2 ^ 20 * m_width img →
  0 ≤ k < shrink_newHeight img newWidth →
  unscale_index (shrink_scaleFactor img newWidth) k < m_height img ∧
  shrink_newHeight img newWidth < 2 ^ 21.
Proof.
  intros Hw Hh Hnw Harea Hk. unfold shrink_newHeight in *.
  destruct (scale_bounds img newWidth Hw ltac:(lia)) as (Hs & Hlo & Hhi).
  set (s := shrink_scaleFactor img newWidth) in *.
  set (w := m_width img) in *. set (h := m_height img) in *. set (nw := newWidth) in *.
  assert (Qw : (1 <= inject_Z w)%Q) by (rewrite <- (Zle_Qle 1); lia).
  assert (Qh : (1 <= inject_Z h)%Q) by (rewrite <- (Zle_Qle 1); lia).
  assert (Qk : (0 <= inject_Z k)%Q) by (rewrite <- (Zle_Qle 0); lia).
  assert (Qarea : (inject_Z h * inject_Z nw <= 1048576 * inject_Z w)%Q).
  { change 1048576%Q with (inject_Z (2 ^ 20)). rewrite <- !inject_Z_mult, <- Zle_Qle. lia. }
  revert Hk. unfold scale_index, unscale_index, F32.to_size, F32.mul, F32.div, F32.of_size.
  destruct (rnd24_rel (inject_Z h) ltac:(lra)) as [HH _].
  set (H := F32.rnd 24 (inject_Z h)) in *.
  assert (HH0 : (0 <= H)%Q) by (apply rnd_nonneg; lia).
  assert (HsH : (0 <= s * H)%Q) by nra.
  destruct (rnd24_rel (s * H) HsH) as [HP _].
  set (P := F32.rnd 24 (s * H)) in *. intros Hk.
  assert (QkP : (inject_Z k + 1 <= P)%Q).
  { eapply Qle_trans; [|apply (Qfloor_le P)]. apply Qsucc_le. lia. }
  destruct (rnd24_rel (inject_Z k) Qk) as [HR _].
  set (R := F32.rnd 24 (inject_Z k)) in *.
  assert (HR0 : (0 <= R)%Q) by (apply rnd_nonneg; lia).
  assert (Hq0 : (0 <= R / s)%Q) by (apply Qle_shift_div_l; [done|lra]).
  assert (E : (R / s * s == R)%Q) by (field; lra).
  destruct (rnd24_rel (R / s) Hq0) as [Hq _].
  set (q0 := (R / s)%Q) in *. set (q := F32.rnd 24 q0) in *.
  assert (Hshw : (2097152 * (s * inject_Z h * inject_Z w)
                  <= 2097153 * (inject_Z h * inject_Z nw))%Q) by nra.
  assert (Hsh : (2097152 * (s * inject_Z h) <= 2097153 * 1048576)%Q) by nra.
  assert (HsH' : (8388608 * (s * H) <= 8388609 * (s * inject_Z h))%Q) by nra.
  set (sh := (s * inject_Z h)%Q) in *. set (sH := (s * H)%Q) in *.
  split.
  - apply Qfloor_lt_Z.
    destruct (Qlt_le_dec q (inject_Z h)) as [|Hge]; [done|exfalso].
    assert (Hqs : (8388608 * (q * s) <= 8388609 * R)%Q) by nra.
    assert (Hhs : (sh <= q * s)%Q) by (unfold sh; nra).
    set (qs := (q * s)%Q) in *. lra.
  - apply Qfloor_lt_Z. change (inject_Z (2 ^ 21)) with 2097152%Q. lra.
Qed.

(** *** expand runs to the end *)

Lemma expand_cols_runs data ps nw h w oldRow oldCol line :
  dims h (w * ps) data → 1 ≤ ps → nw * ps < 2 ^ 64 → w * ps < 2 ^ 64 →
  0 ≤ oldRow < h → (∀ col, 0 ≤ col < nw → 0 ≤ oldCol col < w) →
  len line = nw * ps →
  ∃ line', expand_cols data ps oldRow oldCol (range 0 nw) line = Some line'.
Proof.
  intros Hd Hps Hfit Hrow Hr Hcols Hlen.
  destruct (for_each_inv (λ t, len t = nw * ps) (λ _ _, True) (range 0 nw)
              (λ col, for_each (range 0 ps)
                        (expand_sample data ps oldRow (oldCol col) col)))
    with (s := line) as (line' & Hrun & _); [done|done| |done|by exists line'].
  intros col t Hcol%elem_of_range Ht.
  apply (for_each_inv (λ t, len t = nw * ps) (λ _ _, True)); [done|done| |done].
  intros n u Hn%elem_of_range Hu. unfold expand_sample.
  destruct (expand_index ps nw col n Hfit Hcol Hn) as [-> Hi].
  specialize (Hcols col Hcol).
  rewrite (size_t_small (oldCol col * ps)) by nia.
  rewrite size_t_small by nia.
  destruct (rd_ok h (w * ps) data oldRow (oldCol col * ps + n) Hd Hr) as [v ->]; [nia|].
  simpl. rewrite decide_True by lia.
  eexists. split; [done|]. split; [|done]. unfold len in *. by rewrite length_insert.
Qed.

(** Within these sizes no index of [expand] leaves a vector. *)
Lemma expand_runs img newWidth :
  wf img → m_width img < newWidth → newWidth ≤ 2 ^ 20 →
  m_height img * newWidth ≤ 2 ^ 20 * m_width img →
  ∃ out, expand img newWidth = Returns out.
Proof.
  intros Hwf Hnw Hsmall Harea.
  pose proof (wf_ps _ Hwf) as Hps. pose proof (wf_w _ Hwf) as Hw.
  pose proof (wf_h _ Hwf) as Hh. pose proof (wf_dims _ Hwf) as Hd.
  change (2 ^ 20) with 1048576 in Hsmall.
  assert (Hfit : newWidth * m_pixelSize img < 2 ^ 64).
  { change (2 ^ 64) with 18446744073709551616. nia. }
  assert (Hrow64 : m_width img * m_pixelSize img < 2 ^ 64).
  { change (2 ^ 64) with 18446744073709551616. nia. }
  assert (Hnh : 1 ≤ shrink_newHeight img newWidth)
    by (apply scale_index_height; done || lia).
  unfold expand. rewrite decide_False by lia. rewrite decide_False by lia. cbv zeta.
  fold (shrink_newHeight img newWidth).
  destruct (mapM_total (expand_line (shrink_scaleFactor img newWidth) (m_bitmapData img)
                          (m_pixelSize img) newWidth)
              (range 0 (shrink_newHeight img newWidth))) as (data & -> & Hlen).
  - intros row Hrow%elem_of_range.
    destruct (unscale_index_row img newWidth row Hw Hh Hnw Harea Hrow) as [Hold _].
    unfold expand_line. cbv zeta.
    destruct (expand_cols_runs (m_bitmapData img) (m_pixelSize img) newWidth
                (m_height img) (m_width img)
                (unscale_index (shrink_scaleFactor img newWidth) row)
                (unscale_index (shrink_scaleFactor img newWidth))
                (replicate (Z.to_nat (size_t (newWidth * m_pixelSize img))) 0))
      as [line Hline]; try done; try lia.
    { split; [apply unscale_index_nonneg | done]. }
    { intros col Hcol. split; [apply unscale_index_nonneg|].
      apply unscale_index_col; done || lia. }
    { unfold len. rewrite length_replicate, size_t_small by nia. nia. }
  - fold (len data) in Hlen. unfold replace_bitmap.
    destruct (data !! 0%nat) as [row0|] eqn:Hrow0.
    + rewrite decide_False by lia. eauto.
    + apply lookup_ge_None in Hrow0.
      pose proof (range_length 0 (shrink_newHeight img newWidth) ltac:(lia)) as Hr.
      unfold len in Hr. lia.
Qed.

(** [expand] to a larger width of at most 2^20, with a scaled height of at
    most about 2^20, always returns: the scale factor, the new height and
    every quotient [k / scaleFactor] are rounded to binary32, and within
    these sizes no rounded index leaves the old image.  The object is again
    well formed and has the width asked for; every pixel of it is the pixel
    of the old image the scale factor selects. *)
Theorem expand_total img newWidth :
  wf img → m_width img < newWidth → newWidth ≤ 2 ^ 20 →
  m_height img * newWidth ≤ 2 ^ 20 * m_width img →
  ∃ out, expand img newWidth = Returns out ∧ wf out ∧
    m_width out = newWidth ∧ m_height out = shrink_newHeight img newWidth ∧
    m_pixelSize out = m_pixelSize img ∧ m_colourSpace out = m_colourSpace img ∧
    ∀ x y, 0 ≤ x < newWidth → 0 ≤ y < m_height out →
      getPixel out x y
      = getPixel img (unscale_index (shrink_scaleFactor img newWidth) x)
                     (unscale_index (shrink_scaleFactor img newWidth) y).
Proof.
  intros Hwf Hnw Hsmall Harea.
  pose proof (wf_ps _ Hwf) as Hps. pose proof (wf_w _ Hwf) as Hw.
  pose proof (wf_h _ Hwf) as Hh. pose proof (wf_dims _ Hwf) as Hd.
  assert (Hfit : newWidth * m_pixelSize img < 2 ^ 64).
  { change (2 ^ 20) with 1048576 in Hsmall.
    change (2 ^ 64) with 18446744073709551616. nia. }
  assert (Hrow58 : m_width img * m_pixelSize img < 2 ^ 58).
  { change (2 ^ 20) with 1048576 in Hsmall.
    change (2 ^ 58) with 288230376151711744. nia. }
  assert (Hrow64 : m_width img * m_pixelSize img < 2 ^ 64).
  { change (2 ^ 64) with 18446744073709551616. nia. }
  assert (Hnh : 1 ≤ shrink_newHeight img newWidth)
    by (apply scale_index_height; done || lia).
  destruct (expand_runs img newWidth Hwf Hnw) as [out Hrun]; [done..|].
  change (2 ^ 20) with 1048576 in Hsmall.
  exists out. split; [done|].
  destruct (expand_run img newWidth out Hwf Hnw Hfit Hrow58 Hrun) as (_ & Hout & Hdims & Hs).
  pose proof (expand_run_bytes img newWidth out Hwf Hnw Hfit Hrow58 Hrun) as Hbytes.
  assert (Hnh21 : shrink_newHeight img newWidth < 2 ^ 21).
  { apply (unscale_index_row img newWidth 0 Hw Hh Hnw Harea). lia. }
  change (2 ^ 21) with 2097152 in Hnh21.
  rewrite Hout. simpl. rewrite Hout in Hdims, Hbytes. simpl in Hdims, Hbytes.
  split; [|split_and!; try done].
  - split; simpl; try done; try lia.
    + apply Hdims.
    + destruct Hdims as [_ Hcols]. exact Hcols.
    + change (2 ^ 64) with 18446744073709551616. nia.
  - intros x y Hx Hy.
    destruct (Hs y x 0) as (Hy' & Hx' & _); [lia..|].
    apply (getPixel_ext _ img newWidth (shrink_newHeight img newWidth)
             (m_width img) (m_height img)); simpl; try done; try lia.
    + split; [apply unscale_index_nonneg | done].
    + split; [apply unscale_index_nonneg | done].
    + intros n Hn. destruct (Hs y x n) as (_ & _ & v & Hv & Hr); [lia..|].
      etrans; [exact Hr | symmetry; exact Hv].
Qed.

Lemma expand_total_witness :
  ∃ out, expand (mkImage [[1; 2]; [3; 4]] 2 2 1 0) 4 = Returns out ∧ wf out ∧
    m_width out = 4 ∧ m_height out = shrink_newHeight (mkImage [[1; 2]; [3; 4]] 2 2 1 0) 4 ∧
    m_pixelSize out = 1 ∧ m_colourSpace out = 0 ∧
    ∀ x y, 0 ≤ x < 4 → 0 ≤ y < m_height out →
      getPixel out x y
      = getPixel (mkImage [[1; 2]; [3; 4]] 2 2 1 0)
          (unscale_index (shrink_scaleFactor (mkImage [[1; 2]; [3; 4]] 2 2 1 0) 4) x)
          (unscale_index (shrink_scaleFactor (mkImage [[1; 2]; [3; 4]] 2 2 1 0) 4) y).
Proof.
  apply (expand_total (mkImage [[1; 2]; [3; 4]] 2 2 1 0) 4).
  - wf_by_computation.
  - simpl. lia.
  - by vm_compute.
  - by vm_compute.
Defined.

(** ** resize *)

(** [resize] on a well-formed image.  Width 0 throws out of [shrink] and
    leaves the object; the width the image has returns it untouched; a larger
    width of at most 2^20, with a scaled height of at most about 2^20, always
    returns; and whenever [resize] returns, to a smaller or a larger width,
    the object has the width asked for, at least one row, the channel count
    and colour space it had, and rows of bytes of the new length. *)
Theorem resize_outcome img newWidth :
  wf img → 0 ≤ newWidth →
  newWidth * m_pixelSize img < 2 ^ 64 → m_width img * m_pixelSize img < 2 ^ 58 →
  (newWidth = 0 →
     resize img newWidth = Throws (out_of_range "New width cannot be zero") img) ∧
  (newWidth = m_width img → resize img newWidth = Returns img) ∧
  (m_width img < newWidth → newWidth ≤ 2 ^ 20 →
   m_height img * newWidth ≤ 2 ^ 20 * m_width img →
     ∃ out, resize img newWidth = Returns out) ∧
  ∀ out, resize img newWidth = Returns out →
    m_width out = newWidth ∧ 1 ≤ m_height out ∧
    m_pixelSize out = m_pixelSize img ∧ m_colourSpace out = m_colourSpace img ∧
    dims (m_height out) (newWidth * m_pixelSize img) (m_bitmapData out) ∧
    bytes (m_bitmapData out) ∧
    (newWidth < m_width img → m_height out < m_height img) ∧
    (m_width img < newWidth → m_height out = shrink_newHeight img newWidth).
Proof.
  intros Hwf Hnw Hfit Hsmall. pose proof (wf_w _ Hwf) as Hw.
  split; [|split; [|split]].
  - intros ->. unfold resize, shrink.
    rewrite decide_True by lia. rewrite decide_False by lia. by rewrite decide_True.
  - intros ->. unfold resize. by rewrite !decide_False by lia.
  - intros Hgt H20 Harea. unfold resize.
    rewrite decide_False by lia. rewrite decide_True by lia.
    by apply expand_runs.
  - intros out. unfold resize.
    destruct (decide (newWidth < m_width img)) as [Hlt|Hge].
    + intros Hrun. destruct (decide (newWidth = 0)) as [->|Hpos].
      { unfold shrink in Hrun. rewrite decide_False in Hrun by lia.
        by rewrite decide_True in Hrun. }
      destruct (shrink_run img newWidth out Hwf ltac:(lia) Hlt Hrun)
        as (Hout & Ew & Eps & Ecs & Hh).
      pose proof (wf_dims _ Hout) as Hd. rewrite Ew, Eps in Hd.
      split_and!; try done; try lia.
      * apply Hout.
      * apply Hout.
    + destruct (decide (m_width img < newWidth)) as [Hgt|Heq].
      * intros Hrun.
        destruct (expand_run img newWidth out Hwf Hgt Hfit Hsmall Hrun)
          as (Hnh & Hout & Hd & Hs).
        pose proof (expand_run_bytes img newWidth out Hwf Hgt Hfit Hsmall Hrun) as Hb.
        rewrite Hout. simpl. rewrite Hout in Hd. simpl in Hd.
        split_and!; try done; lia.
      * intros [= <-]. assert (newWidth = m_width img) as -> by lia.
        split_and!; try done; try lia; try apply Hwf. by apply wf_dims.
Qed.

Lemma resize_outcome_witness :
  let img := mkImage [[1; 2]; [3; 4]] 2 2 1 0 in
  let out := mkImage [[1; 1; 2; 2]; [1; 1; 2; 2]; [3; 3; 4; 4]; [3; 3; 4; 4]] 4 4 1 0 in
  resize img 4 = Returns out ∧
  m_width out = 4 ∧ 1 ≤ m_height out ∧
  m_pixelSize out = m_pixelSize img ∧ m_colourSpace out = m_colourSpace img ∧
  dims (m_height out) (4 * m_pixelSize img) (m_bitmapData out) ∧
  bytes (m_bitmapData out) ∧
  (4 < m_width img → m_height out < m_height img) ∧
  (m_width img < 4 → m_height out = shrink_newHeight img 4).
Proof.
  split; [vm_compute; reflexivity|].
  apply (resize_outcome (mkImage [[1; 2]; [3; 4]] 2 2 1 0) 4).
  - wf_by_computation.
  - lia.
  - by vm_compute.
  - by vm_compute.
  - vm_compute. reflexivity.
Defined.

(** ** fsd leaves black and white *)

Lemma fsd_dither_levels w h g r c :
  1 ≤ w < 2 ^ 64 → 1 ≤ h < 2 ^ 64 → dims h w g → 0 ≤ r < h → 0 ≤ c < w →
  ∃ d, fsd_dither w h g = Some d ∧ dims h w d ∧
    (rd d r c = Some 0 ∨ rd d r c = Some 255).
Proof.
  intros Hw Hh Hd Hr Hc.
  destruct (fsd_dither_visit w h Hw Hh g r c Hd Hr Hc)
    as (b0 & b1 & d & _ & Hd0 & Hstep & Hrun & Hdd & Hfin).
  exists d. split; [done|]. split; [done|]. rewrite Hfin.
  destruct (decide (fsd_border w h r c)) as [Hb|Hb].
  - destruct (fsd_pixel_border w h Hw Hh r c b0 Hd0 Hr Hc Hb) as (b' & Hb' & _ & Hv & _).
    assert (b' = b1) as -> by congruence. by right.
  - destruct (fsd_pixel_interior w h Hw Hh r c b0 Hd0 Hr Hc Hb)
      as (b' & old & _ & Hb' & _ & Hv & _).
    assert (b' = b1) as -> by congruence. rewrite Hv.
    unfold fsd_newPixel. case_decide; auto.
Qed.

(** The bitmap [fsd] leaves, sample by sample. *)
Lemma fsd_run_data img :
  wf img → m_pixelSize img = 3 →
  ∃ g d data,
    toGray img = Some g ∧ dims (m_height img) (m_width img) g ∧
    fsd_dither (m_width img) (m_height img) g = Some d ∧
    dims (m_height img) (m_width img) d ∧
    dims (m_height img) (3 * m_width img) data ∧
    fsd img = Returns (mkImage data (m_width img) (m_height img) 3 (m_colourSpace img)) ∧
    ∀ r c j, 0 ≤ r < m_height img → 0 ≤ c < m_width img → 0 ≤ j < 3 →
      rd data r (3 * c + j) = rd d r c.
Proof.
  intros Hwf Hps. pose proof (wf_row_bound _ Hwf) as Hrow. rewrite Hps in Hrow.
  pose proof (wf_w _ Hwf) as Hw. pose proof (wf_h _ Hwf) as Hh.
  pose proof (wf_size _ Hwf) as Hsize. rewrite Hps in Hsize.
  set (w := m_width img) in *. set (h := m_height img) in *.
  assert (Hw64 : 1 ≤ w < 2 ^ 64) by lia. assert (Hh64 : 1 ≤ h < 2 ^ 64) by nia.
  destruct (toGray_ok img Hwf Hps) as (g & Hg & Hdg & _). fold w h in Hdg.
  destruct (fsd_dither_levels w h g 0 0 Hw64 Hh64 Hdg) as (d & Hd & Hdd & _); [lia..|].
  destruct (toRGB_ok w h d) as (data & Hdata & Hdims & Hpx); [lia..|done|].
  destruct (dims_lookup h (3 * w) data 0 Hdims) as (row0 & Hrow0 & Hlen0); [lia|].
  change (Z.to_nat 0) with 0%nat in Hrow0.
  exists g, d, data. split_and!; try done.
  unfold fsd. fold w h. rewrite Hg. simpl. rewrite Hd. simpl. rewrite Hdata.
  unfold rebuild. rewrite Hrow0, Hlen0. destruct Hdims as [-> _].
  do 3 f_equal. rewrite Z.mul_comm. apply Z.div_mul. done.
Qed.

(** A bitmap is made of bytes when every sample read from it is one. *)
Lemma bytes_by_sample h w (data : bitmap) :
  dims h w data →
  (∀ r c, 0 ≤ r < h → 0 ≤ c < w → ∃ v, rd data r c = Some v ∧ is_byte v) →
  bytes data.
Proof.
  intros Hd Hpx. apply Forall_lookup. intros i line Hi. apply Forall_lookup. intros k v Hk.
  pose proof (dims_row _ _ _ _ _ Hd Hi) as Hlen.
  apply lookup_lt_Some in Hi as Hi'. apply lookup_lt_Some in Hk as Hk'.
  destruct Hd as [Hh _]. unfold len in Hh, Hlen.
  destruct (Hpx (Z.of_nat i) (Z.of_nat k)) as (v' & Hv' & Hb); [lia..|].
  unfold rd in Hv'. rewrite !Nat2Z.id, Hi in Hv'. simpl in Hv'. congruence.
Qed.

(** The same, pixel by pixel, for rows of [3 * w] samples. *)
Lemma bytes_by_pixel h w (data : bitmap) :
  dims h (3 * w) data →
  (∀ r c j, 0 ≤ r < h → 0 ≤ c < w → 0 ≤ j < 3 →
     ∃ v, rd data r (3 * c + j) = Some v ∧ is_byte v) →
  bytes data.
Proof.
  intros Hd Hpx. apply (bytes_by_sample h (3 * w)); [done|]. intros r c Hr Hc.
  destruct (Hpx r (c / 3) (c mod 3)) as (v & Hv & Hb); try (Z.div_mod_to_equations; lia).
  replace (3 * (c / 3) + c mod 3) with c in Hv by (Z.div_mod_to_equations; lia).
  eauto.
Qed.

(** [fsd] on a well-formed RGB image always returns; the object keeps its
    width, height and colour space and is again well formed, and every pixel
    of it is black or white. *)
Theorem fsd_black_or_white img :
  wf img → m_pixelSize img = 3 →
  ∃ out, fsd img = Returns out ∧ wf out ∧
    m_width out = m_width img ∧ m_height out = m_height img ∧
    m_pixelSize out = 3 ∧ m_colourSpace out = m_colourSpace img ∧
    ∀ x y, 0 ≤ x < m_width img → 0 ≤ y < m_height img →
      getPixel out x y = Ret [0x00; 0x00; 0x00] ∨
      getPixel out x y = Ret [0xFF; 0xFF; 0xFF].
Proof.
  intros Hwf Hps. pose proof (wf_row_bound _ Hwf) as Hrow. rewrite Hps in Hrow.
  pose proof (wf_w _ Hwf) as Hw. pose proof (wf_h _ Hwf) as Hh.
  pose proof (wf_size _ Hwf) as Hsize. rewrite Hps in Hsize.
  destruct (fsd_run_data img Hwf Hps) as (g & d & data & Hg & Hdg & Hd & Hdd & Hdata & Hout & Hpx).
  set (w := m_width img) in *. set (h := m_height img) in *.
  assert (Hw64 : 1 ≤ w < 2 ^ 64) by lia. assert (Hh64 : 1 ≤ h < 2 ^ 64) by nia.
  assert (Hlev : ∀ r c, 0 ≤ r < h → 0 ≤ c < w → rd d r c = Some 0 ∨ rd d r c = Some 255).
  { intros r c Hr Hc.
    destruct (fsd_dither_levels w h g r c Hw64 Hh64 Hdg Hr Hc) as (d' & Hd' & _ & Hv).
    assert (d' = d) as -> by congruence. done. }
  eexists. split; [exact Hout|]. split; [|split_and!; try done].
  - split; simpl; try done; try lia.
    + apply Hdata.
    + destruct Hdata as [_ Hcols]. eapply Forall_impl; [exact Hcols|].
      intros row. simpl. lia.
    + apply (bytes_by_pixel h w); [done|]. intros r c j Hr Hc Hj.
      rewrite Hpx by done. unfold is_byte.
      destruct (Hlev r c Hr Hc) as [-> | ->]; eexists; (split; [done|lia]).
  - intros x y Hx Hy.
    pose proof (Hpx y x 0 Hy Hx ltac:(lia)) as E0. rewrite Z.add_0_r in E0.
    pose proof (Hpx y x 1 Hy Hx ltac:(lia)) as E1.
    pose proof (Hpx y x 2 Hy Hx ltac:(lia)) as E2.
    destruct (Hlev y x Hy Hx) as [Hv|Hv]; rewrite Hv in E0, E1, E2; [left|right];
      apply (getPixel_rgb data w h); done || lia.
Qed.

Lemma fsd_black_or_white_witness :
  ∃ out, fsd (uniform 4 3 [90; 100; 110]) = Returns out ∧ wf out ∧
    m_width out = 4 ∧ m_height out = 3 ∧
    m_pixelSize out = 3 ∧ m_colourSpace out = 0 ∧
    ∀ x y, 0 ≤ x < 4 → 0 ≤ y < 3 →
      getPixel out x y = Ret [0x00; 0x00; 0x00] ∨
      getPixel out x y = Ret [0xFF; 0xFF; 0xFF].
Proof.
  apply (fsd_black_or_white (uniform 4 3 [90; 100; 110])).
  - wf_by_computation.
  - reflexivity.
Defined.

(** ** fsdColor on its own result *)

Lemma for_each_fixed {S} idx (body : Z → S → option S) s :
  (∀ i, i ∈ idx → body i s = Some s) → for_each idx body s = Some s.
Proof.
  induction idx as [|i idx IH]; intros Hfix; [done|].
  simpl. rewrite Hfix by left. simpl. apply IH. intros j Hj. apply Hfix. by right.
Qed.

Lemma scan_fixed body cols rows b :
  (∀ r c, r ∈ rows → c ∈ cols → body r c b = Some b) →
  scan body cols rows b = Some b.
Proof.
  intros Hfix. apply for_each_fixed. intros r Hr.
  apply for_each_fixed. intros c Hc. by apply Hfix.
Qed.

(** A visit of such a pixel stores what is there and diffuses nothing. *)
Lemma fsdColor_pixel_fixed w h r k b :
  1 ≤ w ∧ 3 * w < 2 ^ 64 → 1 ≤ h < 2 ^ 64 →
  dims h (3 * w) b → bytes b → 0 ≤ r < h → 0 ≤ k < w →
  palette_pixel w h b r k →
  fsdColor_pixel w h 3 r (3 * k) b = Some b.
Proof.
  intros Hw Hh Hd Hb Hr Hk (id & p0 & p1 & p2 & Hid & Hborder & P0 & P1 & P2 & H0 & H1 & H2).
  unfold fsdColor_pixel. set (c := 3 * k) in *.
  destruct (decide (fsdColor_border w h r c)) as [Hbd|Hint].
  - rewrite decide_True by (apply (fsdColor_border_iff w h); done || lia).
    rewrite (Hborder Hbd) in P0, P1, P2.
    rewrite P0, P1, P2. cbn [mbind option_bind].
    rewrite !size_t_small by lia.
    rewrite (wr_same b r c p0) by (done || lia). cbn [mbind option_bind].
    rewrite (wr_same b r (c + 1) p1) by (done || lia). cbn [mbind option_bind].
    apply wr_same; (done || lia).
  - rewrite decide_False by (rewrite (fsdColor_border_iff w h) by lia; done).
    pose proof (palet_row id p0 p1 p2 ltac:(lia) P0 P1 P2) as Hp.
    destruct (nearest_exact id p0 p1 p2 Hid Hp) as (Hnear & _ & E0 & E1 & E2).
    assert (U0 : uint8_t (int16_t p0) = p0)
      by (apply int16_t_byte; eapply rd_byte; [apply palet_bytes | exact P0]).
    assert (U1 : uint8_t (int16_t p1) = p1)
      by (apply int16_t_byte; eapply rd_byte; [apply palet_bytes | exact P1]).
    assert (U2 : uint8_t (int16_t p2) = p2)
      by (apply int16_t_byte; eapply rd_byte; [apply palet_bytes | exact P2]).
    unfold fsdColor_border in Hint.
    rewrite !Z.add_0_r, !Z.sub_0_r.
    rewrite !size_t_small by (rewrite ?size_t_small by lia; lia).
    rewrite H0, H1, H2. cbn [mbind option_bind].
    rewrite Hnear. cbn [mbind option_bind].
    rewrite P0, P1, P2. cbn [mbind option_bind].
    rewrite E0, E1, E2, U0, U1, U2.
    do 4 (rewrite (diffuse_zero h (3 * w)) by (done || lia); cbn [mbind option_bind]).
    rewrite (wr_same b r c p0) by (done || lia). cbn [mbind option_bind].
    rewrite (wr_same b r (c + 1) p1) by (done || lia). cbn [mbind option_bind].
    apply wr_same; (done || lia).
Qed.

(** Every pixel of the dithered bitmap is a palette pixel. *)
Lemma fsdColor_dither_palette w h b d r k :
  1 ≤ w ∧ 3 * w < 2 ^ 64 → 1 ≤ h < 2 ^ 64 → dims h (3 * w) b →
  fsdColor_dither w h 3 b = Some d → 0 ≤ r < h → 0 ≤ k < w →
  palette_pixel w h d r k.
Proof.
  intros Hw Hh Hd Hrun Hr Hk.
  destruct (fsdColor_dither_visit w h Hw Hh b r k Hd Hr Hk)
    as (b0 & b1 & d' & Hd0 & Hstep & Hrun' & _ & Hfin).
  assert (d' = d) as -> by congruence.
  destruct (fsdColor_pixel_palette w h Hw Hh r k b0 b1 Hd0 Hr Hk Hstep)
    as (id & p0 & p1 & p2 & ? & ? & ? & ? & ? & H0 & H1 & H2).
  pose proof (Hfin 0 ltac:(lia)) as F0. rewrite Z.add_0_r in F0.
  pose proof (Hfin 1 ltac:(lia)) as F1. pose proof (Hfin 2 ltac:(lia)) as F2.
  exists id, p0, p1, p2. rewrite F0, F1, F2. done.
Qed.

(** [fsdColor] is idempotent: on a well-formed RGB image it returns a
    well-formed image of the same size, and run again on that image it
    returns it unchanged, every pixel being a palette entry already. *)
Theorem fsdColor_idempotent img :
  wf img → m_pixelSize img = 3 →
  ∃ out, fsdColor img = Returns out ∧ wf out ∧
    m_width out = m_width img ∧ m_height out = m_height img ∧
    fsdColor out = Returns out.
Proof.
  intros Hwf Hps. pose proof (wf_row_bound _ Hwf) as Hrow. rewrite Hps in Hrow.
  pose proof (wf_w _ Hwf) as Hw. pose proof (wf_h _ Hwf) as Hh.
  pose proof (wf_size _ Hwf) as Hsize. rewrite Hps in Hsize.
  pose proof (wf_dims _ Hwf) as Hd. rewrite Hps, Z.mul_comm in Hd.
  destruct (fsdColor_run img Hwf Hps) as (d & Hrun & Hdd & Hout).
  set (w := m_width img) in *. set (h := m_height img) in *.
  assert (Hw3 : 1 ≤ w ∧ 3 * w < 2 ^ 64) by lia. assert (Hh64 : 1 ≤ h < 2 ^ 64) by nia.
  pose proof (λ r k, fsdColor_dither_palette w h _ d r k Hw3 Hh64 Hd Hrun) as Hpal.
  assert (Hbytes : bytes d).
  { apply (bytes_by_pixel h w); [done|]. intros r k j Hr Hk Hj.
    destruct (Hpal r k Hr Hk) as (id & p0 & p1 & p2 & _ & _ & P0 & P1 & P2 & H0 & H1 & H2).
    assert (j = 0 ∨ j = 1 ∨ j = 2) as [-> | [-> | ->]] by lia;
      rewrite ?Z.add_0_r; eexists; (split; [eassumption|]);
      eapply rd_byte; (apply palet_bytes || eassumption). }
  eexists. split; [exact Hout|]. split; [|split; [done|split; [done|]]].
  - split; simpl; try done; try lia.
    + apply Hdd.
    + destruct Hdd as [_ Hcols]. eapply Forall_impl; [exact Hcols|].
      intros row. simpl. lia.
  - unfold fsdColor. simpl. unfold fsdColor_dither.
    rewrite scan_fixed.
    + unfold rebuild. simpl.
      destruct (dims_lookup _ _ d 0 Hdd) as (row0 & Hrow0 & Hlen0); [lia|].
      change (Z.to_nat 0) with 0%nat in Hrow0. rewrite Hrow0, Hlen0.
      destruct Hdd as [-> _]. do 3 f_equal. rewrite Z.mul_comm. apply Z.div_mul. done.
    + intros r c Hr%elem_of_range Hc.
      rewrite size_t_small in Hc by lia. replace (w * 3) with (3 * w) in Hc by lia.
      apply elem_of_range3 in Hc as (k & -> & Hk0 & Hk).
      apply fsdColor_pixel_fixed; try done; try lia. apply Hpal; lia.
Qed.

Lemma fsdColor_idempotent_witness :
  ∃ out, fsdColor (uniform 3 2 [10; 20; 30]) = Returns out ∧ wf out ∧
    m_width out = 3 ∧ m_height out = 2 ∧
    fsdColor out = Returns out.
Proof.
  apply (fsdColor_idempotent (uniform 3 2 [10; 20; 30])).
  - wf_by_computation.
  - reflexivity.
Defined.

(** ** fsd on a black image *)

(** A counting loop with an invariant that follows the counter. *)
Lemma for_each_counting {S} (I : Z → S → Prop) (body : Z → S → option S) hi :
  (∀ i s, 0 ≤ i < hi → I i s → ∃ s', body i s = Some s' ∧ I (i + 1) s') →
  ∀ n lo s, hi - lo = Z.of_nat n → 0 ≤ lo → I lo s →
  ∃ s', for_each (range lo hi) body s = Some s' ∧ I hi s'.
Proof.
  intros Hstep. induction n as [|n IH]; intros lo s Hn Hlo Hs.
  - rewrite range_nil by lia. replace hi with lo by lia. eauto.
  - rewrite range_cons by lia. simpl.
    destruct (Hstep lo s) as (s1 & -> & Hs1); [lia|done|]. simpl.
    apply IH; [lia|lia|done].
Qed.

Lemma white_before_bytes w h row col b : white_before w h row col b → bytes b.
Proof.
  intros [Hd Hv]. apply (bytes_by_sample h w); [done|]. intros r c Hr Hc.
  rewrite (Hv r c Hr Hc). eexists. split; [done|]. unfold is_byte. case_decide; lia.
Qed.

(** On a black pixel the error is 1, every share of it is 0, and the visit
    only whitens the pixel. *)
Lemma fsd_pixel_black w h r c b :
  1 ≤ w < 2 ^ 64 → 1 ≤ h < 2 ^ 64 → 0 ≤ r < h → 0 ≤ c < w →
  white_before w h r c b →
  ∃ b', fsd_pixel w h r c b = Some b' ∧ white_before w h r (c + 1) b'.
Proof.
  intros Hw Hh Hr Hc Hinv. pose proof (white_before_bytes _ _ _ _ _ Hinv) as Hb.
  destruct Hinv as [Hd Hv].
  assert (Hstep : fsd_pixel w h r c b = wr b r c 255).
  { destruct (decide (fsd_border w h r c)) as [Hbd|Hint].
    - unfold fsd_pixel. rewrite !size_t_small by lia. by rewrite decide_True.
    - unfold fsd_border in Hint. unfold fsd_pixel.
      rewrite !size_t_small by lia. rewrite decide_False by exact Hint.
      rewrite (Hv r c Hr Hc), decide_False by lia. cbn [mbind option_bind].
      change (fsd_error 0 (fsd_newPixel 0)) with 1.
      change (cdiv (1 * 7) 16) with 0. change (cdiv (1 * 1) 16) with 0.
      change (cdiv (1 * 5) 16) with 0. change (cdiv (1 * 3) 16) with 0.
      destruct (rd_ok h w b r (c + 1) Hd) as [v1 Hv1]; [lia..|].
      destruct (rd_ok h w b (r + 1) (c + 1) Hd) as [v2 Hv2]; [lia..|].
      destruct (rd_ok h w b (r + 1) c Hd) as [v3 Hv3]; [lia..|].
      destruct (rd_ok h w b (r + 1) (c - 1) Hd) as [v4 Hv4]; [lia..|].
      rewrite (add_to_zero b r (c + 1) v1) by (done || lia). cbn [mbind option_bind].
      rewrite (add_to_zero b (r + 1) (c + 1) v2) by (done || lia). cbn [mbind option_bind].
      rewrite (add_to_zero b (r + 1) c v3) by (done || lia). cbn [mbind option_bind].
      rewrite (add_to_zero b (r + 1) (c - 1) v4) by (done || lia). cbn [mbind option_bind].
      done. }
  destruct (wr_ok h w b r c 255 Hd Hr Hc) as (b' & Hwr & Hd' & Hown & Hfr & _).
  exists b'. split; [congruence|]. split; [done|].
  intros r' c' Hr' Hc'.
  destruct (decide (r' = r ∧ c' = c)) as [[-> ->]|Hne].
  - rewrite Hown, decide_True by lia. done.
  - rewrite Hfr, (Hv r' c' Hr' Hc') by lia. repeat case_decide; done || lia.
Qed.

Lemma fsd_dither_black w h g :
  1 ≤ w < 2 ^ 64 → 1 ≤ h < 2 ^ 64 → white_before w h 0 0 g →
  ∃ d, fsd_dither w h g = Some d ∧ white_before w h h 0 d.
Proof.
  intros Hw Hh Hg. unfold fsd_dither, scan.
  apply (for_each_counting (λ r b, white_before w h r 0 b) _ h) with (n := Z.to_nat h);
    [|lia|lia|done].
  intros r b Hr Hinv.
  destruct (for_each_counting (λ c b, white_before w h r c b) (fsd_pixel w h r) w)
    with (n := Z.to_nat w) (lo := 0) (s := b) as (b' & Hb' & [Hd' Hv']); [|lia|lia|done|].
  - intros c s Hc Hs. by apply fsd_pixel_black.
  - exists b'. split; [done|]. split; [done|]. intros r' c' Hr' Hc'.
    rewrite (Hv' r' c' Hr' Hc'). repeat case_decide; done || lia.
Qed.

(** [fsd] turns a black image white: every grey value is 0, below the
    threshold, so every pixel comes out 0xFF; the error [0 - 255] wraps to 1
    in its [uint8_t], and no share of it reaches a neighbour. *)
Theorem fsd_black_to_white img :
  wf img → m_pixelSize img = 3 → all_samples 0x00 img →
  ∃ out, fsd img = Returns out ∧
    m_width out = m_width img ∧ m_height out = m_height img ∧
    all_pixels [0xFF; 0xFF; 0xFF] out.
Proof.
  intros Hwf Hps Hblack. pose proof (wf_row_bound _ Hwf) as Hrow. rewrite Hps in Hrow.
  pose proof (wf_w _ Hwf) as Hw. pose proof (wf_h _ Hwf) as Hh.
  pose proof (wf_size _ Hwf) as Hsize. rewrite Hps in Hsize.
  destruct (fsd_run_data img Hwf Hps) as (g & d & data & Hg & Hdg & Hd & Hdd & Hdata & Hout & Hpx).
  destruct (toGray_ok img Hwf Hps) as (g' & Hg' & _ & Hgrey).
  assert (g' = g) as -> by congruence.
  set (w := m_width img) in *. set (h := m_height img) in *.
  assert (Hw64 : 1 ≤ w < 2 ^ 64) by lia. assert (Hh64 : 1 ≤ h < 2 ^ 64) by nia.
  destruct (fsd_dither_black w h g Hw64 Hh64) as (d' & Hd' & _ & Hwhite).
  { split; [done|]. intros r c Hr Hc.
    destruct (Hgrey r c Hr Hc) as (x & y & z & Hx & Hy & Hz & ->).
    apply (rd_all 0) in Hx, Hy, Hz; try done. subst.
    rewrite decide_False by lia. done. }
  assert (d' = d) as -> by congruence.
  eexists. split; [exact Hout|]. split; [done|]. split; [done|].
  intros x y Hx Hy. simpl in Hx, Hy.
  pose proof (Hpx y x 0 Hy Hx ltac:(lia)) as E0. rewrite Z.add_0_r in E0.
  pose proof (Hpx y x 1 Hy Hx ltac:(lia)) as E1.
  pose proof (Hpx y x 2 Hy Hx ltac:(lia)) as E2.
  rewrite (Hwhite y x Hy Hx), decide_True in E0, E1, E2 by lia.
  apply (getPixel_rgb data w h); done || lia.
Qed.

Lemma fsd_black_to_white_witness :
  ∃ out, fsd (uniform 4 3 [0; 0; 0]) = Returns out ∧
    m_width out = 4 ∧ m_height out = 3 ∧
    all_pixels [0xFF; 0xFF; 0xFF] out.
Proof.
  apply (fsd_black_to_white (uniform 4 3 [0; 0; 0])).
  - wf_by_computation.
  - reflexivity.
  - repeat constructor.
Defined.

(** ** fsd needs three channels *)

(** A write that succeeds keeps the length of every row. *)
Lemma wr_lengths b r c v b' :
  wr b r c v = Some b' → length <$> b' = length <$> b.
Proof.
  unfold wr. intros Hwr.
  destruct (b !! Z.to_nat r) as [row|] eqn:Hrow; simpl in Hwr; [|done].
  case_decide; [|done]. injection Hwr as <-.
  rewrite list_fmap_insert, length_insert. apply list_insert_id.
  by rewrite list_lookup_fmap, Hrow.
Qed.

Lemma add_to_lengths b r c d b' :
  add_to b r c d = Some b' → length <$> b' = length <$> b.
Proof.
  unfold add_to. intros Hadd.
  destruct (rd b r c); simpl in Hadd; [|done]. by eapply wr_lengths.
Qed.

Lemma fsd_pixel_lengths w h r c b b' :
  fsd_pixel w h r c b = Some b' → length <$> b' = length <$> b.
Proof.
  unfold fsd_pixel. case_decide; [apply wr_lengths|].
  intros Hstep.
  destruct (rd b r c) as [old|]; simpl in Hstep; [|done].
  destruct (add_to b _ _ _) as [b1|] eqn:H1; simpl in Hstep; [|done].
  destruct (add_to b1 _ _ _) as [b2|] eqn:H2; simpl in Hstep; [|done].
  destruct (add_to b2 _ _ _) as [b3|] eqn:H3; simpl in Hstep; [|done].
  destruct (add_to b3 _ _ _) as [b4|] eqn:H4; simpl in Hstep; [|done].
  apply wr_lengths in Hstep. apply add_to_lengths in H1, H2, H3, H4. congruence.
Qed.

(** At a column past the end of its row the loop body is undefined, border
    or not. *)
Lemma fsd_pixel_outside w h r c b row :
  b !! Z.to_nat r = Some row → len row ≤ c → fsd_pixel w h r c b = None.
Proof.
  intros Hrow Hc. unfold fsd_pixel. case_decide.
  - unfold wr. rewrite Hrow. simpl. by rewrite decide_False by lia.
  - unfold rd. rewrite Hrow. simpl.
    rewrite (lookup_ge_None_2 row) by (unfold len in Hc; lia). done.
Qed.

(** On a one-channel image [fsd] is undefined whatever the size: the grey
    pass takes three bytes per pixel, so it either runs off the end of a row
    or leaves grey rows of a third of the width, which the dithering loop
    then leaves at column [width / 3]. *)
Theorem fsd_one_channel_undefined img :
  wf img → m_pixelSize img = 1 → fsd img = Undefined.
Proof.
  intros Hwf Hps. pose proof (wf_w _ Hwf) as Hw. pose proof (wf_h _ Hwf) as Hh.
  pose proof (wf_row_bound _ Hwf) as Hrow. rewrite Hps, Z.mul_1_r in Hrow.
  pose proof (wf_dims _ Hwf) as Hd. rewrite Hps, Z.mul_1_r in Hd.
  set (w := m_width img) in *. set (h := m_height img) in *.
  unfold fsd. fold w h.
  destruct (toGray img) as [g|] eqn:Hg; simpl; [|done].
  destruct (fsd_dither w h g) as [d|] eqn:Hdither; simpl; [exfalso|done].
  unfold toGray in Hg. fold w h in Hg. rewrite Hps, Z.mul_1_r, size_t_small in Hg by lia.
  set (line row := mapM (λ col,
      a ← rd (m_bitmapData img) row col;
      b ← rd (m_bitmapData img) row (size_t (col + 1));
      c ← rd (m_bitmapData img) row (size_t (col + 2));
      Some (uint8_t (cdiv (a + b + c) 3))) (range3 w)) in *.
  destruct (lookup_lt_is_Some_2 g 0) as [g0 Hg0].
  { rewrite <- (length_mapM _ _ _ Hg).
    pose proof (range_length 0 h ltac:(lia)) as Hr. unfold len in Hr. lia. }
  assert (Hline : line 0 = Some g0).
  { rewrite <- Hg0. symmetry. change 0%nat with (Z.to_nat 0).
    eapply mapM_lookup; [exact Hg|]. apply range_lookup. lia. }
  assert (Hlen0 : len g0 = (w + 2) / 3).
  { unfold len. rewrite <- (length_mapM _ _ _ Hline). unfold range3.
    rewrite length_fmap, length_seqZ. apply Z2Nat.id. Z.div_mod_to_equations; lia. }
  assert (Hw3 : 3 ≤ w).
  { assert (H0 : range3 w !! 0%nat = Some 0).
    { unfold range3. rewrite list_lookup_fmap, lookup_seqZ_lt by (Z.div_mod_to_equations; lia).
      done. }
    pose proof (mapM_lookup _ _ _ 0%nat 0 Hline H0) as Hread.
    destruct (g0 !! 0%nat) as [v|] eqn:Hv.
    2:{ apply lookup_ge_None in Hv. unfold len in Hlen0. Z.div_mod_to_equations; lia. }
    symmetry in Hread. cbv beta in Hread.
    destruct (rd (m_bitmapData img) 0 0); simpl in Hread; [|done].
    destruct (rd (m_bitmapData img) 0 (size_t (0 + 1))); simpl in Hread; [|done].
    destruct (rd (m_bitmapData img) 0 (size_t (0 + 2))) eqn:H2; simpl in Hread; [|done].
    rewrite size_t_small in H2 by lia.
    destruct (rd_Some_bounds h w (m_bitmapData img) 0 (0 + 2) z1 Hd) as [_ ?]; done || lia. }
  set (L := (w + 2) / 3) in *.
  assert (HL : 0 ≤ L < w) by (unfold L; Z.div_mod_to_equations; lia).
  unfold fsd_dither, scan in Hdither.
  rewrite (range_cons 0 h) in Hdither by lia. simpl in Hdither.
  destruct (for_each (range 0 w) (fsd_pixel w h 0) g) as [b1|] eqn:Hrow0; [|done].
  rewrite (range_split 0 L w) in Hrow0 by lia.
  apply for_each_split in Hrow0 as (b0 & b' & Hbefore & Hstep & _).
  assert (Hlens : length <$> b0 = length <$> g).
  { refine (for_each_Some (λ t, length <$> t = length <$> g) _ _ _ _ _ _ Hbefore); [|done].
    intros c t t' _ Ht Hc. rewrite <- Ht. by eapply fsd_pixel_lengths. }
  assert (Hb0 : ∃ row, b0 !! 0%nat = Some row ∧ len row = L) .
  { pose proof (f_equal (λ l, l !! 0%nat) Hlens) as E. simpl in E.
    rewrite !list_lookup_fmap, Hg0 in E. simpl in E.
    destruct (b0 !! 0%nat) as [row|]; [|done]. simpl in E. injection E as E.
    exists row. split; [done|]. unfold len in *. lia. }
  destruct Hb0 as (row & Hrow0 & Hlen).
  rewrite (fsd_pixel_outside w h 0 L b0 row) in Hstep; [done|done|lia].
Qed.

Lemma fsd_one_channel_undefined_witness : fsd (uniform 6 2 [7]) = Undefined.
Proof.
  apply (fsd_one_channel_undefined (uniform 6 2 [7])).
  - wf_by_computation.
  - reflexivity.
Defined.

(** ** savePpm *)

Lemma concat_rows h w (b : bitmap) :
  dims h w b → 0 ≤ w →
  len (concat b) = h * w ∧
  ∀ r c, 0 ≤ r < h → 0 ≤ c < w → concat b !! Z.to_nat (r * w + c) = rd b r c.
Proof.
  intros [Hh Hrows] Hw. revert h Hh. induction Hrows as [|row b Hrow Hrows IH]; intros h Hh.
  - unfold len in *. simpl in *. split; [lia|]. intros; lia.
  - destruct (IH (h - 1)) as [Hlen Hget].
    { unfold len in *. simpl in Hh. lia. }
    unfold len in *. simpl. rewrite length_app. split; [lia|].
    intros r c Hr Hc. unfold rd. destruct (decide (r = 0)) as [->|Hr0].
    + simpl. rewrite lookup_app_l by lia. done.
    + rewrite lookup_app_r by nia.
      replace (Z.to_nat (r * w + c) - length row)%nat with (Z.to_nat ((r - 1) * w + c)) by nia.
      rewrite Hget by lia. unfold rd.
      replace (Z.to_nat r) with (S (Z.to_nat (r - 1))) by lia. done.
Qed.

(** Given that the file opens, [savePpm] writes the header [P6 width height
    255] and then the bitmap row by row: [height * width * m_pixelSize]
    bytes, sample [n] of pixel [(x, y)] at offset
    [(y * width + x) * m_pixelSize + n].  That is the three bytes per pixel
    the [P6] header announces exactly when the image has three channels. *)
Theorem savePpm_layout img fileName :
  wf img →
  ∃ payload,
    savePpm true fileName img = Saved (chars (ppm_header img) ++ payload) ∧
    len payload = m_height img * m_width img * m_pixelSize img ∧
    (len payload = m_height img * m_width img * 3 ↔ m_pixelSize img = 3) ∧
    Forall is_byte payload ∧
    ∀ x y n, 0 ≤ x < m_width img → 0 ≤ y < m_height img → 0 ≤ n < m_pixelSize img →
      payload !! Z.to_nat ((y * m_width img + x) * m_pixelSize img + n)
      = Some (sample img x y n).
Proof.
  intros Hwf. pose proof (wf_ps _ Hwf) as Hps. pose proof (wf_w _ Hwf) as Hw.
  pose proof (wf_h _ Hwf) as Hh. pose proof (wf_dims _ Hwf) as Hd.
  destruct (concat_rows _ _ _ Hd ltac:(nia)) as [Hlen Hget].
  exists (concat (m_bitmapData img)). split; [done|]. split; [lia|]. split; [|split].
  - rewrite Hlen. split; [nia|]. intros ->. lia.
  - apply Forall_concat, Hwf.
  - intros x y n Hx Hy Hn.
    replace ((y * m_width img + x) * m_pixelSize img + n)
      with (y * (m_width img * m_pixelSize img) + (x * m_pixelSize img + n)) by lia.
    rewrite Hget by nia. unfold sample.
    destruct (rd_ok _ _ _ y (x * m_pixelSize img + n) Hd) as [v ->]; [lia|nia|done].
Qed.

Lemma savePpm_layout_witness :
  ∃ payload,
    savePpm true "out.ppm" (uniform 3 2 [10; 20; 30])
      = Saved (chars (ppm_header (uniform 3 2 [10; 20; 30])) ++ payload) ∧
    len payload = 2 * 3 * 3 ∧
    (len payload = 2 * 3 * 3 ↔ 3 = 3) ∧
    Forall is_byte payload ∧
    ∀ x y n, 0 ≤ x < 3 → 0 ≤ y < 2 → 0 ≤ n < 3 →
      payload !! Z.to_nat ((y * 3 + x) * 3 + n)
      = Some (sample (uniform 3 2 [10; 20; 30]) x y n).
Proof.
  apply (savePpm_layout (uniform 3 2 [10; 20; 30]) "out.ppm").
  wf_by_computation.
Defined.

Example ppm_header_12_2 : ppm_header (uniform 12 2 [1; 2; 3]) = "P6 12 2 255" +:+ newline.
Proof. reflexivity. Qed.
